(** * racegame: the simulation core, embedded and verified

    A shallow embedding of the TypeScript core of the 2D racing game:
    vector math ([core/types/vector.ts]), the data types of tracks, cars,
    inputs and game state, the collision primitives
    ([core/game/collision.ts]), the no-slip physics engine
    ([core/physics/simple-physics.ts]), the lap tracker
    ([core/game/lap-tracker.ts]) and the [step] method of the fixed
    timestep loop ([core/game/game-loop.ts]).

    Numbers.  A JavaScript [number] that carries a coordinate, a speed, an
    angle or a time stamp is modelled as a real number: arithmetic is exact,
    there is no rounding, no NaN and no infinity.  [Math.max], [Math.min],
    [Math.abs], [Math.sqrt], [Math.cos] and [Math.sin] are [Rmax], [Rmin],
    [Rabs], [sqrt], [cos] and [sin].  A [number] that is only ever a
    counter or an index (checkpoint index, lap number, tick) is an integer
    of [Z]; the [%] operator on those is [Z.rem] (truncated, the sign of the
    dividend), and [x % 0], which is NaN in JavaScript, is written out as
    [None].

    Effects.  [performance.now()] and the state-change observer are the only
    effects of the modelled code.  They are threaded through a small state
    monad over a [World]: the readings the clock will give, how many were
    taken, and the states the observer was notified of. *)

From Stdlib Require Import Reals Lra Lia ZArith List String.
From stdpp Require Import base decidable option list gmap.

#[local] Open Scope R_scope.

(** Comparisons of reals, as the [if]s of the source test them. *)
#[global] Instance Rlt_decision : RelDecision Rlt := Rlt_dec.
#[global] Instance Rle_decision : RelDecision Rle := Rle_dec.
#[global] Instance Rgt_decision : RelDecision Rgt := Rgt_dec.
#[global] Instance Rge_decision : RelDecision Rge := Rge_dec.
#[global] Instance Req_decision : EqDecision R := Req_dec_T.

(** ** core/types/vector.ts *)
Module Vec.

Record Vec2 : Type := vec2 { x : R; y : R }.

Definition VEC2_ZERO : Vec2 := vec2 0 0.

Definition add (a b : Vec2) : Vec2 := vec2 (x a + x b) (y a + y b).

Definition subtract (a b : Vec2) : Vec2 := vec2 (x a - x b) (y a - y b).

Definition scale (v : Vec2) (scalar : R) : Vec2 :=
  vec2 (x v * scalar) (y v * scalar).

Definition length (v : Vec2) : R := sqrt (x v * x v + y v * y v).

Definition lengthSquared (v : Vec2) : R := x v * x v + y v * y v.

Definition dot (a b : Vec2) : R := x a * x b + y a * y b.

Definition cross (a b : Vec2) : R := x a * y b - y a * x b.

Definition fromAngle (angle : R) : Vec2 := vec2 (cos angle) (sin angle).

End Vec.

Abbreviation Vec2 := Vec.Vec2.
Abbreviation vec2 := Vec.vec2.

(** ** core/types/track.ts *)
Module Track.

(** [end] is a keyword: the second end point is [end_]. *)
Record LineSegment : Type := createLineSegment { start : Vec2; end_ : Vec2 }.

Record Checkpoint : Type := createCheckpoint {
  segment : LineSegment;
  index : Z
}.

Record Track : Type := {
  name : string;
  outerBoundary : list LineSegment;
  innerBoundary : list LineSegment;
  checkpoints : list Checkpoint;
  startPosition : Vec2;
  startRotation : R
}.

End Track.

Abbreviation LineSegment := Track.LineSegment.
Abbreviation Checkpoint := Track.Checkpoint.

(** ** core/types/car.ts *)
Module Car.

Record CarState : Type := {
  position : Vec2;
  rotation : R;
  velocity : Vec2;
  angularVelocity : R
}.

(** [Partial<CarState>]: every field may be absent. *)
Record PartialCarState : Type := {
  position_opt : option Vec2;
  rotation_opt : option R;
  velocity_opt : option Vec2;
  angularVelocity_opt : option R
}.

Definition createCarState (position : Vec2) (rotation : R) : CarState :=
  {| position := position;
     rotation := rotation;
     velocity := Vec.VEC2_ZERO;
     angularVelocity := 0 |}.

(** [updates.f ?? state.f] for each field. *)
Definition updateCarState (state : CarState) (updates : PartialCarState)
  : CarState :=
  {| position := default (position state) (position_opt updates);
     rotation := default (rotation state) (rotation_opt updates);
     velocity := default (velocity state) (velocity_opt updates);
     angularVelocity :=
       default (angularVelocity state) (angularVelocity_opt updates) |}.

Definition getCarSpeed (state : CarState) : R :=
  sqrt (Vec.x (velocity state) * Vec.x (velocity state)
        + Vec.y (velocity state) * Vec.y (velocity state)).

End Car.

Abbreviation CarState := Car.CarState.

(** ** core/types/input.ts *)
Module Input.

Record InputCommand : Type := {
  throttle : R;
  brake : R;
  steering : R
}.

Definition INPUT_NONE : InputCommand :=
  {| throttle := 0; brake := 0; steering := 0 |}.

Definition createInputCommand (throttle brake steering : R) : InputCommand :=
  {| throttle := Rmax 0 (Rmin 1 throttle);
     brake := Rmax 0 (Rmin 1 brake);
     steering := Rmax (-1) (Rmin 1 steering) |}.

End Input.

Abbreviation InputCommand := Input.InputCommand.

(** ** core/types/game.ts *)
Module Game.

Record LapProgress : Type := {
  lastCheckpointIndex : Z;
  checkpointsPassed : gset Z
}.

Record LapTime : Type := {
  lapNumber : Z;
  timeMs : R
}.

Record TimingState : Type := {
  raceStartTime : R;
  lapStartTime : R;
  lapTimes : list LapTime;
  currentLap : Z
}.

Inductive GameStatus : Type := countdown | racing | finished.

Record GameState : Type := {
  status : GameStatus;
  car : CarState;
  track : Track.Track;
  lapProgress : LapProgress;
  timing : TimingState;
  totalLaps : Z;
  tick : Z
}.

(** [Partial<GameState>]. *)
Record PartialGameState : Type := {
  status_opt : option GameStatus;
  car_opt : option CarState;
  track_opt : option Track.Track;
  lapProgress_opt : option LapProgress;
  timing_opt : option TimingState;
  totalLaps_opt : option Z;
  tick_opt : option Z
}.

Definition no_updates : PartialGameState :=
  {| status_opt := None; car_opt := None; track_opt := None;
     lapProgress_opt := None; timing_opt := None; totalLaps_opt := None;
     tick_opt := None |}.

Definition createLapProgress : LapProgress :=
  {| lastCheckpointIndex := 0; checkpointsPassed := {[ 0%Z ]} |}.

Definition createTimingState (startTime : R) : TimingState :=
  {| raceStartTime := startTime;
     lapStartTime := startTime;
     lapTimes := [];
     currentLap := 1 |}.

Definition updateGameState (state : GameState) (updates : PartialGameState)
  : GameState :=
  {| status := default (status state) (status_opt updates);
     car := default (car state) (car_opt updates);
     track := default (track state) (track_opt updates);
     lapProgress := default (lapProgress state) (lapProgress_opt updates);
     timing := default (timing state) (timing_opt updates);
     totalLaps := default (totalLaps state) (totalLaps_opt updates);
     tick := default (tick state) (tick_opt updates) |}.

End Game.

Abbreviation LapProgress := Game.LapProgress.
Abbreviation TimingState := Game.TimingState.
Abbreviation LapTime := Game.LapTime.
Abbreviation GameState := Game.GameState.

#[global] Instance GameStatus_eq_dec : EqDecision Game.GameStatus.
Proof. solve_decision. Defined.

(** ** The host: the clock and the observer

    [performance.now()] returns the next of the readings the host will
    give; the observer registered with [setOnStateChange] is a function of
    the host's state. *)
Module Host.

Record World : Type := {
  readings : nat -> R;
  cursor : nat;
  observed : list GameState
}.

(** A computation that may read the clock or notify the observer. *)
Definition Eff (A : Type) : Type := World -> A * World.

Definition ret {A : Type} (a : A) : Eff A := fun w => (a, w).

Definition bind {A B : Type} (m : Eff A) (k : A -> Eff B) : Eff B :=
  fun w => let (a, w') := m w in k a w'.

(** The reading [performance.now()] gives in world [w], and the world it
    leaves. *)
Definition reading (w : World) : R := readings w (cursor w).

Definition after_reading (w : World) : World :=
  {| readings := readings w;
     cursor := S (cursor w);
     observed := observed w |}.

Definition performance_now : Eff R :=
  fun w => (reading w, after_reading w).

End Host.

Abbreviation World := Host.World.
Abbreviation Eff := Host.Eff.

Declare Scope eff_scope.
Delimit Scope eff_scope with eff.
Notation "'let*' a ':=' m 'in' k" :=
  (Host.bind m (fun a => k))
  (at level 10, a name, m at level 100, k at level 200) : eff_scope.

(** ** config.ts *)
Module Config.

Definition TICK_DURATION : R := 1 / 60.
Definition TOTAL_LAPS : Z := 3.

Definition MAX_SPEED : R := 400.
Definition MAX_REVERSE_SPEED : R := 150.
Definition ACCELERATION : R := 300.
Definition BRAKE_ACCELERATION : R := 400.
Definition FRICTION : R := 100.
Definition STEERING_RATE : R := 3.0.
Definition MIN_STEERING_SPEED : R := 10.

End Config.

(** ** core/game/collision.ts *)
Module Collision.

Definition lineSegmentIntersection (seg1 seg2 : LineSegment) : option Vec2 :=
  let p := Track.start seg1 in
  let r := Vec.subtract (Track.end_ seg1) (Track.start seg1) in
  let q := Track.start seg2 in
  let s := Vec.subtract (Track.end_ seg2) (Track.start seg2) in
  let rxs := Vec.cross r s in
  let qmp := Vec.subtract q p in
  let qmpxr := Vec.cross qmp r in
  if decide (Rabs rxs < 1e-10) then None
  else
    let t := Vec.cross qmp s / rxs in
    let u := qmpxr / rxs in
    if decide (t >= 0 /\ t <= 1 /\ u >= 0 /\ u <= 1)
    then Some (vec2 (Vec.x p + t * Vec.x r) (Vec.y p + t * Vec.y r))
    else None.

(** The locals [r], [s], [rxs], [t] and [u] of [lineSegmentIntersection],
    as functions of the two segments. *)
Definition direction (seg : LineSegment) : Vec2 :=
  Vec.subtract (Track.end_ seg) (Track.start seg).

Definition rxs (seg1 seg2 : LineSegment) : R :=
  Vec.cross (direction seg1) (direction seg2).

(** The numerators of [t] and [u]. *)
Definition numerator_t (seg1 seg2 : LineSegment) : R :=
  Vec.cross (Vec.subtract (Track.start seg2) (Track.start seg1))
            (direction seg2).

Definition numerator_u (seg1 seg2 : LineSegment) : R :=
  Vec.cross (Vec.subtract (Track.start seg2) (Track.start seg1))
            (direction seg1).

Definition param_t (seg1 seg2 : LineSegment) : R :=
  numerator_t seg1 seg2 / rxs seg1 seg2.

Definition param_u (seg1 seg2 : LineSegment) : R :=
  numerator_u seg1 seg2 / rxs seg1 seg2.

(** The point of a segment at parameter [k]: [start + k * (end - start)]. *)
Definition point_at (seg : LineSegment) (k : R) : Vec2 :=
  vec2 (Vec.x (Track.start seg) + k * Vec.x (direction seg))
       (Vec.y (Track.start seg) + k * Vec.y (direction seg)).

(** [polygon[i]!]: the loops below only read indices below the length; out
    of range JavaScript would give [undefined], here the zero vector. *)
Definition at_index (polygon : list Vec2) (i : nat) : Vec2 :=
  default Vec.VEC2_ZERO (polygon !! i).

(** [crossProduct > 0 ? 1 : -1] *)
Definition sign_of (crossProduct : R) : Z :=
  if decide (crossProduct > 0) then 1%Z else (-1)%Z.

(** The [for] loop of [pointInPolygon], from index [i] with [remaining]
    iterations to go; [sign] is [None] for the source's [null]. *)
Fixpoint pointInPolygon_loop (point : Vec2) (polygon : list Vec2) (n : nat)
  (remaining i : nat) (sign : option Z) : bool :=
  match remaining with
  | O => true
  | S remaining' =>
      let a := at_index polygon i in
      let b := at_index polygon ((i + 1) mod n) in
      let edge := Vec.subtract b a in
      let toPoint := Vec.subtract point a in
      let crossProduct := Vec.cross edge toPoint in
      match sign with
      | None =>
          pointInPolygon_loop point polygon n remaining' (S i)
            (Some (sign_of crossProduct))
      | Some sgn =>
          if decide (sign_of crossProduct ≠ sgn) then false
          else pointInPolygon_loop point polygon n remaining' (S i) sign
      end
  end.

Definition pointInPolygon (point : Vec2) (polygon : list Vec2) : bool :=
  let n := List.length polygon in
  if decide (n < 3)%nat then false
  else pointInPolygon_loop point polygon n n 0 None.

Definition getRotatedRectCorners (center : Vec2) (width height rotation : R)
  : list Vec2 :=
  let cos := cos rotation in
  let sin := sin rotation in
  let hw := width / 2 in
  let hh := height / 2 in
  let localCorners :=
    [ vec2 (- hw) (- hh); vec2 hw (- hh); vec2 hw hh; vec2 (- hw) hh ] in
  map (fun corner =>
         vec2 (Vec.x center + Vec.x corner * cos - Vec.y corner * sin)
              (Vec.y center + Vec.x corner * sin + Vec.y corner * cos))
      localCorners.

(** The edge from corner [i] to corner [(i + 1) % 4]. *)
Definition rect_edge (corners : list Vec2) (i : nat) : LineSegment :=
  {| Track.start := at_index corners i;
     Track.end_ := at_index corners ((i + 1) mod 4) |}.

(** The [for] loop of [rectangleIntersectsLine]: [true] is the early
    [return true]. *)
Fixpoint rectangleIntersectsLine_loop (corners : list Vec2)
  (line : LineSegment) (remaining i : nat) : bool :=
  match remaining with
  | O => false
  | S remaining' =>
      if lineSegmentIntersection (rect_edge corners i) line is Some _
      then true
      else rectangleIntersectsLine_loop corners line remaining' (S i)
  end.

Definition rectangleIntersectsLine (center : Vec2) (width height rotation : R)
  (line : LineSegment) : bool :=
  let corners := getRotatedRectCorners center width height rotation in
  if rectangleIntersectsLine_loop corners line 4 0 then true
  else if pointInPolygon (Track.start line) corners then true
  else false.

End Collision.

(** ** The frame of a rectangle

    The coordinates of a point along the width and along the height of a
    rectangle, measured from its centre: the inverse of the rotation and
    translation [getRotatedRectCorners] applies to the local corners. *)
Module Frame.

Definition along_width (center : Vec2) (rotation : R) (point : Vec2) : R :=
  (Vec.x point - Vec.x center) * cos rotation
  + (Vec.y point - Vec.y center) * sin rotation.

Definition along_height (center : Vec2) (rotation : R) (point : Vec2) : R :=
  (Vec.y point - Vec.y center) * cos rotation
  - (Vec.x point - Vec.x center) * sin rotation.

End Frame.

(** ** core/physics/physics-engine.ts *)
Module PhysicsEngine.

Record PhysicsConfig : Type := {
  maxSpeed : R;
  maxReverseSpeed : R;
  acceleration : R;
  brakeAcceleration : R;
  friction : R;
  steeringRate : R;
  minSteeringSpeed : R
}.

(** The interface: an engine is its [update] method. *)
Record PhysicsEngine : Type := {
  update : CarState -> InputCommand -> R -> CarState
}.

End PhysicsEngine.

Abbreviation PhysicsConfig := PhysicsEngine.PhysicsConfig.

(** ** core/physics/simple-physics.ts *)
Module SimplePhysics.
Import PhysicsEngine.

Definition calculateThrottleEffect
  (currentSpeed throttle deltaTime acceleration : R) : R :=
  if decide (throttle <= 0) then currentSpeed
  else currentSpeed + acceleration * throttle * deltaTime.

Definition calculateBrakeEffect
  (currentSpeed brake deltaTime brakeAcceleration minSteeringSpeed : R) : R :=
  if decide (brake <= 0) then currentSpeed
  else
    let brakeForce := brakeAcceleration * brake * deltaTime in
    if decide (currentSpeed > minSteeringSpeed)
    then Rmax 0 (currentSpeed - brakeForce)
    else if decide (currentSpeed < - minSteeringSpeed)
    then Rmin 0 (currentSpeed + brakeForce)
    else
      let reverseForce := brakeAcceleration * brake * deltaTime * 0.5 in
      currentSpeed - reverseForce.

Definition calculateFrictionEffect
  (currentSpeed throttle brake deltaTime friction : R) : R :=
  if decide (throttle <> 0 \/ brake <> 0) then currentSpeed
  else
    let frictionForce := friction * deltaTime in
    if decide (Rabs currentSpeed < frictionForce) then 0
    else if decide (currentSpeed > 0)
    then currentSpeed - frictionForce
    else currentSpeed + frictionForce.

Definition clampSpeed (speed maxSpeed maxReverseSpeed : R) : R :=
  Rmax (- maxReverseSpeed) (Rmin maxSpeed speed).

Definition createDefaultPhysicsConfig : PhysicsConfig :=
  {| maxSpeed := Config.MAX_SPEED;
     maxReverseSpeed := Config.MAX_REVERSE_SPEED;
     acceleration := Config.ACCELERATION;
     brakeAcceleration := Config.BRAKE_ACCELERATION;
     friction := Config.FRICTION;
     steeringRate := Config.STEERING_RATE;
     minSteeringSpeed := Config.MIN_STEERING_SPEED |}.

(** The methods of [class SimplePhysicsEngine]; [config] is [this.config]. *)
Definition getSignedSpeed (car : CarState) (forward : Vec2) : R :=
  let speed := Car.getCarSpeed car in
  if decide (speed < 0.001) then 0
  else
    let alignment := Vec.dot (Car.velocity car) forward in
    if decide (alignment >= 0) then speed else - speed.

Definition updateRotation (config : PhysicsConfig)
  (rotation speed steering deltaTime : R) : R :=
  if decide (Rabs speed < minSteeringSpeed config) then rotation
  else
    let speedFactor := Rmin 1 (Rabs speed / (maxSpeed config * 0.5)) in
    let steeringAmount :=
      steering * steeringRate config * speedFactor * deltaTime in
    let direction := if decide (speed >= 0) then 1 else -1 in
    rotation + steeringAmount * direction.

Definition updateSpeed (config : PhysicsConfig)
  (currentSpeed throttle brake deltaTime : R) : R :=
  let afterThrottle :=
    calculateThrottleEffect currentSpeed throttle deltaTime
      (acceleration config) in
  let afterBrake :=
    calculateBrakeEffect afterThrottle brake deltaTime
      (brakeAcceleration config) (minSteeringSpeed config) in
  let afterFriction :=
    calculateFrictionEffect afterBrake throttle brake deltaTime
      (friction config) in
  clampSpeed afterFriction (maxSpeed config) (maxReverseSpeed config).

Definition update (config : PhysicsConfig)
  (car : CarState) (input : InputCommand) (deltaTime : R) : CarState :=
  let forward := Vec.fromAngle (Car.rotation car) in
  let currentSpeed := getSignedSpeed car forward in
  let newRotation :=
    updateRotation config (Car.rotation car) currentSpeed
      (Input.steering input) deltaTime in
  let newSpeed :=
    updateSpeed config currentSpeed (Input.throttle input)
      (Input.brake input) deltaTime in
  let newForward := Vec.fromAngle newRotation in
  let newVelocity := Vec.scale newForward newSpeed in
  let newPosition :=
    Vec.add (Car.position car) (Vec.scale newVelocity deltaTime) in
  Car.updateCarState car
    {| Car.position_opt := Some newPosition;
       Car.rotation_opt := Some newRotation;
       Car.velocity_opt := Some newVelocity;
       Car.angularVelocity_opt := None |}.

(** [new SimplePhysicsEngine(config)] *)
Definition SimplePhysicsEngine (config : PhysicsConfig) : PhysicsEngine :=
  {| PhysicsEngine.update := update config |}.

End SimplePhysics.

(** ** core/game/lap-tracker.ts *)
Module LapTracker.
#[local] Open Scope eff_scope.

Definition crossesCheckpoint (oldPos newPos : Vec2) (checkpoint : Checkpoint)
  : bool :=
  let movement := {| Track.start := oldPos; Track.end_ := newPos |} in
  bool_decide
    (Collision.lineSegmentIntersection movement (Track.segment checkpoint)
     <> None).

Record LapUpdateResult : Type := {
  lapProgress : LapProgress;
  timing : TimingState;
  raceFinished : bool
}.

(** The unnamed result type of [processCheckpointCross]. *)
Module Cross.
Record result : Type := {
  progress : LapProgress;
  timing : TimingState;
  raceFinished : bool
}.
End Cross.

(** [Array.from({ length: totalCheckpoints - 1 }, (_, i) => i + 1)]: the
    indices 1 .. totalCheckpoints - 1, none when the length is not
    positive. *)
Definition otherCheckpoints (totalCheckpoints : Z) : list Z :=
  seqZ 1 (totalCheckpoints - 1).

(** [(lastCheckpointIndex + 1) % totalCheckpoints]; [None] is NaN. *)
Definition expectedNext (progress : LapProgress) (totalCheckpoints : Z)
  : option Z :=
  if decide (totalCheckpoints = 0)%Z then None
  else Some (Z.rem (Game.lastCheckpointIndex progress + 1) totalCheckpoints).

Definition processCheckpointCross
  (progress : LapProgress) (timing : TimingState) (checkpoint : Checkpoint)
  (totalCheckpoints totalLaps : Z) : Eff Cross.result :=
  let checkpointIndex := Track.index checkpoint in
  let raceFinished := false in
  if decide (checkpointIndex = 0)%Z then
    let allOthersPassed :=
      forallb (fun i => bool_decide (i ∈ Game.checkpointsPassed progress))
              (otherCheckpoints totalCheckpoints) in
    if allOthersPassed then
      let* now := Host.performance_now in
      let lapTime :=
        {| Game.lapNumber := Game.currentLap timing;
           Game.timeMs := now - Game.lapStartTime timing |} in
      let newLapTimes := Game.lapTimes timing ++ [lapTime] in
      let raceFinished :=
        if decide (Game.currentLap timing >= totalLaps)%Z then true
        else raceFinished in
      Host.ret
        {| Cross.progress :=
             {| Game.lastCheckpointIndex := 0;
                Game.checkpointsPassed := {[ 0%Z ]} |};
           Cross.timing :=
             {| Game.raceStartTime := Game.raceStartTime timing;
                Game.lapStartTime := now;
                Game.lapTimes := newLapTimes;
                Game.currentLap := (Game.currentLap timing + 1)%Z |};
           Cross.raceFinished := raceFinished |}
    else
      Host.ret {| Cross.progress := progress; Cross.timing := timing;
                  Cross.raceFinished := raceFinished |}
  else if bool_decide (checkpointIndex ∈ Game.checkpointsPassed progress) then
    Host.ret {| Cross.progress := progress; Cross.timing := timing;
                Cross.raceFinished := raceFinished |}
  else if decide (Some checkpointIndex <> expectedNext progress totalCheckpoints)
  then
    Host.ret {| Cross.progress := progress; Cross.timing := timing;
                Cross.raceFinished := raceFinished |}
  else
    let newCheckpointsPassed :=
      {[ checkpointIndex ]} ∪ Game.checkpointsPassed progress in
    Host.ret
      {| Cross.progress :=
           {| Game.lastCheckpointIndex := checkpointIndex;
              Game.checkpointsPassed := newCheckpointsPassed |};
         Cross.timing := timing;
         Cross.raceFinished := raceFinished |}.

(** The [for ... of] loop of [updateLapProgress] over the checkpoints still
    to visit; [checkpoints] is the whole list, whose length every call of
    [processCheckpointCross] receives. *)
Fixpoint updateLapProgress_loop (toVisit checkpoints : list Checkpoint)
  (oldPos newPos : Vec2) (totalLaps : Z)
  (newProgress : LapProgress) (newTiming : TimingState) (raceFinished : bool)
  : Eff LapUpdateResult :=
  match toVisit with
  | [] =>
      Host.ret {| lapProgress := newProgress; timing := newTiming;
                  raceFinished := raceFinished |}
  | checkpoint :: toVisit' =>
      if crossesCheckpoint oldPos newPos checkpoint then
        let* result :=
          processCheckpointCross newProgress newTiming checkpoint
            (Z.of_nat (List.length checkpoints)) totalLaps in
        updateLapProgress_loop toVisit' checkpoints oldPos newPos totalLaps
          (Cross.progress result) (Cross.timing result)
          (Cross.raceFinished result)
      else
        updateLapProgress_loop toVisit' checkpoints oldPos newPos totalLaps
          newProgress newTiming raceFinished
  end.

Definition updateLapProgress
  (progress : LapProgress) (timing : TimingState)
  (checkpoints : list Checkpoint) (oldPos newPos : Vec2) (totalLaps : Z)
  : Eff LapUpdateResult :=
  updateLapProgress_loop checkpoints checkpoints oldPos newPos totalLaps
    progress timing false.

End LapTracker.

(** ** Outcomes of a crossing

    The two results [processCheckpointCross] builds inline, named: the
    result of an ignored crossing, and the timing after a completed lap. *)
Module Outcome.

Definition ignored (progress : LapProgress) (timing : TimingState)
  : LapTracker.Cross.result :=
  {| LapTracker.Cross.progress := progress;
     LapTracker.Cross.timing := timing;
     LapTracker.Cross.raceFinished := false |}.

Definition lapCompleted (timing : TimingState) (now : R) : TimingState :=
  {| Game.raceStartTime := Game.raceStartTime timing;
     Game.lapStartTime := now;
     Game.lapTimes :=
       Game.lapTimes timing
       ++ [ {| Game.lapNumber := Game.currentLap timing;
               Game.timeMs := now - Game.lapStartTime timing |} ];
     Game.currentLap := (Game.currentLap timing + 1)%Z |}.

(** The checkpoints 1 .. totalCheckpoints - 1 that are not in the passed
    set: those the lap still needs. *)
Definition missing (totalCheckpoints : Z) (progress : LapProgress) : gset Z :=
  list_to_set (LapTracker.otherCheckpoints totalCheckpoints)
  ∖ Game.checkpointsPassed progress.

End Outcome.

(** ** core/game/game-loop.ts *)
Module GameLoop.
#[local] Open Scope eff_scope.

(** [type StateChangeCallback = (state: GameState) => void] *)
Definition StateChangeCallback : Type := GameState -> Eff unit.

(** The fields of [class GameLoop] that [step] reads or writes, and the
    scheduling fields beside them.  The input source and the renderer are
    used by [loop] only. *)
Record GameLoop : Type := {
  state : GameState;
  physics : PhysicsEngine.PhysicsEngine;
  running : bool;
  accumulator : R;
  lastTime : R;
  tickDuration : R;
  onStateChange : option StateChangeCallback
}.

(** [this.state = s] *)
Definition set_state (this : GameLoop) (s : GameState) : GameLoop :=
  {| state := s;
     physics := physics this;
     running := running this;
     accumulator := accumulator this;
     lastTime := lastTime this;
     tickDuration := tickDuration this;
     onStateChange := onStateChange this |}.

Definition setOnStateChange (this : GameLoop) (callback : StateChangeCallback)
  : GameLoop :=
  {| state := state this;
     physics := physics this;
     running := running this;
     accumulator := accumulator this;
     lastTime := lastTime this;
     tickDuration := tickDuration this;
     onStateChange := Some callback |}.

Definition getState (this : GameLoop) : GameState := state this.

(** [this.onStateChange?.(s)] *)
Definition notify (callback : option StateChangeCallback) (s : GameState)
  : Eff unit :=
  match callback with
  | Some f => f s
  | None => Host.ret tt
  end.

(** [step] returns the state and leaves the loop object updated. *)
Definition step (this : GameLoop) (input : InputCommand)
  : Eff (GameState * GameLoop) :=
  if decide (Game.status (state this) <> Game.racing) then
    Host.ret (state this, this)
  else
    let newCar :=
      PhysicsEngine.update (physics this) (Game.car (state this)) input
        (tickDuration this) in
    let* r :=
      LapTracker.updateLapProgress
        (Game.lapProgress (state this))
        (Game.timing (state this))
        (Track.checkpoints (Game.track (state this)))
        (Car.position (Game.car (state this)))
        (Car.position newCar)
        (Game.totalLaps (state this)) in
    let this' :=
      set_state this
        (Game.updateGameState (state this)
           {| Game.status_opt :=
                Some (if LapTracker.raceFinished r then Game.finished
                      else Game.racing);
              Game.car_opt := Some newCar;
              Game.track_opt := None;
              Game.lapProgress_opt := Some (LapTracker.lapProgress r);
              Game.timing_opt := Some (LapTracker.timing r);
              Game.totalLaps_opt := None;
              Game.tick_opt := Some (Game.tick (state this) + 1)%Z |}) in
    let* _ := notify (onStateChange this') (state this') in
    Host.ret (state this', this').

(** The observer that records every state it is given. *)
Definition recordState : StateChangeCallback :=
  fun s w =>
    (tt, {| Host.readings := Host.readings w;
            Host.cursor := Host.cursor w;
            Host.observed := Host.observed w ++ [s] |}).

End GameLoop.

(** ** Scripted runs

    The loops of the headless tests: an engine stepped once per input with
    a fixed [dt], every tick recorded; a game loop stepped once per
    input. *)
Module Script.
#[local] Open Scope eff_scope.

Fixpoint trajectory (engine : PhysicsEngine.PhysicsEngine) (dt : R)
  (car : CarState) (inputs : list InputCommand) : list CarState :=
  match inputs with
  | [] => []
  | input :: inputs' =>
      let car' := PhysicsEngine.update engine car input dt in
      car' :: trajectory engine dt car' inputs'
  end.

Fixpoint stepAll (loop : GameLoop.GameLoop) (inputs : list InputCommand)
  : Eff (list GameState * GameLoop.GameLoop) :=
  match inputs with
  | [] => Host.ret ([], loop)
  | input :: inputs' =>
      let* r := GameLoop.step loop input in
      let* rs := stepAll (snd r) inputs' in
      Host.ret (fst r :: fst rs, snd rs)
  end.

End Script.

(** ** Fixtures

    The values the unit tests of the repository build: the physics test
    configuration and start pose, the three checkpoints of the lap tracker
    tests. *)
Module Fixtures.

Definition testConfig : PhysicsConfig :=
  {| PhysicsEngine.maxSpeed := 100;
     PhysicsEngine.maxReverseSpeed := 50;
     PhysicsEngine.acceleration := 50;
     PhysicsEngine.brakeAcceleration := 100;
     PhysicsEngine.friction := 10;
     PhysicsEngine.steeringRate := 2;
     PhysicsEngine.minSteeringSpeed := 5 |}.

Definition dt : R := 1 / 60.

Definition startCar : CarState := Car.createCarState (vec2 100 100) 0.

Definition fullThrottle : InputCommand := Input.createInputCommand 1 0 0.

(** A car creeping forward at half a millimetre per second. *)
Definition creepingCar : CarState :=
  {| Car.position := vec2 0 0;
     Car.rotation := 0;
     Car.velocity := vec2 0.0005 0;
     Car.angularVelocity := 0 |}.

(** A car moving at speed 5 against its heading. *)
Definition reversingCar : CarState :=
  {| Car.position := vec2 0 0;
     Car.rotation := 0;
     Car.velocity := vec2 (-5) 0;
     Car.angularVelocity := 0 |}.

Definition startFinish : Checkpoint :=
  Track.createCheckpoint (Track.createLineSegment (vec2 0 0) (vec2 0 100)) 0.

Definition checkpoint1 : Checkpoint :=
  Track.createCheckpoint
    (Track.createLineSegment (vec2 100 0) (vec2 100 100)) 1.

Definition checkpoint2 : Checkpoint :=
  Track.createCheckpoint
    (Track.createLineSegment (vec2 200 0) (vec2 200 100)) 2.

Definition checkpoints : list Checkpoint :=
  [ startFinish; checkpoint1; checkpoint2 ].

(** A move that sweeps over the start/finish line and checkpoint 1 in one
    tick, and the move of the lap completion tests, over the start/finish
    line alone. *)
Definition sweepFrom : Vec2 := vec2 (-10) 50.
Definition sweepTo : Vec2 := vec2 110 50.
Definition finishFrom : Vec2 := vec2 (-10) 50.
Definition finishTo : Vec2 := vec2 10 50.

(** A rectangle two micrometres wide and high at the origin, and a
    segment that starts outside of it and ends at its centre. *)
Definition tinySide : R := 2e-6.
Definition inwards : LineSegment :=
  {| Track.start := vec2 3e-6 0; Track.end_ := vec2 0 0 |}.
Definition outwards : LineSegment :=
  {| Track.start := vec2 0 0; Track.end_ := vec2 3e-6 0 |}.

Definition initialProgress : LapProgress :=
  {| Game.lastCheckpointIndex := 0; Game.checkpointsPassed := {[ 0%Z ]} |}.

Definition progressAllPassed : LapProgress :=
  {| Game.lastCheckpointIndex := 2;
     Game.checkpointsPassed := {[ 0%Z; 1%Z; 2%Z ]} |}.

Definition initialTiming : TimingState :=
  {| Game.raceStartTime := 0;
     Game.lapStartTime := 0;
     Game.lapTimes := [];
     Game.currentLap := 1 |}.

Definition timingLastLap : TimingState :=
  {| Game.raceStartTime := 0;
     Game.lapStartTime := 4000;
     Game.lapTimes :=
       [ {| Game.lapNumber := 1; Game.timeMs := 2000 |};
         {| Game.lapNumber := 2; Game.timeMs := 2000 |} ];
     Game.currentLap := 3 |}.

(** The mocked clock of the tests: every reading is [now]. *)
Definition mockWorld (now : R) : World :=
  {| Host.readings := fun _ => now; Host.cursor := 0; Host.observed := [] |}.

Definition track : Track.Track :=
  {| Track.name := "test";
     Track.outerBoundary := [];
     Track.innerBoundary := [];
     Track.checkpoints := checkpoints;
     Track.startPosition := vec2 (-50) 50;
     Track.startRotation := 0 |}.

Definition finishedState : GameState :=
  {| Game.status := Game.finished;
     Game.car := startCar;
     Game.track := track;
     Game.lapProgress := initialProgress;
     Game.timing := timingLastLap;
     Game.totalLaps := 3;
     Game.tick := 0 |}.

Definition finishedLoop : GameLoop.GameLoop :=
  {| GameLoop.state := finishedState;
     GameLoop.physics := SimplePhysics.SimplePhysicsEngine testConfig;
     GameLoop.running := true;
     GameLoop.accumulator := 0;
     GameLoop.lastTime := 0;
     GameLoop.tickDuration := Config.TICK_DURATION;
     GameLoop.onStateChange := Some GameLoop.recordState |}.

End Fixtures.

(** ** core/types/vector.ts, the other operations

    [toAngle] is [Math.atan2] and is left out. *)
Module VecOps.

Definition normalize (v : Vec2) : Vec2 :=
  let len := Vec.length v in
  if decide (len = 0) then Vec.VEC2_ZERO
  else vec2 (Vec.x v / len) (Vec.y v / len).

Definition rotate (v : Vec2) (angle : R) : Vec2 :=
  let cos := cos angle in
  let sin := sin angle in
  vec2 (Vec.x v * cos - Vec.y v * sin) (Vec.x v * sin + Vec.y v * cos).

Definition perpendicular (v : Vec2) : Vec2 := vec2 (- Vec.y v) (Vec.x v).

Definition lerp (a b : Vec2) (t : R) : Vec2 :=
  vec2 (Vec.x a + (Vec.x b - Vec.x a) * t)
       (Vec.y a + (Vec.y b - Vec.y a) * t).

Definition distance (a b : Vec2) : R := Vec.length (Vec.subtract b a).

Definition distanceSquared (a b : Vec2) : R :=
  Vec.lengthSquared (Vec.subtract b a).

Definition clampLength (v : Vec2) (maxLength : R) : Vec2 :=
  let len := Vec.length v in
  if decide (len <= maxLength) then v
  else Vec.scale (normalize v) maxLength.

(** [equals(a, b, epsilon = 1e-10)] *)
Definition equals (a b : Vec2) (epsilon : R) : bool :=
  bool_decide (Rabs (Vec.x a - Vec.x b) < epsilon)
  && bool_decide (Rabs (Vec.y a - Vec.y b) < epsilon).

Definition DEFAULT_EPSILON : R := 1e-10.

End VecOps.

(** ** core/types/car.ts, the forward vector *)
Module CarOps.

Definition getCarForward (state : CarState) : Vec2 :=
  vec2 (cos (Car.rotation state)) (sin (Car.rotation state)).

End CarOps.

(** ** core/game/collision.ts, the closest point *)
Module CollisionOps.

Definition closestPointOnSegment (point : Vec2) (segment : LineSegment)
  : Vec2 :=
  let v := Vec.subtract (Track.end_ segment) (Track.start segment) in
  let w := Vec.subtract point (Track.start segment) in
  let c1 := Vec.dot w v in
  if decide (c1 <= 0) then Track.start segment
  else
    let c2 := Vec.dot v v in
    if decide (c2 <= c1) then Track.end_ segment
    else
      let t := c1 / c2 in
      vec2 (Vec.x (Track.start segment) + t * Vec.x v)
           (Vec.y (Track.start segment) + t * Vec.y v).

End CollisionOps.

(** ** core/game/lap-tracker.ts, the queries *)
Module LapQueries.
#[local] Open Scope eff_scope.

(** [lapTimes.reduce((best, current) => ...)] without an initial value: the
    first element starts the fold; the empty list is returned for before
    the fold is reached. *)
Definition getBestLapTime (timing : TimingState) : option LapTime :=
  match Game.lapTimes timing with
  | [] => None
  | first :: rest =>
      Some (fold_left
              (fun best current =>
                 if decide (Game.timeMs current < Game.timeMs best)
                 then current else best)
              rest first)
  end.

Definition getCurrentLapTime (timing : TimingState) : Eff R :=
  let* now := Host.performance_now in
  Host.ret (now - Game.lapStartTime timing).

Definition getTotalRaceTime (timing : TimingState) : Eff R :=
  let* now := Host.performance_now in
  Host.ret (now - Game.raceStartTime timing).

End LapQueries.

(** ** core/game/game-state.ts *)
Module GameStateFactory.
#[local] Open Scope eff_scope.

Definition createInitialGameState (track : Track.Track) : Eff GameState :=
  let* now := Host.performance_now in
  Host.ret
    {| Game.status := Game.countdown;
       Game.car :=
         Car.createCarState (Track.startPosition track)
           (Track.startRotation track);
       Game.track := track;
       Game.lapProgress := Game.createLapProgress;
       Game.timing := Game.createTimingState now;
       Game.totalLaps := Config.TOTAL_LAPS;
       Game.tick := 0 |}.

Definition resetGameState (state : GameState) : Eff GameState :=
  let* now := Host.performance_now in
  Host.ret
    {| Game.status := Game.countdown;
       Game.car :=
         Car.createCarState (Track.startPosition (Game.track state))
           (Track.startRotation (Game.track state));
       Game.track := Game.track state;
       Game.lapProgress := Game.createLapProgress;
       Game.timing := Game.createTimingState now;
       Game.totalLaps := Game.totalLaps state;
       Game.tick := 0 |}.

End GameStateFactory.

(** ** renderer/camera.ts *)
Module Camera.

Record CameraState : Type := {
  position : Vec2;
  zoom : R
}.

Definition DEFAULT_ZOOM : R := 1.0.
Definition FOLLOW_SMOOTHING : R := 0.1.

Definition createCameraState (position : Vec2) : CameraState :=
  {| position := position; zoom := DEFAULT_ZOOM |}.

Definition updateCamera (camera : CameraState) (targetPosition : Vec2)
  (smoothing : R) : CameraState :=
  let newPosition := VecOps.lerp (position camera) targetPosition smoothing in
  {| position := newPosition; zoom := zoom camera |}.

Definition worldToScreen (worldPos : Vec2) (camera : CameraState)
  (screenWidth screenHeight : R) : Vec2 :=
  let screenCenterX := screenWidth / 2 in
  let screenCenterY := screenHeight / 2 in
  let offsetX := (Vec.x worldPos - Vec.x (position camera)) * zoom camera in
  let offsetY := (Vec.y worldPos - Vec.y (position camera)) * zoom camera in
  vec2 (screenCenterX + offsetX) (screenCenterY + offsetY).

Definition screenToWorld (screenPos : Vec2) (camera : CameraState)
  (screenWidth screenHeight : R) : Vec2 :=
  let screenCenterX := screenWidth / 2 in
  let screenCenterY := screenHeight / 2 in
  let offsetX := (Vec.x screenPos - screenCenterX) / zoom camera in
  let offsetY := (Vec.y screenPos - screenCenterY) / zoom camera in
  vec2 (Vec.x (position camera) + offsetX) (Vec.y (position camera) + offsetY).

(** The camera after following the positions of a list of frames, one
    [updateCamera] a frame as [render] does. *)
Fixpoint follow (camera : CameraState) (targets : list Vec2) (smoothing : R)
  : CameraState :=
  match targets with
  | [] => camera
  | target :: targets' =>
      follow (updateCamera camera target smoothing) targets' smoothing
  end.

End Camera.

(** ** The sides of a polygon

    The value [pointInPolygon] computes for edge [i] of a polygon of [n]
    vertices: the sign of the cross product of the edge with the vector to
    the point. *)
Module Polygon.

Definition edge_sign (point : Vec2) (polygon : list Vec2) (i : nat) : Z :=
  let n := List.length polygon in
  let a := Collision.at_index polygon i in
  let b := Collision.at_index polygon ((i + 1) mod n) in
  Collision.sign_of
    (Vec.cross (Vec.subtract b a) (Vec.subtract point a)).

End Polygon.

(** ** Held inputs

    The loop of the physics tests,
    [for (let i = 0; i < n; i++) car = engine.update(car, input, dt)]. *)
Module Runs.


End Runs.

(** ** Progress as the tracker builds it

    Every progress the code creates has the start/finish line and the last
    checkpoint taken in its passed set. *)
Module LapInvariant.

Definition well_formed (progress : LapProgress) : Prop :=
  0%Z ∈ Game.checkpointsPassed progress
  /\ Game.lastCheckpointIndex progress ∈ Game.checkpointsPassed progress.

(** The time the recorded laps took together. *)
Definition lapsTotal (timing : TimingState) : R :=
  fold_right Rplus 0 (map Game.timeMs (Game.lapTimes timing)).

(** The recorded laps fill the time from the start of the race to the
    start of the current lap, and the current lap is the one after them. *)
Definition consistent (timing : TimingState) : Prop :=
  Game.raceStartTime timing + lapsTotal timing = Game.lapStartTime timing
  /\ Game.currentLap timing
     = (Z.of_nat (List.length (Game.lapTimes timing)) + 1)%Z.

End LapInvariant.

(** ** core/game/game-loop.ts, the scheduling

    Besides the clock and the observer, the loop talks to its input source,
    to its renderer and to the frame callbacks of the host.  They are the
    environment: what [getInput()] will return call by call and how often
    it was called, whether the input source listens, the calls of
    [render], and the frame requests made and cancelled (a request is
    identified by its number).  One call of [loop] is one frame; the host
    calls it again for the frame it requested. *)
Module Scheduler.

Record Env : Type := {
  world : World;
  inputs : nat -> InputCommand;
  sampled : nat;
  listening : bool;
  rendered : list (GameState * R);
  requested : nat;
  cancelled : list nat
}.

(** The loop object with the one field [GameLoop.GameLoop] leaves out. *)
Record Scheduled : Type := {
  loop : GameLoop.GameLoop;
  animationFrameId : option nat
}.

Definition set_world (env : Env) (w : World) : Env :=
  {| world := w; inputs := inputs env; sampled := sampled env;
     listening := listening env; rendered := rendered env;
     requested := requested env; cancelled := cancelled env |}.

(** [this.inputSource.getInput()] *)
Definition getInput (env : Env) : InputCommand * Env :=
  (inputs env (sampled env),
   {| world := world env; inputs := inputs env; sampled := S (sampled env);
      listening := listening env; rendered := rendered env;
      requested := requested env; cancelled := cancelled env |}).

(** [this.inputSource.start()] and [this.inputSource.stop()] *)
Definition set_listening (env : Env) (on : bool) : Env :=
  {| world := world env; inputs := inputs env; sampled := sampled env;
     listening := on; rendered := rendered env;
     requested := requested env; cancelled := cancelled env |}.

(** [this.renderer.render(state, alpha)] *)
Definition render (env : Env) (state : GameState) (alpha : R) : Env :=
  {| world := world env; inputs := inputs env; sampled := sampled env;
     listening := listening env;
     rendered := rendered env ++ [(state, alpha)];
     requested := requested env; cancelled := cancelled env |}.

(** [requestAnimationFrame(() => this.loop())]: the number of the
    request. *)
Definition requestAnimationFrame (env : Env) : nat * Env :=
  (S (requested env),
   {| world := world env; inputs := inputs env; sampled := sampled env;
      listening := listening env; rendered := rendered env;
      requested := S (requested env); cancelled := cancelled env |}).

Definition cancelAnimationFrame (env : Env) (id : nat) : Env :=
  {| world := world env; inputs := inputs env; sampled := sampled env;
     listening := listening env; rendered := rendered env;
     requested := requested env; cancelled := cancelled env ++ [id] |}.

(** [performance.now()] in the environment. *)
Definition now (env : Env) : R * Env :=
  let (t, w) := Host.performance_now (world env) in (t, set_world env w).

(** Assignments to the scheduling fields of the loop object. *)
Definition set_schedule (this : GameLoop.GameLoop)
  (running : bool) (accumulator lastTime : R) : GameLoop.GameLoop :=
  {| GameLoop.state := GameLoop.state this;
     GameLoop.physics := GameLoop.physics this;
     GameLoop.running := running;
     GameLoop.accumulator := accumulator;
     GameLoop.lastTime := lastTime;
     GameLoop.tickDuration := GameLoop.tickDuration this;
     GameLoop.onStateChange := GameLoop.onStateChange this |}.

(** The constructor; [physics] is [None] when the argument is omitted. *)
Definition create (initialState : GameState)
  (physics : option PhysicsEngine.PhysicsEngine) : Scheduled :=
  {| loop :=
       {| GameLoop.state := initialState;
          GameLoop.physics :=
            default
              (SimplePhysics.SimplePhysicsEngine
                 SimplePhysics.createDefaultPhysicsConfig)
              physics;
          GameLoop.running := false;
          GameLoop.accumulator := 0;
          GameLoop.lastTime := 0;
          GameLoop.tickDuration := Config.TICK_DURATION;
          GameLoop.onStateChange := None |};
     animationFrameId := None |}.

(** [while (this.accumulator >= this.tickDuration) { ... }], with fuel:
    [None] when the fuel runs out before the loop ends. *)
Fixpoint drain (fuel : nat) (this : GameLoop.GameLoop) (env : Env)
  : option (GameLoop.GameLoop * Env) :=
  if decide (GameLoop.accumulator this >= GameLoop.tickDuration this) then
    match fuel with
    | O => None
    | S fuel' =>
        let (input, env1) := getInput env in
        let (stepped, w1) := GameLoop.step this input (world env1) in
        let this1 := snd stepped in
        drain fuel'
          (set_schedule this1 (GameLoop.running this1)
             (GameLoop.accumulator this1 - GameLoop.tickDuration this1)
             (GameLoop.lastTime this1))
          (set_world env1 w1)
    end
  else Some (this, env).

(** [private loop()]: one frame. *)
Definition loopFrame (fuel : nat) (this : Scheduled) (env : Env)
  : option (Scheduled * Env) :=
  if negb (GameLoop.running (loop this)) then Some (this, env)
  else
    let (currentTime, env1) := now env in
    let frameTime :=
      Rmin ((currentTime - GameLoop.lastTime (loop this)) / 1000) 0.25 in
    let this1 :=
      set_schedule (loop this) (GameLoop.running (loop this))
        (GameLoop.accumulator (loop this) + frameTime) currentTime in
    match drain fuel this1 env1 with
    | None => None
    | Some (this2, env2) =>
        let alpha :=
          GameLoop.accumulator this2 / GameLoop.tickDuration this2 in
        let env3 := render env2 (GameLoop.state this2) alpha in
        let (id, env4) := requestAnimationFrame env3 in
        Some ({| loop := this2; animationFrameId := Some id |}, env4)
    end.

Definition start (fuel : nat) (this : Scheduled) (env : Env)
  : option (Scheduled * Env) :=
  if GameLoop.running (loop this) then Some (this, env)
  else
    let env1 := set_listening env true in
    let (lastTime, env2) := now env1 in
    let (raceStartTime, env3) := now env2 in
    let (lapStartTime, env4) := now env3 in
    let timing := Game.timing (GameLoop.state (loop this)) in
    let state :=
      Game.updateGameState (GameLoop.state (loop this))
        {| Game.status_opt := Some Game.racing;
           Game.car_opt := None;
           Game.track_opt := None;
           Game.lapProgress_opt := None;
           Game.timing_opt :=
             Some {| Game.raceStartTime := raceStartTime;
                     Game.lapStartTime := lapStartTime;
                     Game.lapTimes := Game.lapTimes timing;
                     Game.currentLap := Game.currentLap timing |};
           Game.totalLaps_opt := None;
           Game.tick_opt := None |} in
    loopFrame fuel
      {| loop :=
           GameLoop.set_state (set_schedule (loop this) true 0 lastTime)
             state;
         animationFrameId := animationFrameId this |}
      env4.

Definition stop (this : Scheduled) (env : Env) : Scheduled * Env :=
  let this1 :=
    set_schedule (loop this) false (GameLoop.accumulator (loop this))
      (GameLoop.lastTime (loop this)) in
  let env1 := set_listening env false in
  match animationFrameId this with
  | Some id =>
      ({| loop := this1; animationFrameId := None |},
       cancelAnimationFrame env1 id)
  | None => ({| loop := this1; animationFrameId := None |}, env1)
  end.

Definition restart (fuel : nat) (this : Scheduled) (env : Env)
  : option (Scheduled * Env) :=
  let (this1, env1) := stop this env in
  let (now, env2) := now env1 in
  let track := Game.track (GameLoop.state (loop this1)) in
  let state :=
    Game.updateGameState (GameLoop.state (loop this1))
      {| Game.status_opt := Some Game.racing;
         Game.car_opt :=
           Some {| Car.position := Track.startPosition track;
                   Car.rotation := Track.startRotation track;
                   Car.velocity := vec2 0 0;
                   Car.angularVelocity := 0 |};
         Game.track_opt := None;
         Game.lapProgress_opt :=
           Some {| Game.lastCheckpointIndex := 0;
                   Game.checkpointsPassed := {[ 0%Z ]} |};
         Game.timing_opt :=
           Some {| Game.raceStartTime := now;
                   Game.lapStartTime := now;
                   Game.lapTimes := [];
                   Game.currentLap := 1 |};
         Game.totalLaps_opt := None;
         Game.tick_opt := Some 0%Z |} in
  start fuel
    {| loop := GameLoop.set_state (loop this1) state;
       animationFrameId := animationFrameId this1 |}
    env2.

End Scheduler.

(** ** A frame to run

    The finished loop of the fixtures in an environment whose clock reads
    5000 and whose input source holds full throttle. *)
Module FrameFixtures.

Definition env : Scheduler.Env :=
  {| Scheduler.world := Fixtures.mockWorld 5000;
     Scheduler.inputs := fun _ => Fixtures.fullThrottle;
     Scheduler.sampled := 0;
     Scheduler.listening := true;
     Scheduler.rendered := [];
     Scheduler.requested := 0;
     Scheduler.cancelled := [] |}.

Definition scheduled : Scheduler.Scheduled :=
  {| Scheduler.loop := Fixtures.finishedLoop;
     Scheduler.animationFrameId := None |}.

End FrameFixtures.

(** ** What a replay can compare

    The part of a game state that does not record a clock reading: all of
    it but [raceStartTime], [lapStartTime] and the [timeMs] of the laps. *)
Module Replay.

Definition lapNumbers (timing : TimingState) : list Z * Z :=
  (map Game.lapNumber (Game.lapTimes timing), Game.currentLap timing).

Definition gameplay (s : GameState)
  : Game.GameStatus * CarState * Track.Track * LapProgress * (list Z * Z)
    * Z * Z :=
  (Game.status s, Game.car s, Game.track s, Game.lapProgress s,
   lapNumbers (Game.timing s), Game.totalLaps s, Game.tick s).

End Replay.

(** ** The clock ahead

    [later env k] is what the [k]-th call of [performance.now()] from now
    on returns, counting from 0. *)
Module Clock.

Definition later (env : Scheduler.Env) (k : nat) : R :=
  Host.readings (Scheduler.world env) (k + Host.cursor (Scheduler.world env)).

(** The frame ids [stop] has to cancel. *)
Definition pending (this : Scheduler.Scheduled) : list nat :=
  match Scheduler.animationFrameId this with
  | Some id => [id]
  | None => []
  end.

End Clock.

(** ** core/input/keyboard-input.ts

    The object is its key state, the restart callback it was given and
    whether its two listeners are registered on the window.  A handler
    returns the object it leaves, whether it called [e.preventDefault()],
    and the callback it called, if any. *)
Module Keyboard.
#[local] Open Scope string_scope.

Record KeyState : Type := {
  up : bool;
  down : bool;
  left : bool;
  right : bool
}.

(** [keyof KeyState] *)
Inductive Key : Type := Up | Down | Left | Right.

Record KeyboardInput (C : Type) : Type := {
  keys : KeyState;
  onRestartCallback : option C;
  listening : bool
}.
Arguments keys {C} _.
Arguments onRestartCallback {C} _.
Arguments listening {C} _.

(** A callback is a closure of the host program ([() => void]); [call] is
    what calling it does to the keyboard object it was registered with,
    which the closure may reach. *)
Class Callback (C : Type) : Type :=
  call : C -> KeyboardInput C -> KeyboardInput C.

(** What a handler leaves: the object after it has run (the callback
    included), whether it called [e.preventDefault()], and the callback
    it called. *)
Record Handled (C : Type) : Type := {
  after : KeyboardInput C;
  defaultPrevented : bool;
  called : option C
}.
Arguments after {C} _.
Arguments defaultPrevented {C} _.
Arguments called {C} _.

Inductive KeyEvent : Type :=
  | KeyDown (code : string)
  | KeyUp (code : string).

Definition released : KeyState :=
  {| up := false; down := false; left := false; right := false |}.

(** [new KeyboardInput()] *)
Definition create {C : Type} : KeyboardInput C :=
  {| keys := released; onRestartCallback := None; listening := false |}.

Definition setOnRestart {C : Type} (this : KeyboardInput C) (callback : C)
  : KeyboardInput C :=
  {| keys := keys this; onRestartCallback := Some callback;
     listening := listening this |}.

Definition getInput {C : Type} (this : KeyboardInput C) : InputCommand :=
  let throttle := if up (keys this) then 1%R else 0%R in
  let brake := if down (keys this) then 1%R else 0%R in
  let steering := 0%R in
  let steering := if left (keys this) then (steering - 1)%R else steering in
  let steering := if right (keys this) then (steering + 1)%R else steering in
  {| Input.throttle := throttle; Input.brake := brake;
     Input.steering := steering |}.

Definition mapKey (code : string) : option Key :=
  if String.eqb code "KeyW" || String.eqb code "ArrowUp" then Some Up
  else if String.eqb code "KeyS" || String.eqb code "ArrowDown" then Some Down
  else if String.eqb code "KeyA" || String.eqb code "ArrowLeft" then Some Left
  else if String.eqb code "KeyD" || String.eqb code "ArrowRight"
  then Some Right
  else None.

(** [{ ...this.keys, [key]: value }] *)
Definition set_key (state : KeyState) (key : Key) (value : bool) : KeyState :=
  match key with
  | Up => {| up := value; down := down state; left := left state;
             right := right state |}
  | Down => {| up := up state; down := value; left := left state;
               right := right state |}
  | Left => {| up := up state; down := down state; left := value;
               right := right state |}
  | Right => {| up := up state; down := down state; left := left state;
                right := value |}
  end.

Definition get_key (state : KeyState) (key : Key) : bool :=
  match key with
  | Up => up state
  | Down => down state
  | Left => left state
  | Right => right state
  end.

Definition with_keys {C : Type} (this : KeyboardInput C) (state : KeyState)
  : KeyboardInput C :=
  {| keys := state; onRestartCallback := onRestartCallback this;
     listening := listening this |}.

Definition onKeyDown {C : Type} `{Callback C} (this : KeyboardInput C)
  (code : string) : Handled C :=
  if String.eqb code "KeyR" then
    (* this.onRestartCallback?.() *)
    {| after :=
         match onRestartCallback this with
         | Some callback => call callback this
         | None => this
         end;
       defaultPrevented := true;
       called := onRestartCallback this |}
  else
    match mapKey code with
    | Some key =>
        {| after := with_keys this (set_key (keys this) key true);
           defaultPrevented := true; called := None |}
    | None => {| after := this; defaultPrevented := false; called := None |}
    end.

Definition onKeyUp {C : Type} (this : KeyboardInput C) (code : string)
  : Handled C :=
  match mapKey code with
  | Some key =>
      {| after := with_keys this (set_key (keys this) key false);
         defaultPrevented := true; called := None |}
  | None => {| after := this; defaultPrevented := false; called := None |}
  end.

Definition resetKeys {C : Type} (this : KeyboardInput C) : KeyboardInput C :=
  with_keys this released.

Definition start {C : Type} (this : KeyboardInput C) : KeyboardInput C :=
  {| keys := keys this; onRestartCallback := onRestartCallback this;
     listening := true |}.

Definition stop {C : Type} (this : KeyboardInput C) : KeyboardInput C :=
  resetKeys
    {| keys := keys this; onRestartCallback := onRestartCallback this;
       listening := false |}.

(** The window delivers an event to the handler registered for it, when
    the listeners are registered. *)
Definition deliver {C : Type} `{Callback C} (this : KeyboardInput C)
  (event : KeyEvent) : Handled C :=
  if listening this then
    match event with
    | KeyDown code => onKeyDown this code
    | KeyUp code => onKeyUp this code
    end
  else {| after := this; defaultPrevented := false; called := None |}.

(** The object after a sequence of events, each handler running on the
    object the one before left, and the callbacks called on the way, in
    order. *)
Definition deliverAll {C : Type} `{Callback C} (this : KeyboardInput C)
  (events : list KeyEvent) : KeyboardInput C * list C :=
  fold_left
    (fun run event =>
       let handled := deliver (fst run) event in
       (after handled,
        (snd run ++ match called handled with
                    | Some callback => [callback]
                    | None => []
                    end)%list))
    events (this, []).

(** The events that concern a key, and what the last of them leaves. *)
Definition concerns (key : Key) (event : KeyEvent) : bool :=
  match event with
  | KeyDown code | KeyUp code =>
      match mapKey code with
      | Some key' =>
          match key, key' with
          | Up, Up | Down, Down | Left, Left | Right, Right => true
          | _, _ => false
          end
      | None => false
      end
  end.

Definition is_down (event : KeyEvent) : bool :=
  match event with KeyDown _ => true | KeyUp _ => false end.

(** A press of the restart key. *)
Definition is_restart (event : KeyEvent) : bool :=
  match event with
  | KeyDown code => String.eqb code "KeyR"
  | KeyUp _ => false
  end.

Definition registered {C : Type} (this : KeyboardInput C) : bool :=
  match onRestartCallback this with Some _ => true | None => false end.

(** The events that can change whether a key is held: those on the key
    itself, and the presses of the restart key once a callback is
    registered. *)
Definition relevant {C : Type} (this : KeyboardInput C) (key : Key)
  (event : KeyEvent) : bool :=
  concerns key event || (is_restart event && registered this).

End Keyboard.

(** ** main.ts: the keyboard as the program wires it

    [inputSource.setOnRestart(() => gameLoop.restart())] registers the one
    callback of the program.  The game loop holds the same keyboard as its
    input source: [restart()] calls [stop()], which calls
    [this.inputSource.stop()], and then [start()], which finds the loop
    stopped and calls [this.inputSource.start()]. *)
Module Main.

Inductive RestartCallback : Type := restartGameLoop.

#[global] Instance restart_call : Keyboard.Callback RestartCallback :=
  fun _ keyboard => Keyboard.start (Keyboard.stop keyboard).

(** The keyboard once [main] has run: created, given the callback, and
    started by [gameLoop.start()]. *)
Definition inputSource : Keyboard.KeyboardInput RestartCallback :=
  Keyboard.start (Keyboard.setOnRestart Keyboard.create restartGameLoop).

End Main.

(** ** core/track/track-loader.ts, the oval boundary *)
Module TrackLoader.

(** The point pushed by iteration [i] of the first loop. *)
Definition ovalPoint (centerX centerY radiusX radiusY : R)
  (segments i : nat) : Vec2 :=
  let angle := INR i / INR segments * PI * 2 in
  vec2 (centerX + cos angle * radiusX) (centerY + sin angle * radiusY).

Definition createOvalBoundary (centerX centerY radiusX radiusY : R)
  (segments : nat) : list LineSegment :=
  let points :=
    map (ovalPoint centerX centerY radiusX radiusY segments)
        (seq 0 segments) in
  map (fun i =>
         let start := Collision.at_index points i in
         let end_ := Collision.at_index points ((i + 1) mod segments) in
         Track.createLineSegment (vec2 (Vec.x start) (Vec.y start))
           (vec2 (Vec.x end_) (Vec.y end_)))
      (seq 0 segments).

End TrackLoader.

(** * Properties *)

(** Case analysis on the comparisons a definition makes. *)
Ltac split_cases :=
  repeat first
    [ case_decide
    | match goal with
      | |- context [Rmin ?a ?b] => unfold Rmin at 1; destruct (Rle_dec a b)
      | |- context [Rmax ?a ?b] => unfold Rmax at 1; destruct (Rle_dec a b)
      | |- context [Rabs ?a] => unfold Rabs at 1; destruct (Rcase_abs a)
      end ].

(** The results of one crossing, projected. *)
Ltac cross_simpl :=
  unfold Outcome.ignored;
  cbn [LapTracker.Cross.progress LapTracker.Cross.timing
       LapTracker.Cross.raceFinished].

(** Reduction of record projections only: number literals stay as written. *)
Ltac proj_simpl :=
  cbn [Vec.x Vec.y Track.start Track.end_ Track.segment Track.index
       Car.position Car.rotation Car.velocity Car.angularVelocity
       Car.position_opt Car.rotation_opt Car.velocity_opt
       Car.angularVelocity_opt default from_option
       Input.throttle Input.brake Input.steering] in *.

Section InputProperties.

Lemma clamp_between (lo hi v : R) :
  lo <= hi -> lo <= Rmax lo (Rmin hi v) <= hi.
Proof. intros Hle. split_cases; lra. Qed.

Lemma clamp_cases (lo hi v : R) :
  lo <= hi ->
  (lo <= v <= hi -> Rmax lo (Rmin hi v) = v)
  /\ (v < lo -> Rmax lo (Rmin hi v) = lo)
  /\ (hi < v -> Rmax lo (Rmin hi v) = hi).
Proof.
  intros Hle. unfold Rmax, Rmin.
  destruct (Rle_dec hi v), (Rle_dec lo _); repeat split; intros; lra.
Qed.

Lemma clamp_idempotent (lo hi v : R) :
  lo <= hi ->
  Rmax lo (Rmin hi (Rmax lo (Rmin hi v))) = Rmax lo (Rmin hi v).
Proof.
  intros Hle. apply clamp_cases; [exact Hle |]. now apply clamp_between.
Qed.

(** C10: whatever reals the caller passes, the command built by
    [createInputCommand] has throttle and brake in [0,1] and steering in
    [-1,1], and each of them is the argument clamped: the argument itself
    when it is in the range, the lower bound when it is below, the upper
    bound when it is above.  A command that is in range is thus rebuilt
    unchanged. *)
Theorem createInputCommand_in_range (throttle brake steering : R) :
  let cmd := Input.createInputCommand throttle brake steering in
  (0 <= Input.throttle cmd <= 1
   /\ 0 <= Input.brake cmd <= 1
   /\ -1 <= Input.steering cmd <= 1)
  /\ ((0 <= throttle <= 1 -> Input.throttle cmd = throttle)
      /\ (throttle < 0 -> Input.throttle cmd = 0)
      /\ (1 < throttle -> Input.throttle cmd = 1))
  /\ ((0 <= brake <= 1 -> Input.brake cmd = brake)
      /\ (brake < 0 -> Input.brake cmd = 0)
      /\ (1 < brake -> Input.brake cmd = 1))
  /\ ((-1 <= steering <= 1 -> Input.steering cmd = steering)
      /\ (steering < -1 -> Input.steering cmd = -1)
      /\ (1 < steering -> Input.steering cmd = 1))
  /\ Input.createInputCommand (Input.throttle cmd) (Input.brake cmd)
       (Input.steering cmd) = cmd.
Proof.
  cbv zeta. unfold Input.createInputCommand.
  cbn [Input.throttle Input.brake Input.steering].
  split; [split; [| split]; apply clamp_between; lra |].
  split; [apply clamp_cases; lra |].
  split; [apply clamp_cases; lra |].
  split; [apply clamp_cases; lra |].
  f_equal; apply clamp_idempotent; lra.
Qed.

Lemma createInputCommand_in_range_witness :
  (0 <= 1 / 2 <= 1
   /\ Input.throttle (Input.createInputCommand (1 / 2) 7 (-42)) = 1 / 2)
  /\ (1 < 7 /\ Input.brake (Input.createInputCommand (1 / 2) 7 (-42)) = 1)
  /\ (-42 < -1
      /\ Input.steering (Input.createInputCommand (1 / 2) 7 (-42)) = -1).
Proof.
  pose proof (createInputCommand_in_range (1 / 2) 7 (-42))
    as (_ & (Hkept & _ & _) & (_ & _ & Habove) & (_ & Hbelow & _) & _).
  split; [split; [lra | apply Hkept; lra] |].
  split; [split; [lra | apply Habove; lra] |].
  split; [lra | apply Hbelow; lra].
Defined.

Example createInputCommand_out_of_range :
  Input.createInputCommand 7 (-3) (-42)
  = {| Input.throttle := 1; Input.brake := 0; Input.steering := -1 |}.
Proof.
  unfold Input.createInputCommand. f_equal; split_cases; lra.
Qed.

End InputProperties.

Section CollisionProperties.

Lemma lineSegmentIntersection_unfold (seg1 seg2 : LineSegment) :
  Collision.lineSegmentIntersection seg1 seg2 =
  if decide (Rabs (Collision.rxs seg1 seg2) < 1e-10) then None
  else if decide (Collision.param_t seg1 seg2 >= 0
                  /\ Collision.param_t seg1 seg2 <= 1
                  /\ Collision.param_u seg1 seg2 >= 0
                  /\ Collision.param_u seg1 seg2 <= 1)
       then Some (Collision.point_at seg1 (Collision.param_t seg1 seg2))
       else None.
Proof. reflexivity. Qed.

(** Swapping the segments negates the denominator and exchanges the two
    parameters. *)
Lemma rxs_swap (seg1 seg2 : LineSegment) :
  Collision.rxs seg2 seg1 = - Collision.rxs seg1 seg2.
Proof. unfold Collision.rxs, Vec.cross. ring. Qed.

Lemma param_t_swap (seg1 seg2 : LineSegment) :
  Collision.rxs seg1 seg2 <> 0 ->
  Collision.param_t seg2 seg1 = Collision.param_u seg1 seg2.
Proof.
  intros Hne. unfold Collision.param_t, Collision.param_u.
  rewrite (rxs_swap seg1 seg2).
  unfold Collision.numerator_t, Collision.numerator_u, Vec.cross,
    Vec.subtract; proj_simpl. field. exact Hne.
Qed.

Lemma param_u_swap (seg1 seg2 : LineSegment) :
  Collision.rxs seg1 seg2 <> 0 ->
  Collision.param_u seg2 seg1 = Collision.param_t seg1 seg2.
Proof.
  intros Hne. unfold Collision.param_t, Collision.param_u.
  rewrite (rxs_swap seg1 seg2).
  unfold Collision.numerator_t, Collision.numerator_u, Vec.cross,
    Vec.subtract; proj_simpl. field. exact Hne.
Qed.

(** The two parameters solve the line-line equation: the point of the first
    segment at [t] is the point of the second at [u]. *)
Lemma point_at_params (seg1 seg2 : LineSegment) :
  Collision.rxs seg1 seg2 <> 0 ->
  Collision.point_at seg1 (Collision.param_t seg1 seg2)
  = Collision.point_at seg2 (Collision.param_u seg1 seg2).
Proof.
  intros Hne.
  unfold Collision.point_at, Collision.param_t, Collision.param_u,
    Collision.numerator_t, Collision.numerator_u.
  unfold Collision.rxs in *.
  destruct seg1 as [[px py] [ex ey]], seg2 as [[qx qy] [fx fy]].
  unfold Collision.direction, Vec.cross, Vec.subtract in *; proj_simpl.
  f_equal; field; exact Hne.
Qed.

Lemma not_parallel_nonzero (seg1 seg2 : LineSegment) :
  ~ Rabs (Collision.rxs seg1 seg2) < 1e-10 -> Collision.rxs seg1 seg2 <> 0.
Proof.
  intros Hn Hz. apply Hn. rewrite Hz, Rabs_R0. lra.
Qed.

(** C6: [lineSegmentIntersection] returns a point exactly when the cross
    product of the two directions has magnitude at least 1e-10 and both
    line parameters lie in [0,1], end points included; below 1e-10 it
    returns none whatever the segments are, overlapping collinear ones
    too; the point returned is [seg1.start + t * (seg1.end - seg1.start)]. *)
Theorem lineSegmentIntersection_spec (seg1 seg2 : LineSegment) :
  let t := Collision.param_t seg1 seg2 in
  let u := Collision.param_u seg1 seg2 in
  (is_Some (Collision.lineSegmentIntersection seg1 seg2)
   <-> Rabs (Collision.rxs seg1 seg2) >= 1e-10
       /\ 0 <= t <= 1 /\ 0 <= u <= 1)
  /\ (Rabs (Collision.rxs seg1 seg2) < 1e-10 ->
      Collision.lineSegmentIntersection seg1 seg2 = None)
  /\ (forall point,
      Collision.lineSegmentIntersection seg1 seg2 = Some point ->
      point = vec2 (Vec.x (Track.start seg1)
                    + t * (Vec.x (Track.end_ seg1) - Vec.x (Track.start seg1)))
                   (Vec.y (Track.start seg1)
                    + t * (Vec.y (Track.end_ seg1) - Vec.y (Track.start seg1)))).
Proof.
  intros t u. rewrite lineSegmentIntersection_unfold. fold t u.
  split; [split | split].
  - intros [pt Hpt]. repeat case_decide; try discriminate. lra.
  - intros (Hbig & Ht & Hu). repeat case_decide; try lra; eauto.
  - intros Hsmall. case_decide; [reflexivity | lra].
  - intros point Hpt. repeat case_decide; try discriminate.
    injection Hpt as <-. reflexivity.
Qed.

(** Collinear overlapping segments: the cross product is 0, below the
    threshold, and no intersection is reported. *)
Lemma collinear_rxs_small :
  Rabs (Collision.rxs
          {| Track.start := vec2 0 0; Track.end_ := vec2 10 0 |}
          {| Track.start := vec2 5 0; Track.end_ := vec2 15 0 |}) < 1e-10.
Proof.
  unfold Collision.rxs, Collision.direction, Vec.cross, Vec.subtract;
    proj_simpl.
  split_cases; lra.
Qed.

Lemma lineSegmentIntersection_spec_witness :
  Rabs (Collision.rxs
          {| Track.start := vec2 0 0; Track.end_ := vec2 10 0 |}
          {| Track.start := vec2 5 0; Track.end_ := vec2 15 0 |}) < 1e-10
  /\ Collision.lineSegmentIntersection
       {| Track.start := vec2 0 0; Track.end_ := vec2 10 0 |}
       {| Track.start := vec2 5 0; Track.end_ := vec2 15 0 |}
     = None.
Proof.
  split; [exact collinear_rxs_small |].
  apply (lineSegmentIntersection_spec
           {| Track.start := vec2 0 0; Track.end_ := vec2 10 0 |}
           {| Track.start := vec2 5 0; Track.end_ := vec2 15 0 |}).
  exact collinear_rxs_small.
Defined.


(** C7: the intersection of A with B and of B with A agree: both are none
    or both are points, and then the same point (arithmetic is exact). *)
Theorem lineSegmentIntersection_symmetric (A B : LineSegment) :
  match Collision.lineSegmentIntersection A B,
        Collision.lineSegmentIntersection B A with
  | Some p1, Some p2 => p1 = p2
  | None, None => True
  | _, _ => False
  end.
Proof.
  rewrite !lineSegmentIntersection_unfold.
  rewrite (rxs_swap A B), Rabs_Ropp.
  case_decide as Hpar; [exact I |].
  pose proof (not_parallel_nonzero _ _ Hpar) as Hne.
  rewrite (param_t_swap A B Hne), (param_u_swap A B Hne).
  repeat case_decide; try lra.
  exact (point_at_params A B Hne).
Qed.

End CollisionProperties.

Section PhysicsProperties.
Import PhysicsEngine.

Variable config : PhysicsConfig.

Lemma length_nonneg (v : Vec2) : 0 <= Vec.length v.
Proof. apply sqrt_pos. Qed.

Lemma getCarSpeed_is_length (car : CarState) :
  Car.getCarSpeed car = Vec.length (Car.velocity car).
Proof. reflexivity. Qed.

(** No slip: a velocity along the heading has the speed as its magnitude. *)
Lemma length_scale_fromAngle (angle speed : R) :
  Vec.length (Vec.scale (Vec.fromAngle angle) speed) = Rabs speed.
Proof.
  unfold Vec.length, Vec.scale, Vec.fromAngle; proj_simpl.
  replace (cos angle * speed * (cos angle * speed)
           + sin angle * speed * (sin angle * speed))
    with (Rsqr speed * (Rsqr (sin angle) + Rsqr (cos angle)))
    by (unfold Rsqr; ring).
  rewrite sin2_cos2, Rmult_1_r. apply sqrt_Rsqr_abs.
Qed.

Lemma clampSpeed_range (speed : R) :
  - maxReverseSpeed config <= maxSpeed config ->
  - maxReverseSpeed config
  <= SimplePhysics.clampSpeed speed (maxSpeed config) (maxReverseSpeed config)
  <= maxSpeed config.
Proof. intros Hcfg. unfold SimplePhysics.clampSpeed. split_cases; lra. Qed.

Lemma updateSpeed_range (currentSpeed throttle brake deltaTime : R) :
  - maxReverseSpeed config <= maxSpeed config ->
  - maxReverseSpeed config
  <= SimplePhysics.updateSpeed config currentSpeed throttle brake deltaTime
  <= maxSpeed config.
Proof. intros Hcfg. unfold SimplePhysics.updateSpeed. now apply clampSpeed_range. Qed.

(** What [update] returns, field by field. *)
Lemma update_velocity (car : CarState) (input : InputCommand) (dt : R) :
  let car' := SimplePhysics.update config car input dt in
  Car.velocity car'
  = Vec.scale (Vec.fromAngle (Car.rotation car'))
      (SimplePhysics.updateSpeed config
         (SimplePhysics.getSignedSpeed car (Vec.fromAngle (Car.rotation car)))
         (Input.throttle input) (Input.brake input) dt).
Proof. reflexivity. Qed.

Lemma update_position (car : CarState) (input : InputCommand) (dt : R) :
  let car' := SimplePhysics.update config car input dt in
  Car.position car'
  = Vec.add (Car.position car) (Vec.scale (Car.velocity car') dt).
Proof. reflexivity. Qed.

Lemma getSignedSpeed_magnitude (car : CarState) (forward : Vec2) :
  Rabs (SimplePhysics.getSignedSpeed car forward)
  <= Vec.length (Car.velocity car).
Proof.
  unfold SimplePhysics.getSignedSpeed. rewrite getCarSpeed_is_length.
  pose proof (length_nonneg (Car.velocity car)) as Hpos.
  split_cases; lra.
Qed.

Lemma within_bound (speed : R) :
  - maxReverseSpeed config <= speed <= maxSpeed config ->
  Rabs speed <= Rmax (maxSpeed config) (maxReverseSpeed config).
Proof. intros Hrange. split_cases; lra. Qed.

(** The bound holds for the state one [update] produces. *)
Lemma update_bounded (car : CarState) (input : InputCommand) (dt : R) :
  - maxReverseSpeed config <= maxSpeed config ->
  let car' := SimplePhysics.update config car input dt in
  Vec.length (Car.velocity car')
  <= Rmax (maxSpeed config) (maxReverseSpeed config).
Proof.
  intros Hcfg car'. unfold car'.
  rewrite update_velocity, length_scale_fromAngle.
  apply within_bound. now apply updateSpeed_range.
Qed.

(** C5: with the reverse limit below the forward limit
    ([-maxReverseSpeed <= maxSpeed], as for any two non-negative limits),
    the speed [update] integrates is clamped into
    [-maxReverseSpeed, maxSpeed] before the velocity is rebuilt from it, the
    magnitude of the velocity of the state produced is at most
    [max(maxSpeed, maxReverseSpeed)], and along any sequence of inputs every
    state produced keeps its velocity magnitude and its signed speed within
    that bound. *)
Theorem update_speed_bound (car : CarState) (input : InputCommand) (dt : R) :
  - maxReverseSpeed config <= maxSpeed config ->
  let bound := Rmax (maxSpeed config) (maxReverseSpeed config) in
  let car' := SimplePhysics.update config car input dt in
  let newSpeed :=
    SimplePhysics.updateSpeed config
      (SimplePhysics.getSignedSpeed car (Vec.fromAngle (Car.rotation car)))
      (Input.throttle input) (Input.brake input) dt in
  (- maxReverseSpeed config <= newSpeed <= maxSpeed config
   /\ Car.velocity car'
      = Vec.scale (Vec.fromAngle (Car.rotation car')) newSpeed)
  /\ Vec.length (Car.velocity car') <= bound
  /\ forall inputs : list InputCommand,
       Forall
         (fun c : CarState =>
            Vec.length (Car.velocity c) <= bound
            /\ Rabs (SimplePhysics.getSignedSpeed c
                       (Vec.fromAngle (Car.rotation c))) <= bound)
         (Script.trajectory (SimplePhysics.SimplePhysicsEngine config) dt
            car inputs).
Proof.
  intros Hcfg bound car' newSpeed.
  split; [split | split].
  - now apply updateSpeed_range.
  - apply update_velocity.
  - now apply update_bounded.
  - intros inputs. clear car' newSpeed. revert car.
    induction inputs as [| i inputs IH]; intros car; cbn [Script.trajectory].
    + constructor.
    + constructor; [| apply IH].
      pose proof (update_bounded car i dt Hcfg) as Hlen.
      cbn [PhysicsEngine.update SimplePhysics.SimplePhysicsEngine].
      split; [exact Hlen |].
      eapply Rle_trans; [apply getSignedSpeed_magnitude | exact Hlen].
Qed.

End PhysicsProperties.

Section SignedSpeed.

Lemma sqrt_of_square (a b : R) : 0 <= a -> b = a * a -> sqrt b = a.
Proof. intros Ha ->. now apply sqrt_square. Qed.

Lemma creepingCar_speed : Car.getCarSpeed Fixtures.creepingCar = 0.0005.
Proof.
  unfold Car.getCarSpeed, Fixtures.creepingCar; proj_simpl.
  apply sqrt_of_square; lra.
Qed.

Lemma reversingCar_speed : Car.getCarSpeed Fixtures.reversingCar = 5.
Proof.
  unfold Car.getCarSpeed, Fixtures.reversingCar; proj_simpl.
  apply sqrt_of_square; lra.
Qed.

(** The velocity of the creeping car is aligned with its heading, its
    magnitude is 0.0005, and its signed speed is 0: below 0.001 the guard
    of [getSignedSpeed] returns 0, not the magnitude. *)
Lemma getSignedSpeed_dead_zone :
  Vec.dot (Car.velocity Fixtures.creepingCar)
          (Vec.fromAngle (Car.rotation Fixtures.creepingCar)) >= 0
  /\ Vec.length (Car.velocity Fixtures.creepingCar) = 0.0005
  /\ SimplePhysics.getSignedSpeed Fixtures.creepingCar
       (Vec.fromAngle (Car.rotation Fixtures.creepingCar)) = 0
  /\ SimplePhysics.getSignedSpeed Fixtures.creepingCar
       (Vec.fromAngle (Car.rotation Fixtures.creepingCar))
     <> Vec.length (Car.velocity Fixtures.creepingCar).
Proof.
  assert (Hsigned :
    SimplePhysics.getSignedSpeed Fixtures.creepingCar
      (Vec.fromAngle (Car.rotation Fixtures.creepingCar)) = 0).
  { unfold SimplePhysics.getSignedSpeed. rewrite creepingCar_speed.
    case_decide; [reflexivity | lra]. }
  rewrite Hsigned, <- getCarSpeed_is_length, creepingCar_speed.
  repeat split; try lra.
  unfold Vec.dot, Vec.fromAngle, Fixtures.creepingCar; proj_simpl.
  rewrite cos_0, sin_0. lra.
Qed.

(** C9, amended: the signed speed is 0 when the velocity magnitude is below
    0.001; from 0.001 on it is the magnitude when the velocity is aligned
    with the forward vector (dot product >= 0) and the negated magnitude
    when it is anti-aligned (dot product < 0). *)
Theorem getSignedSpeed_spec (car : CarState) :
  let forward := Vec.fromAngle (Car.rotation car) in
  let magnitude := Vec.length (Car.velocity car) in
  let signed := SimplePhysics.getSignedSpeed car forward in
  (magnitude < 0.001 -> signed = 0)
  /\ (0.001 <= magnitude -> Vec.dot (Car.velocity car) forward >= 0 ->
      signed = magnitude)
  /\ (0.001 <= magnitude -> Vec.dot (Car.velocity car) forward < 0 ->
      signed = - magnitude).
Proof.
  cbv zeta. unfold SimplePhysics.getSignedSpeed.
  rewrite getCarSpeed_is_length.
  repeat split; intros; repeat case_decide; lra.
Qed.

Lemma getSignedSpeed_spec_witness :
  SimplePhysics.getSignedSpeed Fixtures.reversingCar
    (Vec.fromAngle (Car.rotation Fixtures.reversingCar)) = -5.
Proof.
  destruct (getSignedSpeed_spec Fixtures.reversingCar) as (_ & _ & Hrev).
  rewrite <- getCarSpeed_is_length, reversingCar_speed in Hrev.
  apply Hrev.
  - lra.
  - unfold Vec.dot, Vec.fromAngle, Fixtures.reversingCar; proj_simpl.
    rewrite cos_0, sin_0. lra.
Defined.

End SignedSpeed.

Section PhysicsRuns.

Lemma testConfig_limits :
  - PhysicsEngine.maxReverseSpeed Fixtures.testConfig
  <= PhysicsEngine.maxSpeed Fixtures.testConfig.
Proof. unfold Fixtures.testConfig; cbn [PhysicsEngine.maxReverseSpeed PhysicsEngine.maxSpeed]. lra. Qed.

Lemma defaultConfig_limits :
  - PhysicsEngine.maxReverseSpeed SimplePhysics.createDefaultPhysicsConfig
  <= PhysicsEngine.maxSpeed SimplePhysics.createDefaultPhysicsConfig.
Proof.
  unfold SimplePhysics.createDefaultPhysicsConfig, Config.MAX_SPEED,
    Config.MAX_REVERSE_SPEED;
    cbn [PhysicsEngine.maxReverseSpeed PhysicsEngine.maxSpeed]. lra.
Qed.

Lemma update_speed_bound_witness :
  - PhysicsEngine.maxReverseSpeed Fixtures.testConfig
  <= PhysicsEngine.maxSpeed Fixtures.testConfig
  /\ Vec.length
       (Car.velocity
          (SimplePhysics.update Fixtures.testConfig Fixtures.startCar
             Fixtures.fullThrottle Fixtures.dt))
     <= Rmax 100 50.
Proof.
  split; [exact testConfig_limits |].
  apply (update_speed_bound Fixtures.testConfig Fixtures.startCar
           Fixtures.fullThrottle Fixtures.dt testConfig_limits).
Defined.

(** The length of a trajectory is the number of inputs: one state a tick. *)
Lemma trajectory_length (engine : PhysicsEngine.PhysicsEngine) (dt : R)
  (inputs : list InputCommand) :
  forall car, List.length (Script.trajectory engine dt car inputs)
              = List.length inputs.
Proof.
  induction inputs as [| i inputs IH]; intros car; cbn; [| rewrite IH];
    reflexivity.
Qed.

End PhysicsRuns.

Section LapTrackerProperties.
#[local] Open Scope Z_scope.

Lemma allOthersPassed_iff (passed : gset Z) (totalCheckpoints : Z) :
  forallb (fun i => bool_decide (i ∈ passed))
          (LapTracker.otherCheckpoints totalCheckpoints) = true
  <-> forall i, 1 <= i < totalCheckpoints -> i ∈ passed.
Proof.
  unfold LapTracker.otherCheckpoints. rewrite forallb_forall. split.
  - intros Hall i Hi. specialize (Hall i).
    rewrite bool_decide_eq_true in Hall. apply Hall.
    apply list_elem_of_In, elem_of_seqZ. lia.
  - intros Hall i Hin. apply bool_decide_eq_true, Hall.
    apply list_elem_of_In, elem_of_seqZ in Hin. lia.
Qed.

(** Crossing the start/finish line with every other checkpoint passed. *)
Lemma processCheckpointCross_completes
  (progress : LapProgress) (timing : TimingState) (checkpoint : Checkpoint)
  (totalCheckpoints totalLaps : Z) (w : World) :
  Track.index checkpoint = 0 ->
  (forall i, 1 <= i < totalCheckpoints ->
             i ∈ Game.checkpointsPassed progress) ->
  LapTracker.processCheckpointCross progress timing checkpoint
    totalCheckpoints totalLaps w
  = ({| LapTracker.Cross.progress := Game.createLapProgress;
        LapTracker.Cross.timing := Outcome.lapCompleted timing (Host.reading w);
        LapTracker.Cross.raceFinished :=
          bool_decide (Game.currentLap timing >= totalLaps) |},
     Host.after_reading w).
Proof.
  intros Hzero Hall. unfold LapTracker.processCheckpointCross.
  rewrite decide_True by exact Hzero.
  apply allOthersPassed_iff in Hall. rewrite Hall.
  unfold Host.bind, Host.performance_now, Host.ret.
  destruct (decide (Game.currentLap timing >= totalLaps)) as [Hge | Hlt];
    [rewrite bool_decide_eq_true_2 by exact Hge
    | rewrite bool_decide_eq_false_2 by exact Hlt]; reflexivity.
Qed.

(** Crossing the start/finish line with a checkpoint still to pass. *)
Lemma processCheckpointCross_start_ignored
  (progress : LapProgress) (timing : TimingState) (checkpoint : Checkpoint)
  (totalCheckpoints totalLaps i : Z) (w : World) :
  Track.index checkpoint = 0 ->
  1 <= i < totalCheckpoints ->
  i ∉ Game.checkpointsPassed progress ->
  LapTracker.processCheckpointCross progress timing checkpoint
    totalCheckpoints totalLaps w
  = (Outcome.ignored progress timing, w).
Proof.
  intros Hzero Hi Hnot. unfold LapTracker.processCheckpointCross.
  rewrite decide_True by exact Hzero.
  destruct (forallb _ _) eqn:Hall; [| reflexivity].
  exfalso. apply Hnot. rewrite allOthersPassed_iff in Hall. now apply Hall.
Qed.

Lemma processCheckpointCross_passed
  (progress : LapProgress) (timing : TimingState) (checkpoint : Checkpoint)
  (totalCheckpoints totalLaps : Z) (w : World) :
  Track.index checkpoint <> 0 ->
  Track.index checkpoint ∈ Game.checkpointsPassed progress ->
  LapTracker.processCheckpointCross progress timing checkpoint
    totalCheckpoints totalLaps w
  = (Outcome.ignored progress timing, w).
Proof.
  intros Hnz Hin. unfold LapTracker.processCheckpointCross.
  rewrite decide_False by exact Hnz.
  rewrite bool_decide_eq_true_2 by exact Hin. reflexivity.
Qed.

Lemma processCheckpointCross_out_of_order
  (progress : LapProgress) (timing : TimingState) (checkpoint : Checkpoint)
  (totalCheckpoints totalLaps : Z) (w : World) :
  Track.index checkpoint <> 0 ->
  Some (Track.index checkpoint)
  <> LapTracker.expectedNext progress totalCheckpoints ->
  LapTracker.processCheckpointCross progress timing checkpoint
    totalCheckpoints totalLaps w
  = (Outcome.ignored progress timing, w).
Proof.
  intros Hnz Hne. unfold LapTracker.processCheckpointCross.
  rewrite decide_False by exact Hnz.
  destruct (bool_decide _); [reflexivity |].
  rewrite decide_True by exact Hne. reflexivity.
Qed.

Lemma processCheckpointCross_next
  (progress : LapProgress) (timing : TimingState) (checkpoint : Checkpoint)
  (totalCheckpoints totalLaps : Z) (w : World) :
  Track.index checkpoint <> 0 ->
  Track.index checkpoint ∉ Game.checkpointsPassed progress ->
  Some (Track.index checkpoint)
  = LapTracker.expectedNext progress totalCheckpoints ->
  LapTracker.processCheckpointCross progress timing checkpoint
    totalCheckpoints totalLaps w
  = ({| LapTracker.Cross.progress :=
          {| Game.lastCheckpointIndex := Track.index checkpoint;
             Game.checkpointsPassed :=
               {[ Track.index checkpoint ]} ∪ Game.checkpointsPassed progress |};
        LapTracker.Cross.timing := timing;
        LapTracker.Cross.raceFinished := false |},
     w).
Proof.
  intros Hnz Hnot Hnext. unfold LapTracker.processCheckpointCross.
  rewrite decide_False by exact Hnz.
  rewrite bool_decide_eq_false_2 by exact Hnot.
  rewrite decide_False by (intros Hne; now apply Hne). reflexivity.
Qed.

(** For a last index that is not negative and a positive number of
    checkpoints, [%] is the mathematical modulo. *)
Lemma expectedNext_modulo (progress : LapProgress) (totalCheckpoints : Z) :
  0 <= Game.lastCheckpointIndex progress ->
  0 < totalCheckpoints ->
  LapTracker.expectedNext progress totalCheckpoints
  = Some ((Game.lastCheckpointIndex progress + 1) mod totalCheckpoints).
Proof.
  intros Hlast HN. unfold LapTracker.expectedNext.
  rewrite decide_False by lia. f_equal. apply Z.rem_mod_nonneg; lia.
Qed.

(** The checkpoint after the next one is never the expected one. *)
Lemma skip_is_not_expected (progress : LapProgress) (totalCheckpoints : Z) :
  Game.lastCheckpointIndex progress + 2 <> 0 ->
  Some (Game.lastCheckpointIndex progress + 2)
  <> LapTracker.expectedNext progress totalCheckpoints.
Proof.
  intros Hnz. unfold LapTracker.expectedNext.
  case_decide as HN; [discriminate |].
  intros [= Heq].
  pose proof (Z.quot_rem' (Game.lastCheckpointIndex progress + 1)
                totalCheckpoints) as Hdiv.
  pose proof (Z.rem_bound_abs (Game.lastCheckpointIndex progress + 1)
                totalCheckpoints HN) as Habs.
  revert Heq Hdiv Habs.
  generalize (Z.rem (Game.lastCheckpointIndex progress + 1) totalCheckpoints).
  generalize (Z.quot (Game.lastCheckpointIndex progress + 1) totalCheckpoints).
  intros q r Heq Hdiv Habs.
  assert (Hprod : totalCheckpoints * q = -1) by lia.
  assert (Hunit : totalCheckpoints = 1 \/ totalCheckpoints = -1)
    by (apply (Z.mul_eq_1 totalCheckpoints (- q)); lia).
  destruct Hunit as [-> | ->]; lia.
Qed.

End LapTrackerProperties.

Section Crossings.

Lemma div_unit_interval (n d : R) :
  0 < d -> (n / d >= 0 /\ n / d <= 1 <-> 0 <= n <= d).
Proof.
  intros Hd. assert (Hmul : n / d * d = n) by (field; lra).
  generalize dependent (n / d). intros k Hk. split; intros; nra.
Qed.

(** With a positive denominator the test on [t] and [u] is a test on the
    numerators: no division is needed to decide a crossing. *)
Lemma intersection_by_numerators (seg1 seg2 : LineSegment) :
  1e-10 <= Collision.rxs seg1 seg2 ->
  (is_Some (Collision.lineSegmentIntersection seg1 seg2)
   <-> 0 <= Collision.numerator_t seg1 seg2 <= Collision.rxs seg1 seg2
       /\ 0 <= Collision.numerator_u seg1 seg2 <= Collision.rxs seg1 seg2).
Proof.
  intros Hbig. rewrite lineSegmentIntersection_unfold.
  assert (Hpos : 0 < Collision.rxs seg1 seg2) by lra.
  pose proof (div_unit_interval (Collision.numerator_t seg1 seg2) _ Hpos) as Ht.
  pose proof (div_unit_interval (Collision.numerator_u seg1 seg2) _ Hpos) as Hu.
  fold (Collision.param_t seg1 seg2) in Ht.
  fold (Collision.param_u seg1 seg2) in Hu.
  case_decide as Hpar.
  - exfalso. revert Hpar. unfold Rabs. destruct (Rcase_abs _); lra.
  - case_decide as Hin; split.
    + intros _. tauto.
    + intros _. eauto.
    + intros [pt Hpt]. discriminate.
    + intros Hnum. exfalso. apply Hin. tauto.
Qed.

Lemma crossesCheckpoint_true (oldPos newPos : Vec2) (checkpoint : Checkpoint) :
  LapTracker.crossesCheckpoint oldPos newPos checkpoint = true
  <-> is_Some (Collision.lineSegmentIntersection
                 {| Track.start := oldPos; Track.end_ := newPos |}
                 (Track.segment checkpoint)).
Proof.
  unfold LapTracker.crossesCheckpoint. rewrite bool_decide_eq_true.
  rewrite <- not_eq_None_Some. reflexivity.
Qed.

Lemma crossesCheckpoint_false (oldPos newPos : Vec2) (checkpoint : Checkpoint) :
  LapTracker.crossesCheckpoint oldPos newPos checkpoint = false
  <-> ~ is_Some (Collision.lineSegmentIntersection
                   {| Track.start := oldPos; Track.end_ := newPos |}
                   (Track.segment checkpoint)).
Proof.
  rewrite <- crossesCheckpoint_true. destruct (LapTracker.crossesCheckpoint _ _ _);
    split; congruence.
Qed.

(** Unfolding of the geometry of a concrete move against a concrete line. *)
Ltac crossing_numbers :=
  unfold Collision.numerator_t, Collision.numerator_u, Collision.rxs,
    Collision.direction, Vec.cross, Vec.subtract,
    Fixtures.sweepFrom, Fixtures.sweepTo, Fixtures.finishFrom,
    Fixtures.finishTo, Fixtures.startFinish, Fixtures.checkpoint1,
    Fixtures.checkpoint2 in *;
  proj_simpl.

Lemma sweep_crosses_startFinish :
  LapTracker.crossesCheckpoint Fixtures.sweepFrom Fixtures.sweepTo
    Fixtures.startFinish = true.
Proof.
  apply crossesCheckpoint_true, intersection_by_numerators;
    crossing_numbers; lra.
Qed.

Lemma sweep_crosses_checkpoint1 :
  LapTracker.crossesCheckpoint Fixtures.sweepFrom Fixtures.sweepTo
    Fixtures.checkpoint1 = true.
Proof.
  apply crossesCheckpoint_true, intersection_by_numerators;
    crossing_numbers; lra.
Qed.

Lemma sweep_misses_checkpoint2 :
  LapTracker.crossesCheckpoint Fixtures.sweepFrom Fixtures.sweepTo
    Fixtures.checkpoint2 = false.
Proof.
  apply crossesCheckpoint_false. rewrite intersection_by_numerators;
    crossing_numbers; lra.
Qed.

Lemma finish_crosses_startFinish :
  LapTracker.crossesCheckpoint Fixtures.finishFrom Fixtures.finishTo
    Fixtures.startFinish = true.
Proof.
  apply crossesCheckpoint_true, intersection_by_numerators;
    crossing_numbers; lra.
Qed.

Lemma finish_misses_checkpoint1 :
  LapTracker.crossesCheckpoint Fixtures.finishFrom Fixtures.finishTo
    Fixtures.checkpoint1 = false.
Proof.
  apply crossesCheckpoint_false. rewrite intersection_by_numerators;
    crossing_numbers; lra.
Qed.

Lemma finish_misses_checkpoint2 :
  LapTracker.crossesCheckpoint Fixtures.finishFrom Fixtures.finishTo
    Fixtures.checkpoint2 = false.
Proof.
  apply crossesCheckpoint_false. rewrite intersection_by_numerators;
    crossing_numbers; lra.
Qed.

End Crossings.

Section LapUpdates.
#[local] Open Scope Z_scope.

(** One iteration of the loop of [updateLapProgress]. *)
Lemma loop_crossed (checkpoint : Checkpoint) (toVisit checkpoints : list Checkpoint)
  (oldPos newPos : Vec2) (totalLaps : Z) (progress : LapProgress)
  (timing : TimingState) (raceFinished : bool) (w : World) :
  LapTracker.crossesCheckpoint oldPos newPos checkpoint = true ->
  LapTracker.updateLapProgress_loop (checkpoint :: toVisit) checkpoints
    oldPos newPos totalLaps progress timing raceFinished w
  = let (result, w') :=
      LapTracker.processCheckpointCross progress timing checkpoint
        (Z.of_nat (List.length checkpoints)) totalLaps w in
    LapTracker.updateLapProgress_loop toVisit checkpoints oldPos newPos
      totalLaps (LapTracker.Cross.progress result)
      (LapTracker.Cross.timing result)
      (LapTracker.Cross.raceFinished result) w'.
Proof. intros Hcross. cbn [LapTracker.updateLapProgress_loop]. rewrite Hcross. reflexivity. Qed.

Lemma loop_missed (checkpoint : Checkpoint) (toVisit checkpoints : list Checkpoint)
  (oldPos newPos : Vec2) (totalLaps : Z) (progress : LapProgress)
  (timing : TimingState) (raceFinished : bool) (w : World) :
  LapTracker.crossesCheckpoint oldPos newPos checkpoint = false ->
  LapTracker.updateLapProgress_loop (checkpoint :: toVisit) checkpoints
    oldPos newPos totalLaps progress timing raceFinished w
  = LapTracker.updateLapProgress_loop toVisit checkpoints oldPos newPos
      totalLaps progress timing raceFinished w.
Proof. intros Hmiss. cbn [LapTracker.updateLapProgress_loop]. rewrite Hmiss. reflexivity. Qed.

(** Checkpoints that are not crossed leave everything as it is. *)
Lemma loop_none_crossed (toVisit checkpoints : list Checkpoint)
  (oldPos newPos : Vec2) (totalLaps : Z) (progress : LapProgress)
  (timing : TimingState) (raceFinished : bool) (w : World) :
  (forall c, c ∈ toVisit -> LapTracker.crossesCheckpoint oldPos newPos c = false) ->
  LapTracker.updateLapProgress_loop toVisit checkpoints oldPos newPos
    totalLaps progress timing raceFinished w
  = ({| LapTracker.lapProgress := progress;
        LapTracker.timing := timing;
        LapTracker.raceFinished := raceFinished |}, w).
Proof.
  induction toVisit as [| c toVisit IH]; intros Hnone; [reflexivity |].
  rewrite loop_missed by (apply Hnone; left).
  apply IH. intros c' Hc'. apply Hnone. now right.
Qed.

(** C2: a crossing of a checkpoint other than the start/finish line changes
    nothing (progress, timing, clock) when the checkpoint is already in the
    passed set, and nothing when it is not the one expected next,
    [(lastCheckpointIndex + 1) % totalCheckpoints]; so the checkpoint two
    after the last one passed is never taken.  Otherwise the crossing adds
    the index to the passed set and makes it the last index, and the timing
    is the one given. *)
Theorem processCheckpointCross_nonzero
  (progress : LapProgress) (timing : TimingState) (checkpoint : Checkpoint)
  (totalCheckpoints totalLaps : Z) (w : World) :
  Track.index checkpoint <> 0 ->
  let i := Track.index checkpoint in
  let last := Game.lastCheckpointIndex progress in
  let run :=
    LapTracker.processCheckpointCross progress timing checkpoint
      totalCheckpoints totalLaps w in
  (i ∈ Game.checkpointsPassed progress ->
   run = (Outcome.ignored progress timing, w))
  /\ (i <> Z.rem (last + 1) totalCheckpoints ->
      run = (Outcome.ignored progress timing, w))
  /\ (i = last + 2 ->
      run = (Outcome.ignored progress timing, w)
      /\ Game.lastCheckpointIndex (LapTracker.Cross.progress (fst run)) = last)
  /\ (i ∉ Game.checkpointsPassed progress ->
      totalCheckpoints <> 0 ->
      i = Z.rem (last + 1) totalCheckpoints ->
      run = ({| LapTracker.Cross.progress :=
                  {| Game.lastCheckpointIndex := i;
                     Game.checkpointsPassed :=
                       {[ i ]} ∪ Game.checkpointsPassed progress |};
                LapTracker.Cross.timing := timing;
                LapTracker.Cross.raceFinished := false |}, w)).
Proof.
  intros Hnz i last run. unfold run, i, last.
  assert (Hskip : Track.index checkpoint
                  = Game.lastCheckpointIndex progress + 2 ->
                  LapTracker.processCheckpointCross progress timing checkpoint
                    totalCheckpoints totalLaps w
                  = (Outcome.ignored progress timing, w)).
  { intros Heq. apply processCheckpointCross_out_of_order; [exact Hnz |].
    rewrite Heq. apply skip_is_not_expected. now rewrite <- Heq. }
  split; [| split; [| split]].
  - intros Hin. now apply processCheckpointCross_passed.
  - intros Hne. apply processCheckpointCross_out_of_order; [exact Hnz |].
    unfold LapTracker.expectedNext. case_decide; congruence.
  - intros Heq. split; [now apply Hskip |].
    rewrite (Hskip Heq). reflexivity.
  - intros Hnot HN Heq. apply processCheckpointCross_next; try assumption.
    unfold LapTracker.expectedNext. rewrite decide_False by exact HN.
    now f_equal.
Qed.

(** The test 'ignores checkpoint if crossed out of order': from the start,
    checkpoint 2 is two after the last one passed. *)
Lemma processCheckpointCross_nonzero_witness :
  Track.index Fixtures.checkpoint2 <> 0
  /\ LapTracker.processCheckpointCross Fixtures.initialProgress
       Fixtures.initialTiming Fixtures.checkpoint2 3 3
       (Fixtures.mockWorld 0)
     = (Outcome.ignored Fixtures.initialProgress Fixtures.initialTiming,
        Fixtures.mockWorld 0).
Proof.
  assert (Hnz : Track.index Fixtures.checkpoint2 <> 0) by (cbn; lia).
  split; [exact Hnz |].
  apply (processCheckpointCross_nonzero Fixtures.initialProgress
           Fixtures.initialTiming Fixtures.checkpoint2 3 3
           (Fixtures.mockWorld 0) Hnz).
  reflexivity.
Defined.

End LapUpdates.

Section LapCompletion.
#[local] Open Scope Z_scope.

Lemma allPassed_of_three :
  forall i, 1 <= i < 3 ->
            i ∈ Game.checkpointsPassed Fixtures.progressAllPassed.
Proof.
  intros i Hi. assert (Hcases : i = 1 \/ i = 2) by lia.
  unfold Fixtures.progressAllPassed; cbn [Game.checkpointsPassed].
  destruct Hcases as [-> | ->]; set_solver.
Qed.

(** What [updateLapProgress] returns on the last lap when the move sweeps
    over the start/finish line and checkpoint 1 in the same tick: the lap
    is recorded, then checkpoint 1 is taken and its result overwrites
    [raceFinished]. *)
Lemma sweep_final_lap :
  LapTracker.updateLapProgress Fixtures.progressAllPassed
    Fixtures.timingLastLap Fixtures.checkpoints
    Fixtures.sweepFrom Fixtures.sweepTo 3 (Fixtures.mockWorld 5000)
  = ({| LapTracker.lapProgress :=
          {| Game.lastCheckpointIndex := 1;
             Game.checkpointsPassed := {[ 1 ]} ∪ {[ 0 ]} |};
        LapTracker.timing :=
          Outcome.lapCompleted Fixtures.timingLastLap 5000;
        LapTracker.raceFinished := false |},
     Host.after_reading (Fixtures.mockWorld 5000)).
Proof.
  unfold LapTracker.updateLapProgress, Fixtures.checkpoints.
  rewrite loop_crossed by exact sweep_crosses_startFinish.
  rewrite processCheckpointCross_completes
    by (first [reflexivity | exact allPassed_of_three]).
  cbn [LapTracker.Cross.progress LapTracker.Cross.timing
       LapTracker.Cross.raceFinished].
  rewrite loop_crossed by exact sweep_crosses_checkpoint1.
  rewrite processCheckpointCross_next;
    [| cbn; lia | cbn; set_solver | reflexivity].
  cbn [LapTracker.Cross.progress LapTracker.Cross.timing
       LapTracker.Cross.raceFinished].
  rewrite loop_missed by exact sweep_misses_checkpoint2.
  reflexivity.
Qed.

(** The move crosses the line of checkpoint 0 and every other checkpoint is
    in the passed set, the current lap is the last one, and yet the
    progress returned is not [{lastCheckpointIndex: 0, passed: {0}}] and
    [raceFinished] is false. *)
Lemma updateLapProgress_sweep_counterexample :
  LapTracker.crossesCheckpoint Fixtures.sweepFrom Fixtures.sweepTo
    Fixtures.startFinish = true
  /\ (forall i, 1 <= i < Z.of_nat (List.length Fixtures.checkpoints) ->
                i ∈ Game.checkpointsPassed Fixtures.progressAllPassed)
  /\ Game.currentLap Fixtures.timingLastLap >= 3
  /\ LapTracker.lapProgress
       (fst (LapTracker.updateLapProgress Fixtures.progressAllPassed
               Fixtures.timingLastLap Fixtures.checkpoints
               Fixtures.sweepFrom Fixtures.sweepTo 3
               (Fixtures.mockWorld 5000)))
     <> {| Game.lastCheckpointIndex := 0;
           Game.checkpointsPassed := {[ 0 ]} |}
  /\ LapTracker.raceFinished
       (fst (LapTracker.updateLapProgress Fixtures.progressAllPassed
               Fixtures.timingLastLap Fixtures.checkpoints
               Fixtures.sweepFrom Fixtures.sweepTo 3
               (Fixtures.mockWorld 5000)))
     = false.
Proof.
  rewrite sweep_final_lap. cbn [fst LapTracker.lapProgress LapTracker.raceFinished].
  split; [exact sweep_crosses_startFinish |].
  split; [exact allPassed_of_three |].
  split; [cbn; lia |].
  split; [| reflexivity].
  intros Heq. apply (f_equal Game.lastCheckpointIndex) in Heq.
  cbn in Heq. lia.
Qed.

(** The lap needs no more checkpoints exactly when none is missing. *)
Lemma missing_elem (totalCheckpoints : Z) (progress : LapProgress) (i : Z) :
  i ∈ Outcome.missing totalCheckpoints progress
  <-> 1 <= i < totalCheckpoints /\ i ∉ Game.checkpointsPassed progress.
Proof.
  unfold Outcome.missing, LapTracker.otherCheckpoints.
  rewrite elem_of_difference, elem_of_list_to_set, elem_of_seqZ. intuition lia.
Qed.

(** After a reset every other checkpoint is missing. *)
Lemma missing_after_reset (totalCheckpoints : Z) :
  size (Outcome.missing totalCheckpoints Game.createLapProgress)
  = Z.to_nat (totalCheckpoints - 1).
Proof.
  unfold Outcome.missing, LapTracker.otherCheckpoints, Game.createLapProgress;
    cbn [Game.checkpointsPassed].
  rewrite <- (length_seqZ 1 (totalCheckpoints - 1)).
  rewrite <- (size_list_to_set (C := gset Z)) by apply NoDup_seqZ.
  f_equal. apply set_eq. intros i.
  rewrite elem_of_difference, elem_of_list_to_set, elem_of_seqZ,
    elem_of_singleton. intuition lia.
Qed.

(** While a checkpoint is missing, the start/finish line is ignored. *)
Lemma processCheckpointCross_start_blocked
  (progress : LapProgress) (timing : TimingState) (checkpoint : Checkpoint)
  (totalCheckpoints totalLaps : Z) (w : World) :
  Track.index checkpoint = 0 ->
  (0 < size (Outcome.missing totalCheckpoints progress))%nat ->
  LapTracker.processCheckpointCross progress timing checkpoint
    totalCheckpoints totalLaps w
  = (Outcome.ignored progress timing, w).
Proof.
  intros Hzero Hsize. apply size_pos_elem_of in Hsize as [i Hi].
  apply missing_elem in Hi as [Hrange Hnot].
  now apply (processCheckpointCross_start_ignored _ _ _ _ _ i).
Qed.

(** Any other checkpoint leaves the timing and the clock alone, keeps what
    was passed, and takes at most one checkpoint off the missing ones. *)
Lemma processCheckpointCross_other
  (progress : LapProgress) (timing : TimingState) (checkpoint : Checkpoint)
  (totalCheckpoints totalLaps : Z) (w : World) :
  Track.index checkpoint <> 0 ->
  exists progress' : LapProgress,
    LapTracker.processCheckpointCross progress timing checkpoint
      totalCheckpoints totalLaps w
    = (Outcome.ignored progress' timing, w)
    /\ Game.checkpointsPassed progress ⊆ Game.checkpointsPassed progress'
    /\ (size (Outcome.missing totalCheckpoints progress)
        <= size (Outcome.missing totalCheckpoints progress') + 1)%nat.
Proof.
  intros Hnz.
  destruct (decide (Track.index checkpoint ∈ Game.checkpointsPassed progress))
    as [Hin | Hnot].
  { exists progress. rewrite processCheckpointCross_passed by assumption.
    split; [reflexivity |]. split; [set_solver | lia]. }
  destruct (decide (Some (Track.index checkpoint)
                    = LapTracker.expectedNext progress totalCheckpoints))
    as [Hnext | Hother].
  - eexists. rewrite processCheckpointCross_next by assumption.
    split; [reflexivity |]. cbn [Game.checkpointsPassed].
    split; [set_solver |].
    set (taken := {| Game.lastCheckpointIndex := Track.index checkpoint;
                     Game.checkpointsPassed :=
                       {[Track.index checkpoint]}
                       ∪ Game.checkpointsPassed progress |}).
    assert (Hsub : Outcome.missing totalCheckpoints progress
                   ⊆ Outcome.missing totalCheckpoints taken
                     ∪ {[Track.index checkpoint]}).
    { intros i Hi. apply missing_elem in Hi as [Hrange Hi].
      destruct (decide (i = Track.index checkpoint)) as [Heq | Hne].
      - apply elem_of_union_r, elem_of_singleton, Heq.
      - apply elem_of_union_l, missing_elem. split; [exact Hrange |].
        unfold taken; cbn [Game.checkpointsPassed].
        rewrite elem_of_union, elem_of_singleton. tauto. }
    apply subseteq_size in Hsub.
    rewrite size_union_alt in Hsub.
    assert (Hone : (size (({[Track.index checkpoint]} : gset Z)
                          ∖ Outcome.missing totalCheckpoints taken) <= 1)%nat).
    { rewrite <- (size_singleton (C := gset Z) (Track.index checkpoint)).
      apply subseteq_size. intros i Hi.
      now apply elem_of_difference in Hi as [Hi _]. }
    lia.
  - exists progress. rewrite processCheckpointCross_out_of_order by assumption.
    split; [reflexivity |]. split; [set_solver | lia].
Qed.

(** With at least as many checkpoints missing as there are left to visit,
    the rest of the loop completes no lap: the timing and the clock stay. *)
Lemma loop_no_completion (checkpoints : list Checkpoint)
  (oldPos newPos : Vec2) (totalLaps : Z) (timing : TimingState) (w : World) :
  forall (toVisit : list Checkpoint) (progress : LapProgress)
         (raceFinished : bool),
    (List.length toVisit
     <= size (Outcome.missing (Z.of_nat (List.length checkpoints)) progress))%nat ->
    exists (progress' : LapProgress) (raceFinished' : bool),
      LapTracker.updateLapProgress_loop toVisit checkpoints oldPos newPos
        totalLaps progress timing raceFinished w
      = ({| LapTracker.lapProgress := progress';
            LapTracker.timing := timing;
            LapTracker.raceFinished := raceFinished' |}, w).
Proof.
  induction toVisit as [| c toVisit IH]; intros progress raceFinished Hsize.
  - now exists progress, raceFinished.
  - cbn [List.length] in Hsize.
    destruct (LapTracker.crossesCheckpoint oldPos newPos c) eqn:Hcross.
    + rewrite loop_crossed by exact Hcross.
      destruct (decide (Track.index c = 0)) as [Hzero | Hnz].
      * rewrite processCheckpointCross_start_blocked by (assumption || lia).
        cross_simpl. apply IH. lia.
      * destruct (processCheckpointCross_other progress timing c
                    (Z.of_nat (List.length checkpoints)) totalLaps w Hnz)
          as (progress' & -> & _ & Hless).
        cross_simpl. apply IH. lia.
    + rewrite loop_missed by exact Hcross. apply IH. lia.
Qed.

(** Before the start/finish line is reached in the list, the crossings
    leave the timing and the clock alone and keep what was passed. *)
Lemma loop_before_start (rest checkpoints : list Checkpoint)
  (oldPos newPos : Vec2) (totalLaps : Z) (timing : TimingState) (w : World) :
  forall (before : list Checkpoint) (progress : LapProgress)
         (raceFinished : bool),
    (forall c, c ∈ before ->
               LapTracker.crossesCheckpoint oldPos newPos c = true ->
               Track.index c <> 0) ->
    exists (progress' : LapProgress) (raceFinished' : bool),
      LapTracker.updateLapProgress_loop (before ++ rest) checkpoints
        oldPos newPos totalLaps progress timing raceFinished w
      = LapTracker.updateLapProgress_loop rest checkpoints oldPos newPos
          totalLaps progress' timing raceFinished' w
      /\ Game.checkpointsPassed progress ⊆ Game.checkpointsPassed progress'.
Proof.
  induction before as [| c before IH]; intros progress raceFinished Hbefore.
  - now exists progress, raceFinished.
  - assert (Htail : forall c', c' ∈ before ->
              LapTracker.crossesCheckpoint oldPos newPos c' = true ->
              Track.index c' <> 0)
      by (intros c' Hc'; apply Hbefore; now right).
    cbn [app].
    destruct (LapTracker.crossesCheckpoint oldPos newPos c) eqn:Hcross.
    + rewrite loop_crossed by exact Hcross.
      assert (Hnz : Track.index c <> 0) by (apply Hbefore; [left | exact Hcross]).
      destruct (processCheckpointCross_other progress timing c
                  (Z.of_nat (List.length checkpoints)) totalLaps w Hnz)
        as (progress1 & -> & Hsub & _).
      cross_simpl.
      destruct (IH progress1 false Htail) as (progress' & f' & Hloop & Hsub').
      exists progress', f'. split; [exact Hloop | set_solver].
    + rewrite loop_missed by exact Hcross. now apply IH.
Qed.

(** C1, amended: when every checkpoint 1..N-1 is in the passed set and the
    move crosses the line of checkpoint 0, [updateLapProgress] reads the
    clock once, appends the one record
    [{lapNumber = currentLap, timeMs = now - lapStartTime}] to the lap
    times, adds 1 to [currentLap], sets [lapStartTime] to [now] and keeps
    [raceStartTime], whatever else the move crosses.  When the move crosses
    no checkpoint listed after checkpoint 0, the progress returned is
    [{lastCheckpointIndex: 0, passed: {0}}] and [raceFinished] is true
    exactly when the lap just completed was at least [totalLaps].
    (Checkpoint 0 is the first crossed checkpoint of index 0 in the
    list.) *)
Theorem updateLapProgress_completes_lap
  (progress : LapProgress) (timing : TimingState)
  (before after : list Checkpoint) (startFinish : Checkpoint)
  (oldPos newPos : Vec2) (totalLaps : Z) (w : World) :
  let checkpoints := before ++ startFinish :: after in
  let now := Host.reading w in
  let run :=
    LapTracker.updateLapProgress progress timing checkpoints oldPos newPos
      totalLaps w in
  Track.index startFinish = 0 ->
  LapTracker.crossesCheckpoint oldPos newPos startFinish = true ->
  (forall c, c ∈ before ->
             LapTracker.crossesCheckpoint oldPos newPos c = true ->
             Track.index c <> 0) ->
  (forall i, 1 <= i < Z.of_nat (List.length checkpoints) ->
             i ∈ Game.checkpointsPassed progress) ->
  (Game.lapTimes (LapTracker.timing (fst run))
   = Game.lapTimes timing
     ++ [ {| Game.lapNumber := Game.currentLap timing;
             Game.timeMs := (now - Game.lapStartTime timing)%R |} ]
   /\ Game.currentLap (LapTracker.timing (fst run))
      = Game.currentLap timing + 1
   /\ Game.lapStartTime (LapTracker.timing (fst run)) = now
   /\ Game.raceStartTime (LapTracker.timing (fst run))
      = Game.raceStartTime timing
   /\ snd run = Host.after_reading w)
  /\ ((forall c, c ∈ after ->
                 LapTracker.crossesCheckpoint oldPos newPos c = false) ->
      LapTracker.lapProgress (fst run)
      = {| Game.lastCheckpointIndex := 0; Game.checkpointsPassed := {[ 0 ]} |}
      /\ (LapTracker.raceFinished (fst run) = true
          <-> Game.currentLap timing >= totalLaps)).
Proof.
  intros checkpoints now run Hzero Hcross Hbefore Hall.
  destruct (loop_before_start (startFinish :: after) checkpoints oldPos newPos
              totalLaps timing w before progress false Hbefore)
    as (progress1 & f1 & Hprefix & Hsub).
  assert (Hall1 : forall i, 1 <= i < Z.of_nat (List.length checkpoints) ->
                            i ∈ Game.checkpointsPassed progress1)
    by (intros i Hi; apply Hsub, Hall, Hi).
  assert (Hstep :
    run = LapTracker.updateLapProgress_loop after checkpoints oldPos newPos
            totalLaps Game.createLapProgress
            (Outcome.lapCompleted timing now)
            (bool_decide (Game.currentLap timing >= totalLaps))
            (Host.after_reading w)).
  { unfold run, LapTracker.updateLapProgress. unfold checkpoints at 1.
    rewrite Hprefix, loop_crossed by exact Hcross.
    rewrite processCheckpointCross_completes by assumption. reflexivity. }
  split.
  - destruct (loop_no_completion checkpoints oldPos newPos totalLaps
                (Outcome.lapCompleted timing now) (Host.after_reading w)
                after Game.createLapProgress
                (bool_decide (Game.currentLap timing >= totalLaps)))
      as (progress2 & f2 & Hrest).
    { rewrite missing_after_reset. unfold checkpoints.
      rewrite length_app. cbn [List.length]. lia. }
    rewrite Hstep, Hrest. cbn [fst snd LapTracker.timing].
    repeat split.
  - intros Hafter. rewrite Hstep, loop_none_crossed by exact Hafter.
    cbn [fst LapTracker.lapProgress LapTracker.raceFinished].
    split; [reflexivity | apply bool_decide_eq_true].
Qed.

(** The test 'signals race finished on final lap completion'. *)
Lemma updateLapProgress_completes_lap_witness :
  LapTracker.raceFinished
    (fst (LapTracker.updateLapProgress Fixtures.progressAllPassed
            Fixtures.timingLastLap
            ([] ++ Fixtures.startFinish
                :: [Fixtures.checkpoint1; Fixtures.checkpoint2])
            Fixtures.finishFrom Fixtures.finishTo 3
            (Fixtures.mockWorld 5000)))
  = true.
Proof.
  apply (updateLapProgress_completes_lap Fixtures.progressAllPassed
           Fixtures.timingLastLap [] [Fixtures.checkpoint1; Fixtures.checkpoint2]
           Fixtures.startFinish Fixtures.finishFrom Fixtures.finishTo 3
           (Fixtures.mockWorld 5000)).
  - reflexivity.
  - exact finish_crosses_startFinish.
  - intros c Hc. inversion Hc.
  - exact allPassed_of_three.
  - intros c Hc.
    apply elem_of_cons in Hc as [-> | Hc];
      [exact finish_misses_checkpoint1 |].
    apply elem_of_cons in Hc as [-> | Hc];
      [exact finish_misses_checkpoint2 |].
    inversion Hc.
  - cbn. lia.
Defined.

End LapCompletion.

Section GameLoopProperties.

(** Stepping a loop that is not racing: the early [return this.state]. *)
Lemma step_idle (loop : GameLoop.GameLoop) (input : InputCommand) (w : World) :
  Game.status (GameLoop.state loop) <> Game.racing ->
  GameLoop.step loop input w = ((GameLoop.state loop, loop), w).
Proof.
  intros Hidle. unfold GameLoop.step.
  rewrite decide_True by exact Hidle. reflexivity.
Qed.

Lemma stepAll_idle (loop : GameLoop.GameLoop) (inputs : list InputCommand)
  (w : World) :
  Game.status (GameLoop.state loop) <> Game.racing ->
  Script.stepAll loop inputs w
  = ((replicate (List.length inputs) (GameLoop.state loop), loop), w).
Proof.
  intros Hidle. induction inputs as [| input inputs IH]; [reflexivity |].
  cbn [Script.stepAll]. unfold Host.bind.
  rewrite step_idle by exact Hidle. cbn [fst snd].
  rewrite IH. reflexivity.
Qed.

(** A racing step advances the tick: stepping is not a no-op in general. *)
Lemma step_racing_ticks (loop : GameLoop.GameLoop) (input : InputCommand)
  (w : World) :
  Game.status (GameLoop.state loop) = Game.racing ->
  Game.tick (fst (fst (GameLoop.step loop input w)))
  = (Game.tick (GameLoop.state loop) + 1)%Z.
Proof.
  intros Hracing. unfold GameLoop.step.
  rewrite decide_False by (rewrite Hracing; intros Hne; now apply Hne).
  unfold Host.bind.
  destruct (LapTracker.updateLapProgress _ _ _ _ _ _ w) as [r w1].
  cbn [GameLoop.set_state GameLoop.state GameLoop.onStateChange].
  destruct (GameLoop.notify _ _ w1) as [u w2]. reflexivity.
Qed.

(** C3: when the status is not 'racing' (countdown or finished), [step]
    returns the state it was given, whatever the input: every field of the
    state is the same, the loop object is not modified, the clock is not
    read and the observer is not notified.  From a finished state any
    number of further steps returns that same state each time. *)
Theorem step_not_racing_unchanged (loop : GameLoop.GameLoop)
  (input : InputCommand) (w : World) :
  Game.status (GameLoop.state loop) <> Game.racing ->
  GameLoop.step loop input w = ((GameLoop.state loop, loop), w)
  /\ (let s' := fst (fst (GameLoop.step loop input w)) in
      let s := GameLoop.state loop in
      Game.car s' = Game.car s
      /\ Game.lapProgress s' = Game.lapProgress s
      /\ Game.timing s' = Game.timing s
      /\ Game.tick s' = Game.tick s
      /\ Game.status s' = Game.status s
      /\ Game.track s' = Game.track s
      /\ Game.totalLaps s' = Game.totalLaps s)
  /\ forall inputs : list InputCommand,
       Script.stepAll loop inputs w
       = ((replicate (List.length inputs) (GameLoop.state loop), loop), w).
Proof.
  intros Hidle. split; [| split].
  - now apply step_idle.
  - rewrite step_idle by exact Hidle. cbn [fst]. repeat split.
  - intros inputs. now apply stepAll_idle.
Qed.

Lemma step_not_racing_unchanged_witness :
  Game.status (GameLoop.state Fixtures.finishedLoop) <> Game.racing
  /\ GameLoop.step Fixtures.finishedLoop Fixtures.fullThrottle
       (Fixtures.mockWorld 5000)
     = ((Fixtures.finishedState, Fixtures.finishedLoop),
        Fixtures.mockWorld 5000).
Proof.
  assert (Hidle : Game.status (GameLoop.state Fixtures.finishedLoop)
                  <> Game.racing) by discriminate.
  split; [exact Hidle |].
  apply (step_not_racing_unchanged Fixtures.finishedLoop
           Fixtures.fullThrottle (Fixtures.mockWorld 5000) Hidle).
Defined.

End GameLoopProperties.

Section RectangleProperties.

(** The edge loop finds an edge exactly when one of the edges it visits
    intersects the line. *)
Lemma rectangleIntersectsLine_loop_true (corners : list Vec2)
  (line : LineSegment) (remaining : nat) :
  forall i : nat,
    Collision.rectangleIntersectsLine_loop corners line remaining i = true
    <-> exists j : nat,
          (i <= j < i + remaining)%nat
          /\ is_Some (Collision.lineSegmentIntersection
                        (Collision.rect_edge corners j) line).
Proof.
  induction remaining as [| remaining IH]; intros i;
    cbn [Collision.rectangleIntersectsLine_loop].
  - split; [discriminate | intros (j & Hj & _); lia].
  - destruct (Collision.lineSegmentIntersection
                (Collision.rect_edge corners i) line) as [pt |] eqn:Hedge.
    + split; [| reflexivity]. intros _. exists i. split; [lia |].
      rewrite Hedge. eauto.
    + rewrite IH. split; intros (j & Hj & Hsome).
      * exists j. split; [lia | exact Hsome].
      * exists j. split; [| exact Hsome].
        destruct (decide (j = i)) as [-> | Hne]; [| lia].
        rewrite Hedge in Hsome. destruct Hsome as [pt Hpt]. discriminate.
Qed.

(** The corners of an unrotated rectangle at the origin. *)
Lemma corners_at_origin (width height : R) :
  Collision.getRotatedRectCorners (vec2 0 0) width height 0
  = [ vec2 (- (width / 2)) (- (height / 2));
      vec2 (width / 2) (- (height / 2));
      vec2 (width / 2) (height / 2);
      vec2 (- (width / 2)) (height / 2) ].
Proof.
  unfold Collision.getRotatedRectCorners. rewrite cos_0, sin_0.
  cbn [map]; proj_simpl. repeat f_equal; ring.
Qed.

Lemma sign_of_positive (c : R) : c > 0 -> Collision.sign_of c = 1%Z.
Proof. intros Hc. unfold Collision.sign_of. now rewrite decide_True. Qed.

Lemma sign_of_not_positive (c : R) : c <= 0 -> Collision.sign_of c = (-1)%Z.
Proof. intros Hc. unfold Collision.sign_of. rewrite decide_False; [reflexivity | lra]. Qed.

(** [pointInPolygon] on four vertices, the loop unrolled. *)
Lemma pointInPolygon_four (point c0 c1 c2 c3 : Vec2) :
  Collision.pointInPolygon point [c0; c1; c2; c3]
  = let side a b :=
      Collision.sign_of
        (Vec.cross (Vec.subtract b a) (Vec.subtract point a)) in
    if decide (side c1 c2 <> side c0 c1) then false
    else if decide (side c2 c3 <> side c0 c1) then false
    else if decide (side c3 c0 <> side c0 c1) then false
    else true.
Proof. reflexivity. Qed.

(** An edge whose cross product with the line is below the threshold is
    never reported. *)
Lemma nearly_parallel_is_none (seg1 seg2 : LineSegment) :
  Rabs (Collision.rxs seg1 seg2) < 1e-10 ->
  Collision.lineSegmentIntersection seg1 seg2 = None.
Proof.
  intros Hsmall. rewrite lineSegmentIntersection_unfold.
  now rewrite decide_True.
Qed.

End RectangleProperties.

Section RectangleAndLine.

Ltac tiny_numbers :=
  unfold Collision.rxs, Collision.direction, Vec.cross, Vec.subtract,
    Fixtures.tinySide, Fixtures.inwards, Fixtures.outwards in *;
  proj_simpl.

(** The edge loop on four corners, unrolled. *)
Lemma edge_loop_four (c0 c1 c2 c3 : Vec2) (line : LineSegment) :
  Collision.rectangleIntersectsLine_loop [c0; c1; c2; c3] line 4 0
  = if Collision.lineSegmentIntersection
         {| Track.start := c0; Track.end_ := c1 |} line is Some _ then true
    else if Collision.lineSegmentIntersection
              {| Track.start := c1; Track.end_ := c2 |} line is Some _ then true
    else if Collision.lineSegmentIntersection
              {| Track.start := c2; Track.end_ := c3 |} line is Some _ then true
    else if Collision.lineSegmentIntersection
              {| Track.start := c3; Track.end_ := c0 |} line is Some _ then true
    else false.
Proof. reflexivity. Qed.

(** No edge of the tiny rectangle is reported against the short segment,
    in either orientation: every cross product is below the threshold. *)
Lemma tiny_edges_inwards :
  Collision.rectangleIntersectsLine_loop
    (Collision.getRotatedRectCorners (vec2 0 0) Fixtures.tinySide
       Fixtures.tinySide 0)
    Fixtures.inwards 4 0
  = false.
Proof.
  rewrite corners_at_origin, edge_loop_four.
  rewrite !nearly_parallel_is_none; [reflexivity | ..];
    tiny_numbers; split_cases; lra.
Qed.

Lemma tiny_start_outside :
  Collision.pointInPolygon (Track.start Fixtures.inwards)
    (Collision.getRotatedRectCorners (vec2 0 0) Fixtures.tinySide
       Fixtures.tinySide 0)
  = false.
Proof.
  rewrite corners_at_origin, pointInPolygon_four. cbv beta zeta.
  rewrite (sign_of_positive
             (Vec.cross (Vec.subtract (vec2 (Fixtures.tinySide / 2) (- (Fixtures.tinySide / 2)))
                                      (vec2 (- (Fixtures.tinySide / 2)) (- (Fixtures.tinySide / 2))))
                        _))
    by (tiny_numbers; lra).
  rewrite (sign_of_not_positive
             (Vec.cross (Vec.subtract (vec2 (Fixtures.tinySide / 2) (Fixtures.tinySide / 2))
                                      (vec2 (Fixtures.tinySide / 2) (- (Fixtures.tinySide / 2))))
                        _))
    by (tiny_numbers; lra).
  reflexivity.
Qed.

Lemma tiny_end_inside :
  Collision.pointInPolygon (Track.end_ Fixtures.inwards)
    (Collision.getRotatedRectCorners (vec2 0 0) Fixtures.tinySide
       Fixtures.tinySide 0)
  = true.
Proof.
  rewrite corners_at_origin, pointInPolygon_four. cbv beta zeta.
  rewrite !sign_of_positive by (tiny_numbers; lra).
  reflexivity.
Qed.

(** C8: [rectangleIntersectsLine] is true exactly when one of the four
    edges (corner i to corner (i + 1) % 4) intersects the segment, as
    [lineSegmentIntersection] decides it, or the start point of the segment
    passes [pointInPolygon] against the corners.  The end point is not
    tested: for the tiny rectangle, the segment that ends at its centre and
    starts outside is not reported, while the same segment reversed is. *)
Theorem rectangleIntersectsLine_spec :
  (forall (center : Vec2) (width height rotation : R) (line : LineSegment),
     let corners :=
       Collision.getRotatedRectCorners center width height rotation in
     Collision.rectangleIntersectsLine center width height rotation line
     = true
     <-> (exists i : nat,
            (i < 4)%nat
            /\ is_Some (Collision.lineSegmentIntersection
                          (Collision.rect_edge corners i) line))
         \/ Collision.pointInPolygon (Track.start line) corners = true)
  /\ (Collision.pointInPolygon (Track.end_ Fixtures.inwards)
        (Collision.getRotatedRectCorners (vec2 0 0) Fixtures.tinySide
           Fixtures.tinySide 0) = true
      /\ Collision.rectangleIntersectsLine (vec2 0 0) Fixtures.tinySide
           Fixtures.tinySide 0 Fixtures.inwards = false
      /\ Collision.rectangleIntersectsLine (vec2 0 0) Fixtures.tinySide
           Fixtures.tinySide 0 Fixtures.outwards = true).
Proof.
  split.
  - intros center width height rotation line corners.
    unfold Collision.rectangleIntersectsLine. fold corners.
    pose proof (rectangleIntersectsLine_loop_true corners line 4 0) as Hloop.
    destruct (Collision.rectangleIntersectsLine_loop corners line 4 0).
    + split; [| reflexivity]. intros _. left.
      destruct Hloop as [Hloop _]. destruct (Hloop eq_refl) as (j & Hj & Hsome).
      exists j. split; [lia | exact Hsome].
    + destruct (Collision.pointInPolygon (Track.start line) corners).
      * split; [intros _; now right | reflexivity].
      * split; [discriminate |]. intros [(j & Hj & Hsome) | Hin];
          [| discriminate].
        destruct Hloop as [_ Hloop]. apply Hloop. exists j. split; [lia | exact Hsome].
  - split; [exact tiny_end_inside |]. split.
    + unfold Collision.rectangleIntersectsLine.
      rewrite tiny_edges_inwards, tiny_start_outside. reflexivity.
    + unfold Collision.rectangleIntersectsLine.
      destruct (Collision.rectangleIntersectsLine_loop _ _ _ _);
        [reflexivity |].
      change (Track.start Fixtures.outwards) with (Track.end_ Fixtures.inwards).
      rewrite tiny_end_inside. reflexivity.
Qed.

End RectangleAndLine.

(** * Scenarios of the test suite *)
Section Scenarios.

Lemma startCar_speed : Car.getCarSpeed Fixtures.startCar = 0.
Proof.
  unfold Car.getCarSpeed, Fixtures.startCar, Car.createCarState,
    Vec.VEC2_ZERO; proj_simpl.
  apply sqrt_of_square; lra.
Qed.

Lemma startCar_signed_speed :
  SimplePhysics.getSignedSpeed Fixtures.startCar
    (Vec.fromAngle (Car.rotation Fixtures.startCar)) = 0.
Proof.
  unfold SimplePhysics.getSignedSpeed. rewrite startCar_speed.
  rewrite decide_True by lra. reflexivity.
Qed.

Lemma throttle_released (speed deltaTime acceleration : R) :
  SimplePhysics.calculateThrottleEffect speed 0 deltaTime acceleration = speed.
Proof.
  unfold SimplePhysics.calculateThrottleEffect.
  rewrite decide_True by lra. reflexivity.
Qed.

Lemma brake_released (speed deltaTime brakeAcceleration minSteeringSpeed : R) :
  SimplePhysics.calculateBrakeEffect speed 0 deltaTime brakeAcceleration
    minSteeringSpeed = speed.
Proof.
  unfold SimplePhysics.calculateBrakeEffect.
  rewrite decide_True by lra. reflexivity.
Qed.

(** Friction snaps a speed smaller than one friction step to exactly 0. *)
Lemma friction_snaps_to_zero (speed deltaTime friction : R) :
  Rabs speed < friction * deltaTime ->
  SimplePhysics.calculateFrictionEffect speed 0 0 deltaTime friction = 0.
Proof.
  intros Hsmall. unfold SimplePhysics.calculateFrictionEffect.
  rewrite decide_False by (intros [H | H]; now apply H).
  cbv zeta. rewrite decide_True by exact Hsmall. reflexivity.
Qed.

Lemma clampSpeed_within (speed maxSpeed maxReverseSpeed : R) :
  - maxReverseSpeed <= speed <= maxSpeed ->
  SimplePhysics.clampSpeed speed maxSpeed maxReverseSpeed = speed.
Proof. intros Hrange. unfold SimplePhysics.clampSpeed. split_cases; lra. Qed.

(** 'stays stationary with no input' *)
Example stationary_stays :
  SimplePhysics.update Fixtures.testConfig Fixtures.startCar
    Input.INPUT_NONE Fixtures.dt
  = Fixtures.startCar.
Proof.
  unfold SimplePhysics.update. rewrite startCar_signed_speed.
  assert (Hspeed :
    SimplePhysics.updateSpeed Fixtures.testConfig 0
      (Input.throttle Input.INPUT_NONE) (Input.brake Input.INPUT_NONE)
      Fixtures.dt = 0).
  { unfold SimplePhysics.updateSpeed, Input.INPUT_NONE; proj_simpl.
    rewrite throttle_released, brake_released.
    rewrite friction_snaps_to_zero
      by (rewrite Rabs_R0; unfold Fixtures.testConfig, Fixtures.dt;
          cbn [PhysicsEngine.friction]; lra).
    apply clampSpeed_within.
    unfold Fixtures.testConfig;
      cbn [PhysicsEngine.maxSpeed PhysicsEngine.maxReverseSpeed]; lra. }
  assert (Hrot :
    SimplePhysics.updateRotation Fixtures.testConfig
      (Car.rotation Fixtures.startCar) 0
      (Input.steering Input.INPUT_NONE) Fixtures.dt
    = Car.rotation Fixtures.startCar).
  { unfold SimplePhysics.updateRotation.
    rewrite decide_True; [reflexivity |].
    rewrite Rabs_R0. unfold Fixtures.testConfig;
      cbn [PhysicsEngine.minSteeringSpeed]; lra. }
  rewrite Hspeed, Hrot.
  unfold Car.updateCarState, Fixtures.startCar, Car.createCarState,
    Vec.add, Vec.scale, Vec.fromAngle, Vec.VEC2_ZERO; proj_simpl.
  unfold Datatypes.id. f_equal; f_equal; ring.
Qed.

(** 'returns true when movement crosses checkpoint', 'returns false when
    movement does not cross checkpoint', 'returns false when moving parallel
    to checkpoint' *)
Example crossesCheckpoint_tests :
  let checkpoint :=
    Track.createCheckpoint
      (Track.createLineSegment (vec2 0 0) (vec2 0 10)) 0 in
  LapTracker.crossesCheckpoint (vec2 (-5) 5) (vec2 5 5) checkpoint = true
  /\ LapTracker.crossesCheckpoint (vec2 (-5) 5) (vec2 (-2) 5) checkpoint
     = false
  /\ LapTracker.crossesCheckpoint (vec2 (-5) 0) (vec2 (-5) 10) checkpoint
     = false.
Proof.
  cbv zeta. split; [| split].
  - apply crossesCheckpoint_true, intersection_by_numerators;
      unfold Collision.numerator_t, Collision.numerator_u, Collision.rxs,
        Collision.direction, Vec.cross, Vec.subtract; proj_simpl; lra.
  - apply crossesCheckpoint_false. rewrite intersection_by_numerators;
      unfold Collision.numerator_t, Collision.numerator_u, Collision.rxs,
        Collision.direction, Vec.cross, Vec.subtract; proj_simpl; lra.
  - apply crossesCheckpoint_false.
    rewrite nearly_parallel_is_none; [intros [pt Hpt]; discriminate |].
    unfold Collision.rxs, Collision.direction, Vec.cross, Vec.subtract;
      proj_simpl. split_cases; lra.
Qed.

(** The scenario of three checkpoints: crossing checkpoint 1 and then the
    start/finish line, checkpoint 2 skipped, does not complete the lap. *)
Example skipping_checkpoint2_completes_no_lap (w : World) :
  let afterFirst :=
    fst (LapTracker.processCheckpointCross Fixtures.initialProgress
           Fixtures.initialTiming Fixtures.checkpoint1 3 3 w) in
  Game.lastCheckpointIndex (LapTracker.Cross.progress afterFirst) = 1%Z
  /\ LapTracker.processCheckpointCross
       (LapTracker.Cross.progress afterFirst)
       (LapTracker.Cross.timing afterFirst) Fixtures.startFinish 3 3 w
     = (Outcome.ignored (LapTracker.Cross.progress afterFirst)
          Fixtures.initialTiming, w).
Proof.
  cbv zeta.
  rewrite processCheckpointCross_next;
    [| cbn; lia | cbn; set_solver | reflexivity].
  cbn [fst LapTracker.Cross.progress LapTracker.Cross.timing].
  split; [reflexivity |].
  apply (processCheckpointCross_start_ignored _ _ _ _ _ 2%Z);
    [reflexivity | lia |].
  cbn [Game.checkpointsPassed Fixtures.initialProgress Track.index
       Fixtures.checkpoint1].
  rewrite elem_of_union, !elem_of_singleton. lia.
Qed.

End Scenarios.

(** * Inside a rectangle *)
Section RectangleInterior.

Variables (center : Vec2) (width height rotation : R) (point : Vec2).

Lemma corners_unfold :
  Collision.getRotatedRectCorners center width height rotation
  = [ vec2 (Vec.x center + - (width / 2) * cos rotation
            - - (height / 2) * sin rotation)
           (Vec.y center + - (width / 2) * sin rotation
            + - (height / 2) * cos rotation);
      vec2 (Vec.x center + width / 2 * cos rotation
            - - (height / 2) * sin rotation)
           (Vec.y center + width / 2 * sin rotation
            + - (height / 2) * cos rotation);
      vec2 (Vec.x center + width / 2 * cos rotation
            - height / 2 * sin rotation)
           (Vec.y center + width / 2 * sin rotation
            + height / 2 * cos rotation);
      vec2 (Vec.x center + - (width / 2) * cos rotation
            - height / 2 * sin rotation)
           (Vec.y center + - (width / 2) * sin rotation
            + height / 2 * cos rotation) ].
Proof. reflexivity. Qed.

Lemma unit_heading : cos rotation * cos rotation + sin rotation * sin rotation = 1.
Proof.
  pose proof (sin2_cos2 rotation) as H. unfold Rsqr in H. lra.
Qed.

(** The four cross products [pointInPolygon] takes against the corners:
    each is a side length times the distance of the point to that side. *)
Lemma side_crosses :
  match Collision.getRotatedRectCorners center width height rotation with
  | [c0; c1; c2; c3] =>
      Vec.cross (Vec.subtract c1 c0) (Vec.subtract point c0)
      = width * (Frame.along_height center rotation point + height / 2)
      /\ Vec.cross (Vec.subtract c2 c1) (Vec.subtract point c1)
         = height * (width / 2 - Frame.along_width center rotation point)
      /\ Vec.cross (Vec.subtract c3 c2) (Vec.subtract point c2)
         = width * (height / 2 - Frame.along_height center rotation point)
      /\ Vec.cross (Vec.subtract c0 c3) (Vec.subtract point c3)
         = height * (Frame.along_width center rotation point + width / 2)
  | _ => False
  end.
Proof.
  rewrite corners_unfold.
  pose proof unit_heading as Hunit.
  unfold Frame.along_width, Frame.along_height, Vec.cross,
    Vec.subtract; proj_simpl.
  generalize dependent (cos rotation). generalize dependent (sin rotation).
  intros s c Hunit.
  repeat split.
  - replace (width * ((Vec.y point - Vec.y center) * c
                      - (Vec.x point - Vec.x center) * s + height / 2))
      with (width * ((Vec.y point - Vec.y center) * c
                     - (Vec.x point - Vec.x center) * s
                     + height / 2 * (c * c + s * s)))
      by (rewrite Hunit; field).
    field.
  - replace (height * (width / 2
                       - ((Vec.x point - Vec.x center) * c
                          + (Vec.y point - Vec.y center) * s)))
      with (height * (width / 2 * (c * c + s * s)
                      - ((Vec.x point - Vec.x center) * c
                         + (Vec.y point - Vec.y center) * s)))
      by (rewrite Hunit; field).
    field.
  - replace (width * (height / 2
                      - ((Vec.y point - Vec.y center) * c
                         - (Vec.x point - Vec.x center) * s)))
      with (width * (height / 2 * (c * c + s * s)
                     - ((Vec.y point - Vec.y center) * c
                        - (Vec.x point - Vec.x center) * s)))
      by (rewrite Hunit; field).
    field.
  - replace (height * ((Vec.x point - Vec.x center) * c
                       + (Vec.y point - Vec.y center) * s + width / 2))
      with (height * ((Vec.x point - Vec.x center) * c
                      + (Vec.y point - Vec.y center) * s
                      + width / 2 * (c * c + s * s)))
      by (rewrite Hunit; field).
    field.
Qed.

Lemma sign_of_cases (c : R) :
  (c > 0 /\ Collision.sign_of c = 1%Z)
  \/ (c <= 0 /\ Collision.sign_of c = (-1)%Z).
Proof.
  destruct (Rlt_le_dec 0 c) as [Hpos | Hneg].
  - left. split; [lra | apply sign_of_positive; lra].
  - right. split; [lra | now apply sign_of_not_positive].
Qed.

(** For a rectangle of positive width and height, the containment test of
    [rectangleIntersectsLine] holds exactly for the points strictly inside:
    a point on the boundary is not inside. *)
Lemma pointInPolygon_interior :
  0 < width -> 0 < height ->
  Collision.pointInPolygon point
    (Collision.getRotatedRectCorners center width height rotation) = true
  <-> - (width / 2) < Frame.along_width center rotation point < width / 2
      /\ - (height / 2) < Frame.along_height center rotation point
         < height / 2.
Proof.
  intros Hw Hh. pose proof side_crosses as Hsides.
  set (lx := Frame.along_width center rotation point) in *.
  set (ly := Frame.along_height center rotation point) in *.
  rewrite corners_unfold in *. rewrite pointInPolygon_four. cbv beta zeta.
  destruct Hsides as (-> & -> & -> & ->).
  destruct (sign_of_cases (width * (ly + height / 2))) as [[H0 ->] | [H0 ->]];
  destruct (sign_of_cases (height * (width / 2 - lx))) as [[H1 ->] | [H1 ->]];
  destruct (sign_of_cases (width * (height / 2 - ly))) as [[H2 ->] | [H2 ->]];
  destruct (sign_of_cases (height * (lx + width / 2))) as [[H3 ->] | [H3 ->]];
  cbn; split; try discriminate; try (intros _; split; nra); intros [Hx Hy];
    try reflexivity; exfalso; nra.
Qed.

End RectangleInterior.

(** * The clock does not reach the car *)
Section ClockIndependence.

(** Whatever the clock reads and whatever the observer has seen, a step
    puts the same car in the state it returns: the readings only enter the
    timing. *)
Lemma step_car_ignores_world (loop : GameLoop.GameLoop) (input : InputCommand)
  (w1 w2 : World) :
  Game.car (fst (fst (GameLoop.step loop input w1)))
  = Game.car (fst (fst (GameLoop.step loop input w2))).
Proof.
  unfold GameLoop.step. case_decide as Hstatus; [reflexivity |].
  unfold Host.bind.
  destruct (LapTracker.updateLapProgress _ _ _ _ _ _ w1) as [r1 w1'].
  destruct (LapTracker.updateLapProgress _ _ _ _ _ _ w2) as [r2 w2'].
  cbn [GameLoop.set_state GameLoop.state GameLoop.onStateChange].
  destruct (GameLoop.notify _ _ w1') as [u1 w1''].
  destruct (GameLoop.notify _ _ w2') as [u2 w2''].
  reflexivity.
Qed.

End ClockIndependence.

(** * Vector operations *)
Section VectorProperties.

Lemma lengthSquared_nonneg (v : Vec2) : 0 <= Vec.lengthSquared v.
Proof. unfold Vec.lengthSquared. nra. Qed.

Lemma length_squared (v : Vec2) :
  Vec.length v * Vec.length v = Vec.lengthSquared v.
Proof. apply sqrt_sqrt, lengthSquared_nonneg. Qed.

Lemma length_zero_iff (v : Vec2) : Vec.length v = 0 <-> v = Vec.VEC2_ZERO.
Proof.
  split.
  - intros Hlen. pose proof (length_squared v) as Hsq.
    rewrite Hlen in Hsq. unfold Vec.lengthSquared in Hsq.
    destruct v as [vx vy]; proj_simpl. unfold Vec.VEC2_ZERO.
    f_equal; nra.
  - intros ->. unfold Vec.length, Vec.VEC2_ZERO; proj_simpl.
    apply sqrt_of_square; lra.
Qed.

Lemma length_scale (v : Vec2) (k : R) :
  Vec.length (Vec.scale v k) = Rabs k * Vec.length v.
Proof.
  unfold Vec.length, Vec.scale; proj_simpl.
  replace (Vec.x v * k * (Vec.x v * k) + Vec.y v * k * (Vec.y v * k))
    with (Rsqr k * (Vec.x v * Vec.x v + Vec.y v * Vec.y v))
    by (unfold Rsqr; ring).
  rewrite sqrt_mult_alt by apply Rle_0_sqr.
  now rewrite sqrt_Rsqr_abs.
Qed.

Lemma normalize_nonzero (v : Vec2) :
  v <> Vec.VEC2_ZERO ->
  Vec.length (VecOps.normalize v) = 1
  /\ Vec.scale (VecOps.normalize v) (Vec.length v) = v.
Proof.
  intros Hnz. unfold VecOps.normalize.
  assert (Hlen : Vec.length v <> 0) by (now rewrite length_zero_iff).
  rewrite decide_False by exact Hlen. split.
  - pose proof (length_squared v) as Hsq.
    pose proof (length_nonneg v) as Hpos.
    unfold Vec.lengthSquared in Hsq.
    unfold Vec.length at 1; proj_simpl.
    apply sqrt_of_square; [lra |].
    generalize dependent (Vec.length v). intros len Hlen Hsq Hpos.
    replace (Vec.x v / len * (Vec.x v / len)
             + Vec.y v / len * (Vec.y v / len))
      with ((Vec.x v * Vec.x v + Vec.y v * Vec.y v) / (len * len))
      by (field; exact Hlen).
    rewrite <- Hsq. field. exact Hlen.
  - destruct v as [vx vy]. unfold Vec.scale; proj_simpl.
    f_equal; field; exact Hlen.
Qed.

(** [clampLength] with a limit that is not negative returns a vector no
    longer than the limit: the vector itself when it is short enough,
    otherwise the vector shrunk to exactly the limit along its own
    direction. *)
Theorem clampLength_bound (v : Vec2) (maxLength : R) :
  0 <= maxLength ->
  Vec.length (VecOps.clampLength v maxLength) <= maxLength
  /\ (Vec.length v <= maxLength -> VecOps.clampLength v maxLength = v)
  /\ (maxLength < Vec.length v ->
      Vec.length (VecOps.clampLength v maxLength) = maxLength
      /\ VecOps.clampLength v maxLength
         = Vec.scale v (maxLength / Vec.length v)).
Proof.
  intros Hmax. unfold VecOps.clampLength.
  pose proof (length_nonneg v) as Hpos.
  destruct (decide (Vec.length v <= maxLength)) as [Hshort | Hlong].
  - split; [exact Hshort |]. split; [reflexivity | lra].
  - assert (Hnz : v <> Vec.VEC2_ZERO).
    { intros Hz. apply length_zero_iff in Hz. lra. }
    destruct (normalize_nonzero v Hnz) as [Hone Hback].
    assert (Hlen : Vec.length (Vec.scale (VecOps.normalize v) maxLength)
                   = maxLength).
    { rewrite length_scale, Hone, Rabs_right; lra. }
    split; [lra |]. split; [lra |]. intros _. split; [exact Hlen |].
    rewrite <- Hback at 2.
    unfold Vec.scale; proj_simpl. f_equal; field; lra.
Qed.

Lemma clampLength_bound_witness :
  0 <= 1 /\ Vec.length (VecOps.clampLength (vec2 3 4) 1) <= 1.
Proof.
  split; [lra |]. apply (clampLength_bound (vec2 3 4) 1). lra.
Defined.

(** [rotate] keeps the length of a vector, rotating by 0 changes nothing,
    and rotating by one angle and then another is rotating by their sum. *)
Theorem rotate_isometry (v : Vec2) (a b : R) :
  Vec.length (VecOps.rotate v a) = Vec.length v
  /\ VecOps.rotate v 0 = v
  /\ VecOps.rotate (VecOps.rotate v a) b = VecOps.rotate v (a + b).
Proof.
  split; [| split].
  - unfold Vec.length, VecOps.rotate; proj_simpl. f_equal.
    pose proof (sin2_cos2 a) as Hunit. unfold Rsqr in Hunit.
    generalize dependent (cos a). generalize dependent (sin a).
    intros s c Hunit.
    replace ((Vec.x v * c - Vec.y v * s) * (Vec.x v * c - Vec.y v * s)
             + (Vec.x v * s + Vec.y v * c) * (Vec.x v * s + Vec.y v * c))
      with ((Vec.x v * Vec.x v + Vec.y v * Vec.y v) * (s * s + c * c))
      by ring.
    rewrite Hunit. ring.
  - destruct v as [vx vy]. unfold VecOps.rotate; proj_simpl.
    rewrite cos_0, sin_0. f_equal; ring.
  - unfold VecOps.rotate; proj_simpl. rewrite cos_plus, sin_plus.
    f_equal; ring.
Qed.

(** [perpendicular] is the quarter turn counter-clockwise: the result is
    orthogonal to the vector, as long as it, to its left (the cross product
    is the squared length), and turning twice negates the vector. *)
Theorem perpendicular_quarter_turn (v : Vec2) :
  VecOps.perpendicular v = VecOps.rotate v (PI / 2)
  /\ Vec.dot v (VecOps.perpendicular v) = 0
  /\ Vec.length (VecOps.perpendicular v) = Vec.length v
  /\ Vec.cross v (VecOps.perpendicular v) = Vec.lengthSquared v
  /\ VecOps.perpendicular (VecOps.perpendicular v) = Vec.scale v (-1).
Proof.
  destruct v as [vx vy].
  unfold VecOps.perpendicular, VecOps.rotate, Vec.dot, Vec.cross,
    Vec.length, Vec.lengthSquared, Vec.scale; proj_simpl.
  rewrite cos_PI2, sin_PI2.
  repeat split; try (f_equal; ring); try ring.
Qed.

Lemma distance_lerp_end (a b : Vec2) (t : R) :
  VecOps.distance (VecOps.lerp a b t) b = Rabs (1 - t) * VecOps.distance a b.
Proof.
  unfold VecOps.distance. rewrite <- length_scale. f_equal.
  unfold VecOps.lerp, Vec.subtract, Vec.scale; proj_simpl. f_equal; ring.
Qed.

End VectorProperties.

Section DistanceProperties.

Lemma lengthSquared_add (u w : Vec2) :
  Vec.lengthSquared (Vec.add u w)
  = Vec.lengthSquared u + 2 * Vec.dot u w + Vec.lengthSquared w.
Proof. unfold Vec.lengthSquared, Vec.add, Vec.dot; proj_simpl. ring. Qed.

(** Cauchy-Schwarz: the dot product is at most the product of the
    lengths. *)
Lemma dot_le_lengths (u w : Vec2) :
  Vec.dot u w <= Vec.length u * Vec.length w.
Proof.
  pose proof (length_squared u) as Hu. pose proof (length_squared w) as Hw.
  pose proof (length_nonneg u) as Hupos. pose proof (length_nonneg w) as Hwpos.
  assert (Hcs : Vec.dot u w * Vec.dot u w
                <= Vec.lengthSquared u * Vec.lengthSquared w).
  { unfold Vec.dot, Vec.lengthSquared.
    pose proof (Rle_0_sqr (Vec.x u * Vec.y w - Vec.y u * Vec.x w)) as Hsq.
    unfold Rsqr in Hsq. nra. }
  rewrite <- Hu, <- Hw in Hcs.
  clear Hu Hw.
  set (lu := Vec.length u) in *. set (lw := Vec.length w) in *.
  set (d := Vec.dot u w) in *. clearbody lu lw d.
  destruct (Rle_lt_dec d (lu * lw)) as [Hle | Hgt]; [exact Hle |].
  exfalso. assert (0 <= lu * lw) by nra. nra.
Qed.

Lemma length_add_le (u w : Vec2) :
  Vec.length (Vec.add u w) <= Vec.length u + Vec.length w.
Proof.
  pose proof (length_squared (Vec.add u w)) as Hsum.
  rewrite lengthSquared_add, <- !length_squared in Hsum.
  pose proof (dot_le_lengths u w) as Hdot.
  pose proof (length_nonneg u) as Hu. pose proof (length_nonneg w) as Hw.
  pose proof (length_nonneg (Vec.add u w)) as Hs.
  set (ls := Vec.length (Vec.add u w)) in *.
  set (lu := Vec.length u) in *. set (lw := Vec.length w) in *.
  set (d := Vec.dot u w) in *. clearbody ls lu lw d.
  destruct (Rle_lt_dec ls (lu + lw)) as [Hle | Hgt]; [exact Hle |].
  exfalso. nra.
Qed.

(** [distance] is a metric: it is not negative, symmetric, zero exactly
    between a point and itself, and obeys the triangle inequality;
    [distanceSquared] is its square. *)
Theorem distance_metric (a b c : Vec2) :
  0 <= VecOps.distance a b
  /\ VecOps.distance a b = VecOps.distance b a
  /\ (VecOps.distance a b = 0 <-> a = b)
  /\ VecOps.distance a c <= VecOps.distance a b + VecOps.distance b c
  /\ VecOps.distanceSquared a b = VecOps.distance a b * VecOps.distance a b.
Proof.
  unfold VecOps.distance, VecOps.distanceSquared.
  split; [apply length_nonneg |].
  split.
  { unfold Vec.length, Vec.subtract; proj_simpl. f_equal. ring. }
  split.
  { rewrite length_zero_iff. destruct a as [ax ay], b as [bx by'].
    unfold Vec.subtract, Vec.VEC2_ZERO; proj_simpl. split.
    - intros [= Hx Hy]. f_equal; lra.
    - intros [= -> ->]. f_equal; ring. }
  split.
  { replace (Vec.subtract c a)
      with (Vec.add (Vec.subtract b a) (Vec.subtract c b))
      by (unfold Vec.add, Vec.subtract; proj_simpl; f_equal; ring).
    apply length_add_le. }
  now rewrite length_squared.
Qed.

(** [equals] with a positive tolerance holds between a vector and itself
    and does not depend on the order of its arguments, but it is not
    transitive: with the default tolerance, (0,0) equals (0.6e-10, 0),
    which equals (1.2e-10, 0), which does not equal (0,0). *)
Theorem equals_tolerance :
  (forall (a : Vec2) (epsilon : R),
     0 < epsilon -> VecOps.equals a a epsilon = true)
  /\ (forall (a b : Vec2) (epsilon : R),
        VecOps.equals a b epsilon = VecOps.equals b a epsilon)
  /\ (VecOps.equals (vec2 0 0) (vec2 0.6e-10 0) VecOps.DEFAULT_EPSILON = true
      /\ VecOps.equals (vec2 0.6e-10 0) (vec2 1.2e-10 0)
           VecOps.DEFAULT_EPSILON = true
      /\ VecOps.equals (vec2 0 0) (vec2 1.2e-10 0) VecOps.DEFAULT_EPSILON
         = false).
Proof.
  split; [| split].
  - intros a epsilon Heps. unfold VecOps.equals.
    rewrite !bool_decide_eq_true_2; [reflexivity | |];
      (replace (_ - _) with 0 by ring); rewrite Rabs_R0; exact Heps.
  - intros a b epsilon. unfold VecOps.equals.
    now rewrite (Rabs_minus_sym (Vec.x a)), (Rabs_minus_sym (Vec.y a)).
  - unfold VecOps.equals, VecOps.DEFAULT_EPSILON; proj_simpl.
    split; [| split].
    + rewrite !bool_decide_eq_true_2; [reflexivity | |]; split_cases; lra.
    + rewrite !bool_decide_eq_true_2; [reflexivity | |]; split_cases; lra.
    + rewrite (bool_decide_eq_false_2 (Rabs (0 - 1.2e-10) < 1e-10));
        [reflexivity |].
      split_cases; lra.
Qed.

Lemma equals_tolerance_witness :
  0 < 1 /\ VecOps.equals (vec2 3 4) (vec2 3 4) 1 = true.
Proof.
  split; [lra |].
  apply (proj1 equals_tolerance (vec2 3 4) 1). lra.
Defined.

End DistanceProperties.

(** * The closest point of a segment *)
Section ClosestPoint.

Lemma distance_le_by_squares (p a b : Vec2) :
  VecOps.distanceSquared p a <= VecOps.distanceSquared p b ->
  VecOps.distance p a <= VecOps.distance p b.
Proof.
  intros Hsq. unfold VecOps.distance, Vec.length.
  apply sqrt_le_1_alt. exact Hsq.
Qed.

(** The squared distance from a point to the point of a segment at
    parameter [k], as a quadratic in [k]. *)
Lemma distanceSquared_point_at (point : Vec2) (segment : LineSegment) (k : R) :
  VecOps.distanceSquared point (Collision.point_at segment k)
  = Vec.dot (Vec.subtract point (Track.start segment))
            (Vec.subtract point (Track.start segment))
    - 2 * k * Vec.dot (Vec.subtract point (Track.start segment))
                      (Collision.direction segment)
    + k * k * Vec.dot (Collision.direction segment)
                      (Collision.direction segment).
Proof.
  unfold VecOps.distanceSquared, Vec.lengthSquared, Collision.point_at,
    Collision.direction, Vec.dot, Vec.subtract; proj_simpl. ring.
Qed.

Lemma point_at_ends (segment : LineSegment) :
  Collision.point_at segment 0 = Track.start segment
  /\ Collision.point_at segment 1 = Track.end_ segment.
Proof.
  destruct segment as [[sx sy] [ex ey]].
  unfold Collision.point_at, Collision.direction, Vec.subtract; proj_simpl.
  split; f_equal; ring.
Qed.

(** The parameter [closestPointOnSegment] settles on. *)
Lemma closestPointOnSegment_parameter (point : Vec2) (segment : LineSegment) :
  let c1 := Vec.dot (Vec.subtract point (Track.start segment))
                    (Collision.direction segment) in
  let c2 := Vec.dot (Collision.direction segment)
                    (Collision.direction segment) in
  (c1 <= 0
   /\ CollisionOps.closestPointOnSegment point segment
      = Collision.point_at segment 0)
  \/ (0 < c1 /\ c2 <= c1
      /\ CollisionOps.closestPointOnSegment point segment
         = Collision.point_at segment 1)
  \/ (0 < c1 < c2
      /\ CollisionOps.closestPointOnSegment point segment
         = Collision.point_at segment (c1 / c2)).
Proof.
  intros c1 c2. destruct (point_at_ends segment) as [Hstart Hend].
  unfold CollisionOps.closestPointOnSegment.
  fold (Collision.direction segment). fold c1. fold c2.
  destruct (decide (c1 <= 0)) as [Hneg | Hpos].
  - left. now rewrite Hstart.
  - right. destruct (decide (c2 <= c1)) as [Hbeyond | Hwithin].
    + left. rewrite Hend. repeat split; lra.
    + right. split; [lra | reflexivity].
Qed.

(** [closestPointOnSegment] returns a point of the segment, and no point of
    the segment is nearer to the query point; a segment of length 0 gives
    its start. *)
Theorem closestPointOnSegment_nearest (point : Vec2) (segment : LineSegment) :
  (exists k : R,
     0 <= k <= 1
     /\ CollisionOps.closestPointOnSegment point segment
        = Collision.point_at segment k)
  /\ (forall k : R,
        0 <= k <= 1 ->
        VecOps.distance point
          (CollisionOps.closestPointOnSegment point segment)
        <= VecOps.distance point (Collision.point_at segment k))
  /\ (Track.start segment = Track.end_ segment ->
      CollisionOps.closestPointOnSegment point segment = Track.start segment).
Proof.
  pose proof (closestPointOnSegment_parameter point segment) as Hcases.
  cbv zeta in Hcases.
  set (c1 := Vec.dot (Vec.subtract point (Track.start segment))
                     (Collision.direction segment)) in *.
  set (c2 := Vec.dot (Collision.direction segment)
                     (Collision.direction segment)) in *.
  assert (Hc2 : 0 <= c2) by (unfold c2, Vec.dot; nra).
  assert (Hquad : forall k j,
            VecOps.distanceSquared point (Collision.point_at segment k)
            - VecOps.distanceSquared point (Collision.point_at segment j)
            = 2 * (j - k) * c1 + (k * k - j * j) * c2).
  { intros k j. rewrite !distanceSquared_point_at. fold c1 c2. ring. }
  split; [| split].
  - destruct Hcases as [[_ ->] | [(_ & _ & ->) | [Hin ->]]].
    + exists 0. split; [lra | reflexivity].
    + exists 1. split; [lra | reflexivity].
    + exists (c1 / c2). split; [| reflexivity].
      assert (Ht : c1 / c2 * c2 = c1) by (field; lra).
      generalize dependent (c1 / c2). intros t Ht. split; nra.
  - intros k Hk. apply distance_le_by_squares.
    destruct Hcases as [[Hneg ->] | [(Hpos & Hbeyond & ->) | [Hin ->]]].
    + specialize (Hquad k 0). nra.
    + specialize (Hquad k 1).
      assert (Hslack : 0 <= 2 * c1 - (1 + k) * c2) by nra.
      assert (Hprod : 0 <= (1 - k) * (2 * c1 - (1 + k) * c2))
        by (apply Rmult_le_pos; lra).
      replace (2 * (1 - k) * c1 + (k * k - 1 * 1) * c2)
        with ((1 - k) * (2 * c1 - (1 + k) * c2)) in Hquad by ring.
      lra.
    + specialize (Hquad k (c1 / c2)).
      assert (Ht : c1 / c2 * c2 = c1) by (field; lra).
      generalize dependent (c1 / c2). intros t Hquad Ht.
      assert (Hsq : 2 * (t - k) * c1 + (k * k - t * t) * c2
                    = c2 * ((k - t) * (k - t))) by (rewrite <- Ht; ring).
      pose proof (Rle_0_sqr (k - t)) as Hpos. unfold Rsqr in Hpos. nra.
  - intros Hdegenerate.
    assert (Hc1 : c1 = 0).
    { unfold c1, Collision.direction, Vec.dot, Vec.subtract.
      rewrite Hdegenerate; proj_simpl. ring. }
    destruct Hcases as [[_ ->] | [(Hpos & Hbeyond & _) | [Hin _]]].
    + apply point_at_ends.
    + lra.
    + lra.
Qed.

Lemma closestPointOnSegment_nearest_witness :
  0 <= 1 / 2 <= 1
  /\ VecOps.distance (vec2 5 5)
       (CollisionOps.closestPointOnSegment (vec2 5 5)
          {| Track.start := vec2 0 0; Track.end_ := vec2 10 0 |})
     <= VecOps.distance (vec2 5 5)
          (Collision.point_at
             {| Track.start := vec2 0 0; Track.end_ := vec2 10 0 |} (1 / 2)).
Proof.
  split; [lra |].
  apply (closestPointOnSegment_nearest (vec2 5 5)
           {| Track.start := vec2 0 0; Track.end_ := vec2 10 0 |}).
  lra.
Defined.

End ClosestPoint.

(** * Intersections, polygons and rectangles *)
Section Geometry.




(** The loop of [pointInPolygon] once a sign is fixed: it runs to the end
    exactly when every remaining edge has that sign. *)
Lemma pointInPolygon_loop_signed (point : Vec2) (polygon : list Vec2)
  (sgn : Z) (remaining : nat) :
  forall i : nat,
    Collision.pointInPolygon_loop point polygon (List.length polygon)
      remaining i (Some sgn) = true
    <-> forall j : nat, (i <= j < i + remaining)%nat ->
                        Polygon.edge_sign point polygon j = sgn.
Proof.
  induction remaining as [| remaining IH]; intros i;
    cbn [Collision.pointInPolygon_loop].
  - split; [intros _ j Hj; lia | reflexivity].
  - fold (Polygon.edge_sign point polygon i).
    case_decide as Hsign.
    + split; [discriminate |]. intros Hall. exfalso. apply Hsign, Hall. lia.
    + rewrite IH. split; intros Hall j Hj.
      * destruct (decide (j = i)) as [-> | Hne];
          [now apply dec_stable | apply Hall; lia].
      * apply Hall. lia.
Qed.

(** [pointInPolygon] is true exactly for a polygon of at least 3 vertices
    all of whose edges see the point on the same side as the first edge
    does; fewer than 3 vertices give false. *)
Theorem pointInPolygon_same_side (point : Vec2) (polygon : list Vec2) :
  Collision.pointInPolygon point polygon = true
  <-> (3 <= List.length polygon)%nat
      /\ forall i : nat,
           (i < List.length polygon)%nat ->
           Polygon.edge_sign point polygon i
           = Polygon.edge_sign point polygon 0.
Proof.
  unfold Collision.pointInPolygon. cbv zeta.
  case_decide as Hfew.
  - split; [discriminate | intros [Hn _]; lia].
  - destruct (List.length polygon) as [| m] eqn:Hlen; [lia |].
    cbn [Collision.pointInPolygon_loop]. rewrite <- Hlen.
    fold (Polygon.edge_sign point polygon 0).
    rewrite pointInPolygon_loop_signed. rewrite Hlen. split.
    + intros Hall. split; [lia |]. intros i Hi.
      destruct i as [| i]; [reflexivity | apply Hall; lia].
    + intros [_ Hall] j Hj. apply Hall. lia.
Qed.

Lemma pointInPolygon_interior_witness :
  Collision.pointInPolygon (vec2 1 0)
    (Collision.getRotatedRectCorners (vec2 0 0) 4 2 0) = true.
Proof.
  apply (pointInPolygon_interior (vec2 0 0) 4 2 0 (vec2 1 0)); try lra.
  unfold Frame.along_width, Frame.along_height; proj_simpl.
  rewrite cos_0, sin_0. lra.
Defined.

(** The corners [getRotatedRectCorners] returns form a rectangle around
    the centre: opposite sides are [|width|] and [|height|] long, adjacent
    sides are at a right angle, and the centre is the middle of both
    diagonals. *)
Theorem getRotatedRectCorners_rectangle
  (center : Vec2) (width height rotation : R) :
  match Collision.getRotatedRectCorners center width height rotation with
  | [c0; c1; c2; c3] =>
      VecOps.distance c0 c1 = Rabs width
      /\ VecOps.distance c1 c2 = Rabs height
      /\ VecOps.distance c2 c3 = Rabs width
      /\ VecOps.distance c3 c0 = Rabs height
      /\ Vec.dot (Vec.subtract c1 c0) (Vec.subtract c2 c1) = 0
      /\ VecOps.lerp c0 c2 0.5 = center
      /\ VecOps.lerp c1 c3 0.5 = center
  | _ => False
  end.
Proof.
  rewrite corners_unfold.
  assert (Hside : forall k dx dy : R,
            dx = k * cos rotation /\ dy = k * sin rotation
            \/ dx = - k * sin rotation /\ dy = k * cos rotation ->
            sqrt (dx * dx + dy * dy) = Rabs k).
  { intros k dx dy Hd. pose proof (unit_heading rotation) as Hunit.
    rewrite <- sqrt_Rsqr_abs. f_equal. unfold Rsqr.
    destruct Hd as [[-> ->] | [-> ->]].
    - replace (k * cos rotation * (k * cos rotation)
               + k * sin rotation * (k * sin rotation))
        with (k * k * (cos rotation * cos rotation
                       + sin rotation * sin rotation)) by ring.
      rewrite Hunit. ring.
    - replace (- k * sin rotation * (- k * sin rotation)
               + k * cos rotation * (k * cos rotation))
        with (k * k * (cos rotation * cos rotation
                       + sin rotation * sin rotation)) by ring.
      rewrite Hunit. ring. }
  destruct center as [cx cy].
  unfold VecOps.distance, Vec.length, Vec.subtract, Vec.dot, VecOps.lerp;
    proj_simpl.
  split; [apply Hside; left; split; field |].
  split; [apply Hside; right; split; field |].
  split; [rewrite <- (Rabs_Ropp width); apply Hside; left; split; field |].
  split; [rewrite <- (Rabs_Ropp height); apply Hside; right; split; field |].
  split; [field |].
  split; f_equal; lra.
Qed.

End Geometry.

(** * Dynamics of the engine *)
Section Dynamics.
Import PhysicsEngine.

Variable config : PhysicsConfig.

Lemma dot_scale_fromAngle (angle speed : R) :
  Vec.dot (Vec.scale (Vec.fromAngle angle) speed) (Vec.fromAngle angle)
  = speed.
Proof.
  unfold Vec.dot, Vec.scale, Vec.fromAngle; proj_simpl.
  pose proof (unit_heading angle) as Hunit.
  replace (cos angle * speed * cos angle + sin angle * speed * sin angle)
    with (speed * (cos angle * cos angle + sin angle * sin angle)) by ring.
  rewrite Hunit. ring.
Qed.

(** The signed speed read back from a velocity along the heading. *)
Lemma getSignedSpeed_along_heading (car : CarState) (speed : R) :
  Car.velocity car = Vec.scale (Vec.fromAngle (Car.rotation car)) speed ->
  SimplePhysics.getSignedSpeed car (Vec.fromAngle (Car.rotation car))
  = if decide (Rabs speed < 0.001) then 0 else speed.
Proof.
  intros Hvel. unfold SimplePhysics.getSignedSpeed.
  rewrite getCarSpeed_is_length, Hvel, length_scale_fromAngle,
    dot_scale_fromAngle.
  destruct (decide (Rabs speed < 0.001)) as [Hsmall | Hbig]; [reflexivity |].
  revert Hbig. unfold Rabs. destruct (Rcase_abs speed); intros Hbig;
    case_decide; lra.
Qed.

(** No slip: the state [update] returns has its velocity along its
    heading; its position is the old one moved by that velocity for [dt];
    the angular velocity is carried over; and the signed speed the next
    tick will read from it is the speed just integrated, or 0 when that
    speed is below 0.001 in magnitude. *)
Theorem update_no_slip (car : CarState) (input : InputCommand) (dt : R) :
  let car' := SimplePhysics.update config car input dt in
  let newSpeed :=
    SimplePhysics.updateSpeed config
      (SimplePhysics.getSignedSpeed car (Vec.fromAngle (Car.rotation car)))
      (Input.throttle input) (Input.brake input) dt in
  Vec.cross (Car.velocity car') (CarOps.getCarForward car') = 0
  /\ Car.position car'
     = Vec.add (Car.position car) (Vec.scale (Car.velocity car') dt)
  /\ Car.angularVelocity car' = Car.angularVelocity car
  /\ SimplePhysics.getSignedSpeed car' (Vec.fromAngle (Car.rotation car'))
     = (if decide (Rabs newSpeed < 0.001) then 0 else newSpeed).
Proof.
  intros car' newSpeed.
  assert (Hvel : Car.velocity car'
                 = Vec.scale (Vec.fromAngle (Car.rotation car')) newSpeed)
    by apply update_velocity.
  split; [| split; [| split]].
  - rewrite Hvel.
    unfold Vec.cross, Vec.scale, Vec.fromAngle, CarOps.getCarForward;
      proj_simpl. ring.
  - apply update_position.
  - reflexivity.
  - now apply getSignedSpeed_along_heading.
Qed.






End Dynamics.

Section DynamicsRuns.
Import PhysicsEngine.



End DynamicsRuns.

(** * Brake and steering *)
Section BrakeAndSteering.
Import PhysicsEngine.

(** Above the standstill threshold the brake slows the car without ever
    reversing it: a forward speed stays between 0 and itself, a reverse
    speed between itself and 0.  At or below the threshold a held brake is
    the reverse gear, at half force.  The threshold and the brake force
    are not negative. *)
Theorem brake_keeps_direction
  (speed brake deltaTime brakeAcceleration minSteeringSpeed : R) :
  0 <= minSteeringSpeed ->
  0 <= brakeAcceleration * brake * deltaTime ->
  let braked :=
    SimplePhysics.calculateBrakeEffect speed brake deltaTime
      brakeAcceleration minSteeringSpeed in
  (minSteeringSpeed < speed -> 0 <= braked <= speed)
  /\ (speed < - minSteeringSpeed -> speed <= braked <= 0)
  /\ (- minSteeringSpeed <= speed <= minSteeringSpeed -> 0 < brake ->
      braked = speed - brakeAcceleration * brake * deltaTime * 0.5).
Proof.
  intros Hmin Hforce braked. unfold braked, SimplePhysics.calculateBrakeEffect.
  cbv zeta. repeat split; intros; split_cases; lra.
Qed.

Lemma brake_keeps_direction_witness :
  0 <= SimplePhysics.calculateBrakeEffect 20 1 (1 / 60) 100 5 <= 20.
Proof.
  apply (brake_keeps_direction 20 1 (1 / 60) 100 5); lra.
Defined.

Lemma speedFactor_range (config : PhysicsConfig) (speed : R) :
  0 < maxSpeed config ->
  0 <= Rmin 1 (Rabs speed / (maxSpeed config * 0.5)) <= 1.
Proof.
  intros Hmax.
  assert (Hratio : 0 <= Rabs speed / (maxSpeed config * 0.5)).
  { apply Rmult_le_pos; [apply Rabs_pos |].
    apply Rlt_le, Rinv_0_lt_compat. lra. }
  split; [apply Rmin_glb; lra | apply Rmin_l].
Qed.

(** Steering: one tick turns the car by at most [|steering * steeringRate *
    dt|]; below the minimum steering speed it does not turn at all; and
    the same steering at the opposite speed turns it by the opposite
    amount.  The forward limit is positive. *)
Theorem steering_bounded (config : PhysicsConfig)
  (rotation speed steering deltaTime : R) :
  0 < maxSpeed config ->
  let turn v :=
    SimplePhysics.updateRotation config rotation v steering deltaTime
    - rotation in
  Rabs (turn speed) <= Rabs (steering * steeringRate config * deltaTime)
  /\ (Rabs speed < minSteeringSpeed config -> turn speed = 0)
  /\ turn (- speed) = - turn speed.
Proof.
  intros Hmax turn. unfold turn, SimplePhysics.updateRotation. cbv zeta.
  pose proof (speedFactor_range config speed Hmax) as Hfactor.
  rewrite Rabs_Ropp.
  set (factor := Rmin 1 (Rabs speed / (maxSpeed config * 0.5))) in *.
  assert (Hzero : speed = 0 -> factor = 0).
  { intros ->. unfold factor. rewrite Rabs_R0.
    unfold Rdiv. rewrite Rmult_0_l. apply Rmin_right. lra. }
  clearbody factor.
  destruct (decide (Rabs speed < minSteeringSpeed config)) as [Hslow | Hfast].
  - replace (rotation - rotation) with 0 by ring. rewrite Rabs_R0.
    split; [apply Rabs_pos |]. split; [reflexivity | ring].
  - split; [| split; [intros; lra |]].
    + replace (rotation
               + steering * steeringRate config * factor * deltaTime
                 * (if decide (speed >= 0) then 1 else -1) - rotation)
        with (steering * steeringRate config * deltaTime
              * (factor * (if decide (speed >= 0) then 1 else -1)))
        by ring.
      rewrite Rabs_mult.
      rewrite <- (Rmult_1_r (Rabs (steering * steeringRate config * deltaTime)))
        at 2.
      apply Rmult_le_compat_l; [apply Rabs_pos |].
      case_decide; split_cases; lra.
    + destruct (Req_dec speed 0) as [Hz | Hnz].
      * rewrite (Hzero Hz). ring.
      * repeat case_decide; try lra; ring.
Qed.

End BrakeAndSteering.

Section SteeringRuns.

Lemma steering_bounded_witness :
  Rabs (SimplePhysics.updateRotation Fixtures.testConfig 0 60 1 Fixtures.dt
        - 0)
  <= Rabs (1 * PhysicsEngine.steeringRate Fixtures.testConfig * Fixtures.dt).
Proof.
  apply (steering_bounded Fixtures.testConfig 0 60 1 Fixtures.dt).
  unfold Fixtures.testConfig; cbn [PhysicsEngine.maxSpeed]. lra.
Defined.

End SteeringRuns.

(** * Lap queries and invariants *)
Section LapInvariants.
#[local] Open Scope Z_scope.

Lemma best_of_fold (rest : list LapTime) :
  forall first : LapTime,
    let best :=
      fold_left
        (fun best current =>
           if decide (Game.timeMs current < Game.timeMs best)%R
           then current else best)
        rest first in
    (best = first \/ best ∈ rest)
    /\ (Game.timeMs best <= Game.timeMs first)%R
    /\ forall l, l ∈ rest -> (Game.timeMs best <= Game.timeMs l)%R.
Proof.
  induction rest as [| current rest IH]; intros first; cbn [fold_left].
  - split; [now left |]. split; [lra |]. intros l Hl. inversion Hl.
  - cbv zeta in IH.
    destruct (decide (Game.timeMs current < Game.timeMs first)%R)
      as [Hless | Hnot];
      [destruct (IH current) as (Hmem & Hle & Hall)
      | destruct (IH first) as (Hmem & Hle & Hall)].
    + split; [right; destruct Hmem as [-> | Hin]; [left | now right] |].
      split; [lra |]. intros l Hl.
      apply elem_of_cons in Hl as [-> | Hl]; [exact Hle | now apply Hall].
    + split; [destruct Hmem as [-> | Hin]; [now left | right; now right] |].
      split; [exact Hle |]. intros l Hl.
      apply elem_of_cons in Hl as [-> | Hl]; [lra | now apply Hall].
Qed.

(** [getBestLapTime] returns nothing exactly when no lap is recorded;
    otherwise it returns one of the recorded laps, and no recorded lap is
    faster. *)
Theorem getBestLapTime_fastest (timing : TimingState) :
  (LapQueries.getBestLapTime timing = None <-> Game.lapTimes timing = [])
  /\ forall best : LapTime,
       LapQueries.getBestLapTime timing = Some best ->
       best ∈ Game.lapTimes timing
       /\ forall l, l ∈ Game.lapTimes timing ->
                    (Game.timeMs best <= Game.timeMs l)%R.
Proof.
  unfold LapQueries.getBestLapTime.
  destruct (Game.lapTimes timing) as [| first rest].
  - split; [tauto | discriminate].
  - split; [split; discriminate |].
    intros best [= <-].
    destruct (best_of_fold rest first) as (Hmem & Hle & Hall).
    split.
    + destruct Hmem as [-> | Hin]; [left | now right].
    + intros l Hl.
      apply elem_of_cons in Hl as [-> | Hl]; [exact Hle | now apply Hall].
Qed.

Lemma getBestLapTime_fastest_witness :
  LapQueries.getBestLapTime Fixtures.timingLastLap
  = Some {| Game.lapNumber := 1; Game.timeMs := 2000 |}
  /\ {| Game.lapNumber := 1; Game.timeMs := 2000 |}
     ∈ Game.lapTimes Fixtures.timingLastLap.
Proof.
  assert (Hbest : LapQueries.getBestLapTime Fixtures.timingLastLap
                  = Some {| Game.lapNumber := 1; Game.timeMs := 2000 |}).
  { unfold LapQueries.getBestLapTime, Fixtures.timingLastLap;
      cbn [Game.lapTimes fold_left Game.timeMs].
    rewrite decide_False by lra. reflexivity. }
  split; [exact Hbest |].
  apply (proj2 (getBestLapTime_fastest Fixtures.timingLastLap) _ Hbest).
Defined.

(** The three outcomes of a crossing. *)
Lemma processCheckpointCross_cases
  (progress : LapProgress) (timing : TimingState) (checkpoint : Checkpoint)
  (totalCheckpoints totalLaps : Z) (w : World) :
  LapTracker.processCheckpointCross progress timing checkpoint
    totalCheckpoints totalLaps w
  = (Outcome.ignored progress timing, w)
  \/ LapTracker.processCheckpointCross progress timing checkpoint
       totalCheckpoints totalLaps w
     = ({| LapTracker.Cross.progress := Game.createLapProgress;
           LapTracker.Cross.timing :=
             Outcome.lapCompleted timing (Host.reading w);
           LapTracker.Cross.raceFinished :=
             bool_decide (Game.currentLap timing >= totalLaps) |},
        Host.after_reading w)
  \/ (Track.index checkpoint <> 0
      /\ LapTracker.processCheckpointCross progress timing checkpoint
           totalCheckpoints totalLaps w
         = (Outcome.ignored
              {| Game.lastCheckpointIndex := Track.index checkpoint;
                 Game.checkpointsPassed :=
                   {[ Track.index checkpoint ]}
                   ∪ Game.checkpointsPassed progress |} timing, w)).
Proof.
  destruct (decide (Track.index checkpoint = 0)) as [Hzero | Hnz].
  - destruct (decide (0 < size (Outcome.missing totalCheckpoints progress))%nat)
      as [Hmissing | Hnone].
    + left. now apply processCheckpointCross_start_blocked.
    + right; left. apply processCheckpointCross_completes; [exact Hzero |].
      intros i Hi.
      destruct (decide (i ∈ Game.checkpointsPassed progress)) as [Hin | Hout];
        [exact Hin |].
      exfalso. apply Hnone.
      assert (Hi' : i ∈ Outcome.missing totalCheckpoints progress)
        by (now apply missing_elem).
      destruct (size (Outcome.missing totalCheckpoints progress)) eqn:Hsize;
        [| lia].
      apply size_empty_inv in Hsize. now apply Hsize in Hi'.
  - destruct (decide (Track.index checkpoint
                      ∈ Game.checkpointsPassed progress)) as [Hin | Hnot];
      [left; now apply processCheckpointCross_passed |].
    destruct (decide (Some (Track.index checkpoint)
                      = LapTracker.expectedNext progress totalCheckpoints))
      as [Hnext | Hother].
    + right; right. split; [exact Hnz |].
      now apply processCheckpointCross_next.
    + left. now apply processCheckpointCross_out_of_order.
Qed.

Lemma createLapProgress_well_formed :
  LapInvariant.well_formed Game.createLapProgress.
Proof.
  unfold LapInvariant.well_formed, Game.createLapProgress;
    cbn [Game.checkpointsPassed Game.lastCheckpointIndex].
  split; now apply elem_of_singleton.
Qed.

Lemma processCheckpointCross_well_formed
  (progress : LapProgress) (timing : TimingState) (checkpoint : Checkpoint)
  (totalCheckpoints totalLaps : Z) (w : World) :
  LapInvariant.well_formed progress ->
  LapInvariant.well_formed
    (LapTracker.Cross.progress
       (fst (LapTracker.processCheckpointCross progress timing checkpoint
               totalCheckpoints totalLaps w))).
Proof.
  intros [Hzero Hlast].
  destruct (processCheckpointCross_cases progress timing checkpoint
              totalCheckpoints totalLaps w) as [-> | [-> | [_ ->]]];
    cbn [fst]; cross_simpl.
  - now split.
  - apply createLapProgress_well_formed.
  - unfold LapInvariant.well_formed;
      cbn [Game.checkpointsPassed Game.lastCheckpointIndex].
    split; [now apply elem_of_union_r | apply elem_of_union_l].
    now apply elem_of_singleton.
Qed.

Lemma loop_well_formed (checkpoints : list Checkpoint) (oldPos newPos : Vec2)
  (totalLaps : Z) :
  forall (toVisit : list Checkpoint) (progress : LapProgress)
         (timing : TimingState) (raceFinished : bool) (w : World),
    LapInvariant.well_formed progress ->
    LapInvariant.well_formed
      (LapTracker.lapProgress
         (fst (LapTracker.updateLapProgress_loop toVisit checkpoints oldPos
                 newPos totalLaps progress timing raceFinished w))).
Proof.
  induction toVisit as [| c toVisit IH];
    intros progress timing raceFinished w Hwf; [exact Hwf |].
  destruct (LapTracker.crossesCheckpoint oldPos newPos c) eqn:Hcross.
  - rewrite loop_crossed by exact Hcross.
    pose proof (processCheckpointCross_well_formed progress timing c
                  (Z.of_nat (List.length checkpoints)) totalLaps w Hwf)
      as Hstep.
    destruct (LapTracker.processCheckpointCross _ _ _ _ _ _) as [result w'].
    now apply IH.
  - rewrite loop_missed by exact Hcross. now apply IH.
Qed.

(** The progress invariant: starting from a progress that has the
    start/finish line and its last checkpoint in the passed set (as
    [createLapProgress] builds it), every progress [updateLapProgress]
    returns has them too, whatever the track and the move. *)
Theorem updateLapProgress_well_formed
  (progress : LapProgress) (timing : TimingState)
  (checkpoints : list Checkpoint) (oldPos newPos : Vec2) (totalLaps : Z)
  (w : World) :
  LapInvariant.well_formed Game.createLapProgress
  /\ (LapInvariant.well_formed progress ->
      LapInvariant.well_formed
        (LapTracker.lapProgress
           (fst (LapTracker.updateLapProgress progress timing checkpoints
                   oldPos newPos totalLaps w)))).
Proof.
  split; [apply createLapProgress_well_formed |].
  intros Hwf. now apply loop_well_formed.
Qed.

Lemma updateLapProgress_well_formed_witness :
  LapInvariant.well_formed
    (LapTracker.lapProgress
       (fst (LapTracker.updateLapProgress Fixtures.initialProgress
               Fixtures.initialTiming Fixtures.checkpoints
               Fixtures.sweepFrom Fixtures.sweepTo 3
               (Fixtures.mockWorld 0)))).
Proof.
  apply (updateLapProgress_well_formed Fixtures.initialProgress
           Fixtures.initialTiming Fixtures.checkpoints Fixtures.sweepFrom
           Fixtures.sweepTo 3 (Fixtures.mockWorld 0)).
  exact createLapProgress_well_formed.
Defined.

(** From any point of the loop on, at most one lap is completed. *)
Lemma loop_at_most_one_lap (checkpoints : list Checkpoint)
  (oldPos newPos : Vec2) (totalLaps : Z) (timing : TimingState) (w : World) :
  forall (toVisit : list Checkpoint) (progress : LapProgress)
         (raceFinished : bool),
    (List.length toVisit <= List.length checkpoints)%nat ->
    let run :=
      LapTracker.updateLapProgress_loop toVisit checkpoints oldPos newPos
        totalLaps progress timing raceFinished w in
    (LapTracker.timing (fst run) = timing /\ snd run = w)
    \/ (LapTracker.timing (fst run)
        = Outcome.lapCompleted timing (Host.reading w)
        /\ snd run = Host.after_reading w).
Proof.
  induction toVisit as [| c toVisit IH]; intros progress raceFinished Hlen;
    [left; now split |].
  cbn [List.length] in Hlen. cbv zeta in *.
  destruct (LapTracker.crossesCheckpoint oldPos newPos c) eqn:Hcross.
  - rewrite loop_crossed by exact Hcross.
    destruct (processCheckpointCross_cases progress timing c
                (Z.of_nat (List.length checkpoints)) totalLaps w)
      as [-> | [-> | [_ ->]]]; cross_simpl.
    + apply IH. lia.
    + right.
      destruct (loop_no_completion checkpoints oldPos newPos totalLaps
                  (Outcome.lapCompleted timing (Host.reading w))
                  (Host.after_reading w) toVisit Game.createLapProgress
                  (bool_decide (Game.currentLap timing >= totalLaps)))
        as (progress' & f' & ->).
      { rewrite missing_after_reset. lia. }
      now split.
    + apply IH. lia.
  - rewrite loop_missed by exact Hcross. apply IH. lia.
Qed.

(** At most one lap a tick: [updateLapProgress] either leaves the timing
    and the clock as they are, or reads the clock exactly once and records
    exactly one lap, with [now - lapStartTime] as its time, [currentLap] as
    its number, and [now] as the start of the next lap.  The history is
    only ever appended to and [raceStartTime] never changes. *)
Theorem updateLapProgress_at_most_one_lap
  (progress : LapProgress) (timing : TimingState)
  (checkpoints : list Checkpoint) (oldPos newPos : Vec2) (totalLaps : Z)
  (w : World) :
  let run :=
    LapTracker.updateLapProgress progress timing checkpoints oldPos newPos
      totalLaps w in
  let now := Host.reading w in
  (LapTracker.timing (fst run) = timing /\ snd run = w)
  \/ (LapTracker.timing (fst run)
      = {| Game.raceStartTime := Game.raceStartTime timing;
           Game.lapStartTime := now;
           Game.lapTimes :=
             Game.lapTimes timing
             ++ [ {| Game.lapNumber := Game.currentLap timing;
                     Game.timeMs := (now - Game.lapStartTime timing)%R |} ];
           Game.currentLap := Game.currentLap timing + 1 |}
      /\ snd run = Host.after_reading w).
Proof.
  apply (loop_at_most_one_lap checkpoints oldPos newPos totalLaps timing w
           checkpoints progress false).
  lia.
Qed.

End LapInvariants.

(** * The fixed timestep *)
Section FixedTimestep.

(** [step] writes [this.state] and nothing else of the loop object. *)
Lemma step_keeps_schedule (this : GameLoop.GameLoop) (input : InputCommand)
  (w : World) :
  let this' := snd (fst (GameLoop.step this input w)) in
  GameLoop.running this' = GameLoop.running this
  /\ GameLoop.accumulator this' = GameLoop.accumulator this
  /\ GameLoop.lastTime this' = GameLoop.lastTime this
  /\ GameLoop.tickDuration this' = GameLoop.tickDuration this
  /\ GameLoop.physics this' = GameLoop.physics this
  /\ GameLoop.onStateChange this' = GameLoop.onStateChange this.
Proof.
  unfold GameLoop.step. case_decide as Hstatus; [cbn; tauto |].
  unfold Host.bind.
  destruct (LapTracker.updateLapProgress _ _ _ _ _ _ w) as [r w1].
  cbn [GameLoop.set_state GameLoop.state GameLoop.onStateChange].
  destruct (GameLoop.notify _ _ w1) as [u w2]. cbn. tauto.
Qed.

(** The whole number of ticks in a time that is not negative. *)
Lemma whole_ticks (x : R) : 0 <= x -> exists n : nat, INR n <= x < INR n + 1.
Proof.
  intros Hx. destruct (archimed x) as [Hup Hdown].
  assert (Hpos : (0 <= up x - 1)%Z).
  { assert (0 < up x)%Z by (apply lt_IZR; lra). lia. }
  exists (Z.to_nat (up x - 1)).
  rewrite INR_IZR_INZ, Z2Nat.id by exact Hpos.
  rewrite minus_IZR. lra.
Qed.

(** The drain loop ends after exactly the whole number of ticks the
    accumulator holds, given that much fuel; each iteration samples one
    input and takes one tick off the accumulator. *)
Lemma drain_runs (n : nat) :
  forall (fuel : nat) (this : GameLoop.GameLoop) (env : Scheduler.Env),
    0 < GameLoop.tickDuration this ->
    INR n * GameLoop.tickDuration this <= GameLoop.accumulator this
    < (INR n + 1) * GameLoop.tickDuration this ->
    (n <= fuel)%nat ->
    exists (this' : GameLoop.GameLoop) (env' : Scheduler.Env),
      Scheduler.drain fuel this env = Some (this', env')
      /\ GameLoop.accumulator this'
         = GameLoop.accumulator this - INR n * GameLoop.tickDuration this
      /\ GameLoop.tickDuration this' = GameLoop.tickDuration this
      /\ GameLoop.running this' = GameLoop.running this
      /\ GameLoop.lastTime this' = GameLoop.lastTime this
      /\ Scheduler.sampled env' = (Scheduler.sampled env + n)%nat
      /\ Scheduler.rendered env' = Scheduler.rendered env
      /\ Scheduler.requested env' = Scheduler.requested env
      /\ Scheduler.listening env' = Scheduler.listening env
      /\ Scheduler.cancelled env' = Scheduler.cancelled env
      /\ (n = 0%nat -> GameLoop.state this' = GameLoop.state this)
      /\ forall P : GameState -> Prop,
           (forall l i w, P (GameLoop.state l) ->
                          P (GameLoop.state (snd (fst (GameLoop.step l i w))))) ->
           P (GameLoop.state this) -> P (GameLoop.state this').
Proof.
  induction n as [| n IH]; intros fuel this env Htick Hacc Hfuel.
  - exists this, env. cbn [INR] in Hacc.
    destruct fuel; cbn [Scheduler.drain];
      (rewrite decide_False by lra); cbn [INR];
      (repeat split; try reflexivity; try lia; try lra; tauto).
  - destruct fuel as [| fuel]; [lia |]. rewrite S_INR in Hacc.
    assert (0 <= INR n) by apply pos_INR.
    cbn [Scheduler.drain]. rewrite decide_True by nra.
    unfold Scheduler.getInput.
    pose proof (step_keeps_schedule this
                  (Scheduler.inputs env (Scheduler.sampled env))
                  (Scheduler.world env)) as Hkeep.
    assert (Hpreserved : forall P : GameState -> Prop,
              (forall l i w, P (GameLoop.state l) ->
                 P (GameLoop.state (snd (fst (GameLoop.step l i w))))) ->
              P (GameLoop.state this) ->
              P (GameLoop.state
                   (snd (fst (GameLoop.step this
                                (Scheduler.inputs env (Scheduler.sampled env))
                                (Scheduler.world env))))))
      by (intros P HP; apply HP).
    cbn [Scheduler.world] in *.
    destruct (GameLoop.step this _ (Scheduler.world env)) as [[s1 this1] w1].
    cbn [fst snd] in *.
    destruct Hkeep as (Hrun & Hacc1 & Hlast & Htick1 & _ & _).
    edestruct (IH fuel
                 (Scheduler.set_schedule this1 (GameLoop.running this1)
                    (GameLoop.accumulator this1 - GameLoop.tickDuration this1)
                    (GameLoop.lastTime this1)))
      as (this' & env' & Hdrain & Hacc' & Htick' & Hrun' & Hlast' & Hsampled
          & Hrendered & Hrequested & Hlistening & Hcancelled & _ & Hkept);
      [| | | exists this', env'; split; [exact Hdrain |]].
    + cbn [Scheduler.set_schedule GameLoop.tickDuration]. lra.
    + cbn [Scheduler.set_schedule GameLoop.tickDuration GameLoop.accumulator].
      rewrite Hacc1, Htick1. lra.
    + lia.
    + cbn [Scheduler.set_schedule GameLoop.tickDuration GameLoop.accumulator
           GameLoop.running GameLoop.lastTime GameLoop.state
           Scheduler.set_world Scheduler.sampled Scheduler.rendered
           Scheduler.requested Scheduler.listening Scheduler.cancelled] in *.
      rewrite S_INR.
      split; [rewrite Hacc', Hacc1, Htick1; ring |].
      split; [congruence |]. split; [congruence |]. split; [congruence |].
      split; [lia |]. split; [congruence |]. split; [congruence |].
      split; [congruence |]. split; [congruence |].
      split; [discriminate |].
      intros P HP Hthis. apply (Hkept P HP). now apply Hpreserved.
Qed.

(** One frame of a running loop, with what it keeps of the state. *)
Lemma frame_of_running_loop (this : Scheduler.Scheduled) (env : Scheduler.Env) :
  let tick := GameLoop.tickDuration (Scheduler.loop this) in
  GameLoop.running (Scheduler.loop this) = true ->
  0 < tick ->
  0 <= GameLoop.accumulator (Scheduler.loop this) ->
  GameLoop.lastTime (Scheduler.loop this)
  <= Host.reading (Scheduler.world env) ->
  exists n : nat,
    INR n * tick <= GameLoop.accumulator (Scheduler.loop this) + 0.25
    /\ (GameLoop.accumulator (Scheduler.loop this)
        + (Host.reading (Scheduler.world env)
           - GameLoop.lastTime (Scheduler.loop this)) / 1000 < tick ->
        n = 0%nat)
    /\ forall fuel : nat,
         (n <= fuel)%nat ->
         exists (this' : Scheduler.Scheduled) (env' : Scheduler.Env),
           Scheduler.loopFrame fuel this env = Some (this', env')
           /\ 0 <= GameLoop.accumulator (Scheduler.loop this') < tick
           /\ 0 <= GameLoop.accumulator (Scheduler.loop this') / tick < 1
           /\ Scheduler.rendered env'
              = Scheduler.rendered env
                ++ [(GameLoop.state (Scheduler.loop this'),
                     GameLoop.accumulator (Scheduler.loop this') / tick)]
           /\ Scheduler.sampled env' = (Scheduler.sampled env + n)%nat
           /\ Scheduler.animationFrameId this'
              = Some (S (Scheduler.requested env))
           /\ GameLoop.lastTime (Scheduler.loop this')
              = Host.reading (Scheduler.world env)
           /\ GameLoop.running (Scheduler.loop this') = true
           /\ Scheduler.listening env' = Scheduler.listening env
           /\ Scheduler.cancelled env' = Scheduler.cancelled env
           /\ Scheduler.requested env' = S (Scheduler.requested env)
           /\ (GameLoop.accumulator (Scheduler.loop this)
               + (Host.reading (Scheduler.world env)
                  - GameLoop.lastTime (Scheduler.loop this)) / 1000 < tick ->
               GameLoop.state (Scheduler.loop this')
               = GameLoop.state (Scheduler.loop this))
           /\ forall P : GameState -> Prop,
                (forall l i w, P (GameLoop.state l) ->
                   P (GameLoop.state (snd (fst (GameLoop.step l i w))))) ->
                P (GameLoop.state (Scheduler.loop this)) ->
                P (GameLoop.state (Scheduler.loop this')).
Proof.
  intros tick Hrunning Htick Hacc Hclock.
  set (frameTime :=
         Rmin ((Host.reading (Scheduler.world env)
                - GameLoop.lastTime (Scheduler.loop this)) / 1000) 0.25).
  assert (Hframe : 0 <= frameTime <= 0.25).
  { unfold frameTime. split; [apply Rmin_glb; lra | apply Rmin_r]. }
  set (this1 :=
         Scheduler.set_schedule (Scheduler.loop this) true
           (GameLoop.accumulator (Scheduler.loop this) + frameTime)
           (Host.reading (Scheduler.world env))).
  assert (Hratio : 0 <= GameLoop.accumulator this1 / tick).
  { apply Rmult_le_pos; [cbn; lra | apply Rlt_le, Rinv_0_lt_compat, Htick]. }
  destruct (whole_ticks _ Hratio) as [n Hn].
  assert (Hback : GameLoop.accumulator this1 / tick * tick
                  = GameLoop.accumulator this1) by (field; lra).
  assert (Hwhole : INR n * tick <= GameLoop.accumulator this1
                   < (INR n + 1) * tick).
  { generalize dependent (GameLoop.accumulator this1 / tick).
    intros q _ Hq Hback. nra. }
  assert (Hnone0 : GameLoop.accumulator (Scheduler.loop this)
                   + (Host.reading (Scheduler.world env)
                      - GameLoop.lastTime (Scheduler.loop this)) / 1000 < tick ->
                   n = 0%nat).
  { intros Hshort.
    assert (Hlt : INR n < INR 1).
    { cbn [INR].
      pose proof (Rmin_l
        ((Host.reading (Scheduler.world env)
          - GameLoop.lastTime (Scheduler.loop this)) / 1000) 0.25) as Hmin.
      fold frameTime in Hmin.
      cbn [this1 Scheduler.set_schedule GameLoop.accumulator] in Hwhole.
      assert (0 <= INR n) by apply pos_INR. nra. }
    apply INR_lt in Hlt. lia. }
  exists n. split; [cbn in Hwhole; lra |]. split; [exact Hnone0 |].
  intros fuel Hfuel.
  destruct (drain_runs n fuel this1 (Scheduler.set_world env
                                       (Host.after_reading (Scheduler.world env)))
              Htick Hwhole Hfuel)
    as (this2 & env2 & Hdrain & Hacc2 & Htick2 & Hrun2 & Hlast2 & Hsampled
        & Hrendered & Hrequested & Hlistening & Hcancelled & Hnone & Hkept).
  unfold Scheduler.loopFrame. rewrite Hrunning. cbn [negb].
  unfold Scheduler.now, Host.performance_now. fold frameTime. fold this1.
  rewrite Hdrain. unfold Scheduler.requestAnimationFrame, Scheduler.render.
  cbn [Scheduler.requested].
  eexists _, _. split; [reflexivity |].
  cbn [Scheduler.loop Scheduler.animationFrameId Scheduler.rendered
       Scheduler.sampled].
  change (GameLoop.tickDuration this1) with tick in *.
  assert (Hleft : 0 <= GameLoop.accumulator this2 < tick)
    by (rewrite Hacc2; lra).
  assert (Halpha : GameLoop.accumulator this2 / tick * tick
                   = GameLoop.accumulator this2) by (field; lra).
  cbn [Scheduler.listening Scheduler.cancelled Scheduler.requested].
  rewrite Htick2, Hrendered, Hsampled, Hrequested, Hlast2, Hrun2, Hlistening,
    Hcancelled.
  cbn [Scheduler.set_world Scheduler.rendered Scheduler.sampled
       Scheduler.requested Scheduler.listening Scheduler.cancelled].
  split; [exact Hleft |].
  split.
  { generalize dependent (GameLoop.accumulator this2 / tick).
    intros alpha Halpha. split; nra. }
  repeat (split; [reflexivity |]).
  split; [| exact Hkept].
  intros Hshort. apply Hnone, Hnone0, Hshort.
Qed.


(** [step] neither reads nor writes the scheduling fields. *)
Lemma step_set_schedule (this : GameLoop.GameLoop) (running : bool)
  (accumulator lastTime : R) (input : InputCommand) (w : World) :
  GameLoop.step (Scheduler.set_schedule this running accumulator lastTime)
    input w
  = ((fst (fst (GameLoop.step this input w)),
      Scheduler.set_schedule (snd (fst (GameLoop.step this input w))) running
        accumulator lastTime),
     snd (GameLoop.step this input w)).
Proof.
  unfold GameLoop.step.
  cbn [Scheduler.set_schedule GameLoop.state GameLoop.physics
       GameLoop.tickDuration].
  case_decide as Hstatus; [reflexivity |].
  unfold Host.bind.
  destruct (LapTracker.updateLapProgress _ _ _ _ _ _ w) as [r w1].
  cbn [GameLoop.set_state GameLoop.state GameLoop.onStateChange
       GameLoop.physics GameLoop.tickDuration].
  destruct (GameLoop.notify _ _ w1) as [u w2]. reflexivity.
Qed.

Lemma stepAll_set_schedule (running : bool) (accumulator lastTime : R)
  (inputs : list InputCommand) :
  forall (this : GameLoop.GameLoop) (w : World),
    Script.stepAll (Scheduler.set_schedule this running accumulator lastTime)
      inputs w
    = ((fst (fst (Script.stepAll this inputs w)),
        Scheduler.set_schedule (snd (fst (Script.stepAll this inputs w)))
          running accumulator lastTime),
       snd (Script.stepAll this inputs w)).
Proof.
  induction inputs as [| input inputs IH]; intros this w; [reflexivity |].
  cbn [Script.stepAll]. unfold Host.bind.
  rewrite step_set_schedule.
  destruct (GameLoop.step this input w) as [[s1 this1] w1]. cbn [fst snd].
  rewrite IH.
  destruct (Script.stepAll this1 inputs w1) as [[states this2] w2].
  reflexivity.
Qed.

(** What the drain loop does to the game: it steps it through the inputs
    it samples, in the order it samples them. *)
Lemma drain_steps (fuel : nat) :
  forall (this this' : GameLoop.GameLoop) (env env' : Scheduler.Env),
    Scheduler.drain fuel this env = Some (this', env') ->
    exists n : nat,
      let run :=
        Script.stepAll this
          (map (Scheduler.inputs env) (seq (Scheduler.sampled env) n))
          (Scheduler.world env) in
      Scheduler.sampled env' = (Scheduler.sampled env + n)%nat
      /\ GameLoop.state this' = GameLoop.state (snd (fst run))
      /\ Scheduler.world env' = snd run.
Proof.
  induction fuel as [| fuel IH]; intros this this' env env' Hdrain;
    cbn [Scheduler.drain] in Hdrain; case_decide as Hfull;
    try discriminate.
  - injection Hdrain as <- <-. exists 0%nat.
    cbn [seq map Script.stepAll Host.ret fst snd]. split; [lia | tauto].
  - unfold Scheduler.getInput in Hdrain. cbn [Scheduler.world] in Hdrain.
    destruct (GameLoop.step this
                (Scheduler.inputs env (Scheduler.sampled env))
                (Scheduler.world env)) as [[s1 this1] w1] eqn:Hstep.
    cbn [fst snd] in Hdrain.
    apply IH in Hdrain. destruct Hdrain as (n & Hsampled & Hstate & Hworld).
    cbn [Scheduler.set_world Scheduler.sampled Scheduler.inputs
         Scheduler.world] in Hsampled, Hstate, Hworld.
    rewrite stepAll_set_schedule in Hstate, Hworld.
    cbn [fst snd Scheduler.set_schedule GameLoop.state] in Hstate, Hworld.
    exists (S n). cbn [seq map Script.stepAll]. unfold Host.bind.
    rewrite Hstep. cbn [fst snd].
    destruct (Script.stepAll this1 _ w1) as [[states this2] w2].
    cbn [fst snd Host.ret] in *.
    split; [lia | tauto].
  - injection Hdrain as <- <-. exists 0%nat.
    cbn [seq map Script.stepAll Host.ret fst snd]. split; [lia | tauto].
Qed.

(** The same for a whole frame, which reads the clock before it steps. *)
Lemma loopFrame_steps (fuel : nat) (this this' : Scheduler.Scheduled)
  (env env' : Scheduler.Env) :
  GameLoop.running (Scheduler.loop this) = true ->
  Scheduler.loopFrame fuel this env = Some (this', env') ->
  exists n : nat,
    let run :=
      Script.stepAll (Scheduler.loop this)
        (map (Scheduler.inputs env) (seq (Scheduler.sampled env) n))
        (Host.after_reading (Scheduler.world env)) in
    Scheduler.sampled env' = (Scheduler.sampled env + n)%nat
    /\ GameLoop.state (Scheduler.loop this') = GameLoop.state (snd (fst run))
    /\ Scheduler.world env' = snd run.
Proof.
  intros Hrunning Hframe. unfold Scheduler.loopFrame in Hframe.
  rewrite Hrunning in Hframe. cbn [negb] in Hframe.
  unfold Scheduler.now, Host.performance_now in Hframe.
  destruct (Scheduler.drain fuel _ _) as [[this2 env2] |] eqn:Hdrain;
    [| discriminate].
  unfold Scheduler.requestAnimationFrame, Scheduler.render in Hframe.
  injection Hframe as <- <-.
  apply drain_steps in Hdrain. destruct Hdrain as (n & Hsampled & Hstate & Hworld).
  cbn [Scheduler.set_world Scheduler.sampled Scheduler.inputs
       Scheduler.world] in Hsampled, Hstate, Hworld.
  rewrite stepAll_set_schedule in Hstate, Hworld.
  cbn [fst snd Scheduler.set_schedule GameLoop.state] in Hstate, Hworld.
  exists n.
  cbn [Scheduler.loop Scheduler.sampled Scheduler.world]. tauto.
Qed.

(** A frame of a running loop, with a positive tick, an accumulator that is
    not negative and a clock that did not go back since the last frame:
    the frame ends (given fuel for its ticks), having run the whole number
    [n] of ticks the accumulator held: it samples [n] inputs and the game
    it leaves is the game stepped through these inputs, in order, from the
    old state, in the world left by the clock reading that opens the
    frame.  The accumulator it leaves is in [0, tick), so the interpolation
    factor it renders with is in [0, 1); it renders that game once and
    requests one next frame.  Since the frame time is capped at 0.25 s,
    [n] ticks fit in the accumulator plus 0.25. *)
Theorem loopFrame_runs (this : Scheduler.Scheduled) (env : Scheduler.Env) :
  let tick := GameLoop.tickDuration (Scheduler.loop this) in
  GameLoop.running (Scheduler.loop this) = true ->
  0 < tick ->
  0 <= GameLoop.accumulator (Scheduler.loop this) ->
  GameLoop.lastTime (Scheduler.loop this)
  <= Host.reading (Scheduler.world env) ->
  exists n : nat,
    INR n * tick <= GameLoop.accumulator (Scheduler.loop this) + 0.25
    /\ forall fuel : nat,
         (n <= fuel)%nat ->
         exists (this' : Scheduler.Scheduled) (env' : Scheduler.Env),
           let ticks :=
             Script.stepAll (Scheduler.loop this)
               (map (Scheduler.inputs env) (seq (Scheduler.sampled env) n))
               (Host.after_reading (Scheduler.world env)) in
           Scheduler.loopFrame fuel this env = Some (this', env')
           /\ GameLoop.state (Scheduler.loop this')
              = GameLoop.state (snd (fst ticks))
           /\ Scheduler.world env' = snd ticks
           /\ 0 <= GameLoop.accumulator (Scheduler.loop this') < tick
           /\ 0 <= GameLoop.accumulator (Scheduler.loop this') / tick < 1
           /\ Scheduler.rendered env'
              = Scheduler.rendered env
                ++ [(GameLoop.state (Scheduler.loop this'),
                     GameLoop.accumulator (Scheduler.loop this') / tick)]
           /\ Scheduler.sampled env' = (Scheduler.sampled env + n)%nat
           /\ Scheduler.animationFrameId this'
              = Some (S (Scheduler.requested env))
           /\ GameLoop.lastTime (Scheduler.loop this')
              = Host.reading (Scheduler.world env).
Proof.
  intros tick Hrunning Htick Hacc Hclock.
  destruct (frame_of_running_loop this env Hrunning Htick Hacc Hclock)
    as (n & Hcap & _ & Hframe).
  exists n. split; [exact Hcap |]. intros fuel Hfuel.
  destruct (Hframe fuel Hfuel)
    as (this' & env' & Hsome & Hleft & Halpha & Hrendered & Hsampled & Hid
        & Hlast & _).
  destruct (loopFrame_steps fuel this this' env env' Hrunning Hsome)
    as (k & Hk & Hstate & Hworld).
  assert (k = n) by lia. subst k.
  exists this', env'. cbv zeta in *. tauto.
Qed.

Lemma loopFrame_runs_witness :
  exists (this' : Scheduler.Scheduled) (env' : Scheduler.Env),
    Scheduler.loopFrame 15 FrameFixtures.scheduled FrameFixtures.env
    = Some (this', env')
    /\ GameLoop.state (Scheduler.loop this') = Fixtures.finishedState.
Proof.
  destruct (loopFrame_runs FrameFixtures.scheduled FrameFixtures.env)
    as (n & Hn & Hframe).
  - reflexivity.
  - cbn. unfold Config.TICK_DURATION. lra.
  - cbn. lra.
  - cbn. unfold Host.reading. cbn. lra.
  - assert (Hfuel : (n <= 15)%nat).
    { apply INR_le. rewrite (INR_IZR_INZ 15). change (Z.of_nat 15) with 15%Z.
      cbn [FrameFixtures.scheduled Scheduler.loop Fixtures.finishedLoop
           GameLoop.tickDuration GameLoop.accumulator] in Hn.
      unfold Config.TICK_DURATION in Hn. lra. }
    destruct (Hframe 15%nat Hfuel) as (this' & env' & Hsome & Hstate & _).
    exists this', env'. split; [exact Hsome |].
    rewrite Hstate, stepAll_idle; [reflexivity | discriminate].
Defined.

End FixedTimestep.

(** * Stepping the game *)
Section Stepping.
#[local] Open Scope Z_scope.

(** The state a racing step assembles. *)
Lemma step_racing_unfold (loop : GameLoop.GameLoop) (input : InputCommand)
  (w : World) :
  Game.status (GameLoop.state loop) = Game.racing ->
  let s := GameLoop.state loop in
  let newCar :=
    PhysicsEngine.update (GameLoop.physics loop) (Game.car s) input
      (GameLoop.tickDuration loop) in
  let lap :=
    LapTracker.updateLapProgress (Game.lapProgress s) (Game.timing s)
      (Track.checkpoints (Game.track s)) (Car.position (Game.car s))
      (Car.position newCar) (Game.totalLaps s) w in
  let s' :=
    {| Game.status :=
         if LapTracker.raceFinished (fst lap) then Game.finished
         else Game.racing;
       Game.car := newCar;
       Game.track := Game.track s;
       Game.lapProgress := LapTracker.lapProgress (fst lap);
       Game.timing := LapTracker.timing (fst lap);
       Game.totalLaps := Game.totalLaps s;
       Game.tick := Game.tick s + 1 |} in
  GameLoop.step loop input w
  = ((s', GameLoop.set_state loop s'),
     snd (GameLoop.notify (GameLoop.onStateChange loop) s' (snd lap))).
Proof.
  intros Hracing. cbv zeta. unfold GameLoop.step.
  rewrite decide_False by (rewrite Hracing; intros Hne; now apply Hne).
  unfold Host.bind.
  destruct (LapTracker.updateLapProgress _ _ _ _ _ _ w) as [r w1].
  cbn [fst snd GameLoop.set_state GameLoop.state GameLoop.onStateChange
       Game.updateGameState Game.status_opt Game.car_opt Game.track_opt
       Game.lapProgress_opt Game.timing_opt Game.totalLaps_opt Game.tick_opt
       default from_option].
  unfold Datatypes.id.
  destruct (GameLoop.notify _ _ w1) as [[] w2]. reflexivity.
Qed.

(** A racing step: the tick goes up by one; the car is the one the engine
    returns for the tick duration; the track and the number of laps stay;
    the status becomes 'finished' exactly when the lap tracker signals it
    and is 'racing' otherwise; the loop object holds the state returned;
    and the recording observer is given exactly that state, once. *)
Theorem step_racing (loop : GameLoop.GameLoop) (input : InputCommand)
  (w : World) :
  Game.status (GameLoop.state loop) = Game.racing ->
  let s := GameLoop.state loop in
  let run := GameLoop.step loop input w in
  let s' := fst (fst run) in
  let newCar :=
    PhysicsEngine.update (GameLoop.physics loop) (Game.car s) input
      (GameLoop.tickDuration loop) in
  let lap :=
    LapTracker.updateLapProgress (Game.lapProgress s) (Game.timing s)
      (Track.checkpoints (Game.track s)) (Car.position (Game.car s))
      (Car.position newCar) (Game.totalLaps s) w in
  Game.tick s' = Game.tick s + 1
  /\ Game.car s' = newCar
  /\ Game.track s' = Game.track s
  /\ Game.totalLaps s' = Game.totalLaps s
  /\ (Game.status s' = Game.finished
      <-> LapTracker.raceFinished (fst lap) = true)
  /\ (Game.status s' = Game.racing
      <-> LapTracker.raceFinished (fst lap) = false)
  /\ GameLoop.state (snd (fst run)) = s'
  /\ (GameLoop.onStateChange loop = Some GameLoop.recordState ->
      Host.observed (snd run) = Host.observed (snd lap) ++ [s'])
  /\ (GameLoop.onStateChange loop = None -> snd run = snd lap).
Proof.
  intros Hracing. cbv zeta.
  rewrite (step_racing_unfold loop input w Hracing). cbn [fst snd].
  cbn [Game.tick Game.car Game.track Game.totalLaps Game.status
       GameLoop.set_state GameLoop.state].
  repeat (split; [reflexivity |]).
  split; [destruct (LapTracker.raceFinished _); split; congruence |].
  split; [destruct (LapTracker.raceFinished _); split; congruence |].
  split; [reflexivity |].
  split; intros ->; reflexivity.
Qed.

(** What any step keeps, whether it races or not. *)
Lemma step_invariants (loop : GameLoop.GameLoop) (input : InputCommand)
  (w : World) :
  let s := GameLoop.state loop in
  let run := GameLoop.step loop input w in
  let s' := GameLoop.state (snd (fst run)) in
  fst (fst run) = s'
  /\ Game.track s' = Game.track s
  /\ Game.totalLaps s' = Game.totalLaps s
  /\ Game.tick s <= Game.tick s' <= Game.tick s + 1
  /\ (Game.status s <> Game.countdown -> Game.status s' <> Game.countdown)
  /\ (Game.status s = Game.finished -> Game.status s' = Game.finished)
  /\ (LapInvariant.well_formed (Game.lapProgress s) ->
      LapInvariant.well_formed (Game.lapProgress s'))
  /\ (List.length (Game.lapTimes (Game.timing s))
      <= List.length (Game.lapTimes (Game.timing s'))
      <= List.length (Game.lapTimes (Game.timing s)) + 1)%nat.
Proof.
  cbv zeta.
  destruct (decide (Game.status (GameLoop.state loop) = Game.racing))
    as [Hracing | Hidle].
  - rewrite (step_racing_unfold loop input w Hracing). cbn [fst snd].
    cbn [GameLoop.set_state GameLoop.state Game.tick Game.track
         Game.totalLaps Game.status Game.lapProgress Game.timing].
    split; [reflexivity |]. split; [reflexivity |]. split; [reflexivity |].
    split; [lia |].
    split; [intros _; destruct (LapTracker.raceFinished _); discriminate |].
    split; [rewrite Hracing; discriminate |].
    split; [intros Hwf; now apply loop_well_formed |].
    unfold LapTracker.updateLapProgress.
    destruct (loop_at_most_one_lap
                (Track.checkpoints (Game.track (GameLoop.state loop)))
                (Car.position (Game.car (GameLoop.state loop)))
                (Car.position
                   (PhysicsEngine.update (GameLoop.physics loop)
                      (Game.car (GameLoop.state loop)) input
                      (GameLoop.tickDuration loop)))
                (Game.totalLaps (GameLoop.state loop))
                (Game.timing (GameLoop.state loop)) w
                (Track.checkpoints (Game.track (GameLoop.state loop)))
                (Game.lapProgress (GameLoop.state loop)) false
                (Nat.le_refl _))
      as [[-> _] | [-> _]].
    + lia.
    + unfold Outcome.lapCompleted. cbn [Game.lapTimes].
      rewrite length_app. cbn [List.length]. lia.
  - rewrite step_idle by exact Hidle. cbn [fst snd].
    split; [reflexivity |]. split; [reflexivity |]. split; [reflexivity |].
    split; [lia |]. split; [tauto |]. split; [tauto |]. split; [tauto | lia].
Qed.

(** Along any scripted run: one state is returned for each input; the
    track and the number of laps never change; the tick never goes back
    and advances by at most one an input; a game that left the countdown
    never returns to it and a finished game stays finished; the progress
    invariant is kept; and at most one lap is recorded an input. *)
Theorem stepAll_invariants (inputs : list InputCommand) :
  forall (loop : GameLoop.GameLoop) (w : World),
    let s := GameLoop.state loop in
    let run := Script.stepAll loop inputs w in
    let s' := GameLoop.state (snd (fst run)) in
    List.length (fst (fst run)) = List.length inputs
    /\ Game.track s' = Game.track s
    /\ Game.totalLaps s' = Game.totalLaps s
    /\ Game.tick s <= Game.tick s' <= Game.tick s + Z.of_nat (List.length inputs)
    /\ (Game.status s <> Game.countdown -> Game.status s' <> Game.countdown)
    /\ (Game.status s = Game.finished -> Game.status s' = Game.finished)
    /\ (LapInvariant.well_formed (Game.lapProgress s) ->
        LapInvariant.well_formed (Game.lapProgress s'))
    /\ (List.length (Game.lapTimes (Game.timing s))
        <= List.length (Game.lapTimes (Game.timing s'))
        <= List.length (Game.lapTimes (Game.timing s))
           + List.length inputs)%nat.
Proof.
  induction inputs as [| input inputs IH]; intros loop w; cbv zeta.
  - cbn [Script.stepAll Host.ret fst snd List.length].
    split; [reflexivity |]. split; [reflexivity |]. split; [reflexivity |].
    split; [lia |]. split; [tauto |]. split; [tauto |]. split; [tauto | lia].
  - cbn [Script.stepAll]. unfold Host.bind.
    pose proof (step_invariants loop input w) as Hstep. cbv zeta in Hstep.
    destruct (GameLoop.step loop input w) as [[s1 loop1] w1].
    cbn [fst snd] in *.
    specialize (IH loop1 w1). cbv zeta in IH.
    destruct (Script.stepAll loop1 inputs w1) as [[states loop2] w2].
    cbn [fst snd Host.ret] in *.
    destruct Hstep as (_ & Htrack & Hlaps & Htick & Hcount & Hfin & Hwf & Hlen).
    destruct IH as (Hn & Htrack' & Hlaps' & Htick' & Hcount' & Hfin' & Hwf'
                    & Hlen').
    cbn [List.length].
    split; [now rewrite Hn |]. split; [congruence |]. split; [congruence |].
    split; [lia |]. split; [tauto |]. split; [tauto |]. split; [tauto | lia].
Qed.

End Stepping.

Section SteppingRuns.

Lemma step_racing_witness :
  let racingLoop :=
    GameLoop.set_state Fixtures.finishedLoop
      (Game.updateGameState Fixtures.finishedState
         {| Game.status_opt := Some Game.racing; Game.car_opt := None;
            Game.track_opt := None; Game.lapProgress_opt := None;
            Game.timing_opt := None; Game.totalLaps_opt := None;
            Game.tick_opt := None |}) in
  Game.tick (fst (fst (GameLoop.step racingLoop Fixtures.fullThrottle
                         (Fixtures.mockWorld 5000))))
  = 1%Z.
Proof.
  cbv zeta.
  apply (step_racing
           (GameLoop.set_state Fixtures.finishedLoop
              (Game.updateGameState Fixtures.finishedState
                 {| Game.status_opt := Some Game.racing; Game.car_opt := None;
                    Game.track_opt := None; Game.lapProgress_opt := None;
                    Game.timing_opt := None; Game.totalLaps_opt := None;
                    Game.tick_opt := None |}))
           Fixtures.fullThrottle (Fixtures.mockWorld 5000)).
  reflexivity.
Defined.

Lemma stepAll_invariants_witness :
  Game.status
    (GameLoop.state
       (snd (fst (Script.stepAll Fixtures.finishedLoop
                    [Fixtures.fullThrottle; Fixtures.fullThrottle]
                    (Fixtures.mockWorld 5000)))))
  = Game.finished.
Proof.
  apply (stepAll_invariants [Fixtures.fullThrottle; Fixtures.fullThrottle]
           Fixtures.finishedLoop (Fixtures.mockWorld 5000)).
  reflexivity.
Defined.

End SteppingRuns.

(** * The camera *)
Section CameraProperties.

(** With a zoom other than 0, [screenToWorld] undoes [worldToScreen] and
    [worldToScreen] undoes [screenToWorld]; the camera position is drawn at
    the centre of the screen. *)
Theorem camera_round_trip (camera : Camera.CameraState)
  (screenWidth screenHeight : R) (point : Vec2) :
  Camera.zoom camera <> 0 ->
  Camera.screenToWorld
    (Camera.worldToScreen point camera screenWidth screenHeight)
    camera screenWidth screenHeight = point
  /\ Camera.worldToScreen
       (Camera.screenToWorld point camera screenWidth screenHeight)
       camera screenWidth screenHeight = point
  /\ Camera.worldToScreen (Camera.position camera) camera screenWidth
       screenHeight
     = vec2 (screenWidth / 2) (screenHeight / 2).
Proof.
  intros Hzoom. destruct point as [px py].
  unfold Camera.screenToWorld, Camera.worldToScreen; proj_simpl.
  repeat split; f_equal; field; exact Hzoom.
Qed.

Lemma camera_round_trip_witness :
  Camera.zoom (Camera.createCameraState (vec2 600 400)) <> 0
  /\ Camera.screenToWorld
       (Camera.worldToScreen (vec2 10 20)
          (Camera.createCameraState (vec2 600 400)) 1200 800)
       (Camera.createCameraState (vec2 600 400)) 1200 800
     = vec2 10 20.
Proof.
  assert (Hzoom : Camera.zoom (Camera.createCameraState (vec2 600 400)) <> 0)
    by (unfold Camera.createCameraState, Camera.DEFAULT_ZOOM;
        cbn [Camera.zoom]; lra).
  split; [exact Hzoom |].
  apply (camera_round_trip (Camera.createCameraState (vec2 600 400))
           1200 800 (vec2 10 20) Hzoom).
Defined.

(** Each [updateCamera] keeps the zoom and multiplies the distance of the
    camera to its target by [|1 - smoothing|]; following a target that
    stays in place for [n] frames leaves [|1 - smoothing|^n] of the
    distance. *)
Theorem camera_follow_converges (camera : Camera.CameraState)
  (target : Vec2) (smoothing : R) (n : nat) :
  let camera' := Camera.follow camera (replicate n target) smoothing in
  VecOps.distance (Camera.position camera') target
  = Rabs (1 - smoothing) ^ n
    * VecOps.distance (Camera.position camera) target
  /\ Camera.zoom camera' = Camera.zoom camera.
Proof.
  revert camera. induction n as [| n IH]; intros camera;
    cbn [replicate Camera.follow pow].
  - split; [ring | reflexivity].
  - destruct (IH (Camera.updateCamera camera target smoothing))
      as [Hdist Hzoom].
    cbv zeta. rewrite Hdist, Hzoom.
    unfold Camera.updateCamera; cbn [Camera.position Camera.zoom].
    rewrite distance_lerp_end. split; [ring | reflexivity].
Qed.

End CameraProperties.

(** * The keyboard *)
Section KeyboardProperties.

Context {C : Type}.

(** The command read from the keyboard needs no clamping: throttle and
    brake are 0 or 1 and steering is -1, 0 or 1, so [createInputCommand]
    leaves it as it is; left and right held together (or neither) steer
    straight; and after [stop] the command is [INPUT_NONE]. *)
Theorem keyboard_getInput_in_range (this : Keyboard.KeyboardInput C) :
  let command := Keyboard.getInput this in
  Input.createInputCommand (Input.throttle command) (Input.brake command)
    (Input.steering command) = command
  /\ (Keyboard.left (Keyboard.keys this) = Keyboard.right (Keyboard.keys this)
      -> Input.steering command = 0)
  /\ Keyboard.getInput (Keyboard.stop this) = Input.INPUT_NONE.
Proof.
  destruct this as [[up down left right] callback listening].
  unfold Keyboard.getInput, Input.createInputCommand, Input.INPUT_NONE;
    cbn [Keyboard.keys Keyboard.up Keyboard.down Keyboard.left Keyboard.right
         Input.throttle Input.brake Input.steering Keyboard.stop
         Keyboard.resetKeys Keyboard.with_keys Keyboard.released].
  split; [| split].
  - destruct up, down, left, right; f_equal; split_cases; lra.
  - intros ->. destruct right; lra.
  - reflexivity.
Qed.

Lemma mapKey_restart : Keyboard.mapKey "KeyR" = None.
Proof. reflexivity. Qed.

Lemma get_set_key (state : Keyboard.KeyState) (key key' : Keyboard.Key)
  (value : bool) :
  Keyboard.get_key (Keyboard.set_key state key' value) key
  = match key, key' with
    | Keyboard.Up, Keyboard.Up | Keyboard.Down, Keyboard.Down
    | Keyboard.Left, Keyboard.Left | Keyboard.Right, Keyboard.Right => value
    | _, _ => Keyboard.get_key state key
    end.
Proof. destruct key, key'; reflexivity. Qed.

Context `{Keyboard.Callback C}.

(** One event, seen from one key, when every callback restarts the game
    loop. *)
Lemma deliver_key (this : Keyboard.KeyboardInput C)
  (event : Keyboard.KeyEvent) (key : Keyboard.Key) :
  (forall callback keyboard,
     Keyboard.call callback keyboard
     = Keyboard.start (Keyboard.stop keyboard)) ->
  Keyboard.listening this = true ->
  Keyboard.get_key (Keyboard.keys (Keyboard.after (Keyboard.deliver this event)))
    key
  = (if Keyboard.relevant this key event
     then Keyboard.concerns key event && Keyboard.is_down event
     else Keyboard.get_key (Keyboard.keys this) key)
  /\ Keyboard.listening (Keyboard.after (Keyboard.deliver this event)) = true
  /\ Keyboard.onRestartCallback (Keyboard.after (Keyboard.deliver this event))
     = Keyboard.onRestartCallback this
  /\ Keyboard.called (Keyboard.deliver this event)
     = (if Keyboard.is_restart event then Keyboard.onRestartCallback this
        else None).
Proof.
  intros Hrestart Hon. unfold Keyboard.deliver. rewrite Hon.
  destruct event as [code | code];
    unfold Keyboard.onKeyDown, Keyboard.onKeyUp, Keyboard.relevant,
      Keyboard.concerns, Keyboard.is_down, Keyboard.is_restart,
      Keyboard.registered.
  - destruct (String.eqb code "KeyR") eqn:Hcode.
    + apply String.eqb_eq in Hcode. subst code.
      rewrite mapKey_restart. cbn [Keyboard.after Keyboard.called orb andb].
      destruct (Keyboard.onRestartCallback this) as [callback |] eqn:Hcb;
        [| tauto].
      rewrite Hrestart.
      cbn [Keyboard.start Keyboard.stop Keyboard.resetKeys Keyboard.with_keys
           Keyboard.keys Keyboard.listening Keyboard.onRestartCallback].
      split; [now destruct key | tauto].
    + rewrite andb_false_l, orb_false_r.
      destruct (Keyboard.mapKey code) as [key' |];
        cbn [Keyboard.after Keyboard.with_keys Keyboard.keys
             Keyboard.listening Keyboard.onRestartCallback Keyboard.called];
        [rewrite get_set_key; destruct key, key' |]; tauto.
  - rewrite andb_false_l, orb_false_r.
    destruct (Keyboard.mapKey code) as [key' |];
      cbn [Keyboard.after Keyboard.with_keys Keyboard.keys
           Keyboard.listening Keyboard.onRestartCallback Keyboard.called];
      [rewrite get_set_key; destruct key, key' |]; tauto.
Qed.

Lemma deliverAll_snoc (this : Keyboard.KeyboardInput C)
  (events : list Keyboard.KeyEvent) (event : Keyboard.KeyEvent) :
  Keyboard.deliverAll this (events ++ [event])
  = (Keyboard.after
       (Keyboard.deliver (fst (Keyboard.deliverAll this events)) event),
     snd (Keyboard.deliverAll this events)
     ++ match Keyboard.called
                (Keyboard.deliver (fst (Keyboard.deliverAll this events))
                   event)
        with
        | Some callback => [callback]
        | None => []
        end).
Proof. unfold Keyboard.deliverAll. now rewrite fold_left_app. Qed.

(** Last event wins, key by key, and the restart key lets go of every
    key.  When every callback restarts the game loop, as the one [main]
    registers does, then after any sequence of events delivered to a
    listening keyboard a direction is held exactly when the last relevant
    event was a press of one of its two keys (letter or arrow); the
    relevant events are those on its two keys and, once a callback is
    registered, the presses of the restart key, which stop and start the
    keyboard and so release all four directions.  With no relevant event
    the direction is as it was.  The keyboard is still listening, and the
    callback was called once for every press of the restart key. *)
Theorem keyboard_last_event_wins (this : Keyboard.KeyboardInput C)
  (events : list Keyboard.KeyEvent) (key : Keyboard.Key) :
  (forall callback keyboard,
     Keyboard.call callback keyboard
     = Keyboard.start (Keyboard.stop keyboard)) ->
  Keyboard.listening this = true ->
  let run := Keyboard.deliverAll this events in
  Keyboard.get_key (Keyboard.keys (fst run)) key
  = match
      last (filter (fun e => Keyboard.relevant this key e = true) events)
    with
    | Some event => Keyboard.concerns key event && Keyboard.is_down event
    | None => Keyboard.get_key (Keyboard.keys this) key
    end
  /\ Keyboard.listening (fst run) = true
  /\ Keyboard.onRestartCallback (fst run) = Keyboard.onRestartCallback this
  /\ snd run
     = flat_map
         (fun e =>
            if Keyboard.is_restart e
            then match Keyboard.onRestartCallback this with
                 | Some callback => [callback]
                 | None => []
                 end
            else [])
         events.
Proof.
  intros Hrestart Hon. cbv zeta.
  induction events as [| event events IH] using rev_ind.
  - split; [reflexivity |]. split; [exact Hon |]. split; reflexivity.
  - destruct IH as (IHkey & IHon & IHcb & IHcalls). rewrite deliverAll_snoc.
    cbn [fst snd].
    destruct (deliver_key (fst (Keyboard.deliverAll this events)) event key
                Hrestart IHon)
      as (Hkey & Hon' & Hcb & Hcalled).
    assert (Hrel : Keyboard.relevant (fst (Keyboard.deliverAll this events))
                     key event
                   = Keyboard.relevant this key event)
      by (unfold Keyboard.relevant, Keyboard.registered; now rewrite IHcb).
    rewrite Hrel in Hkey.
    split; [| split; [exact Hon' | split; [congruence |]]].
    + rewrite Hkey, filter_app.
      destruct (Keyboard.relevant this key event) eqn:Hrelevant.
      * rewrite filter_cons_True by exact Hrelevant.
        rewrite filter_nil, last_snoc. reflexivity.
      * rewrite filter_cons_False by (rewrite Hrelevant; discriminate).
        rewrite filter_nil, app_nil_r. exact IHkey.
    + rewrite Hcalled, IHcalls, IHcb, flat_map_app.
      cbn [flat_map]. rewrite app_nil_r.
      now destruct (Keyboard.is_restart event).
Qed.

End KeyboardProperties.

Section KeyboardRuns.

Lemma keyboard_getInput_in_range_witness :
  Input.steering
    (Keyboard.getInput
       {| Keyboard.keys :=
            {| Keyboard.up := true; Keyboard.down := false;
               Keyboard.left := true; Keyboard.right := true |};
          Keyboard.onRestartCallback := @None unit;
          Keyboard.listening := true |})
  = 0.
Proof.
  apply (keyboard_getInput_in_range
           {| Keyboard.keys :=
                {| Keyboard.up := true; Keyboard.down := false;
                   Keyboard.left := true; Keyboard.right := true |};
              Keyboard.onRestartCallback := @None unit;
              Keyboard.listening := true |}).
  reflexivity.
Defined.

Lemma keyboard_last_event_wins_witness :
  Keyboard.get_key
    (Keyboard.keys
       (fst (Keyboard.deliverAll Main.inputSource
               [Keyboard.KeyDown "KeyW"; Keyboard.KeyDown "KeyR";
                Keyboard.KeyDown "ArrowLeft"])))
    Keyboard.Up
  = false.
Proof.
  apply (keyboard_last_event_wins Main.inputSource
           [Keyboard.KeyDown "KeyW"; Keyboard.KeyDown "KeyR";
            Keyboard.KeyDown "ArrowLeft"] Keyboard.Up).
  - reflexivity.
  - reflexivity.
Defined.

End KeyboardRuns.

(** * The oval boundary *)
Section OvalBoundary.

Variables (centerX centerY radiusX radiusY : R) (segments : nat).

Lemma ovalPoints_at (i : nat) :
  (i < segments)%nat ->
  Collision.at_index
    (map (TrackLoader.ovalPoint centerX centerY radiusX radiusY segments)
         (seq 0 segments)) i
  = TrackLoader.ovalPoint centerX centerY radiusX radiusY segments i.
Proof.
  intros Hi. unfold Collision.at_index.
  change (map ?f ?l) with (f <$> l).
  rewrite list_lookup_fmap, lookup_seq_lt by exact Hi. reflexivity.
Qed.

Lemma createOvalBoundary_lookup (i : nat) (segment : LineSegment) :
  TrackLoader.createOvalBoundary centerX centerY radiusX radiusY segments
  !! i = Some segment ->
  (i < segments)%nat
  /\ segment
     = Track.createLineSegment
         (TrackLoader.ovalPoint centerX centerY radiusX radiusY segments i)
         (TrackLoader.ovalPoint centerX centerY radiusX radiusY segments
            ((i + 1) mod segments)).
Proof.
  unfold TrackLoader.createOvalBoundary. cbv zeta.
  change (map ?f (seq 0 segments)) with (f <$> seq 0 segments) at 1.
  rewrite list_lookup_fmap. intros Hsome.
  destruct (seq 0 segments !! i) as [j |] eqn:Hseq; [| discriminate].
  apply lookup_seq in Hseq as [-> Hi]. cbn [fmap option_fmap option_map] in Hsome.
  injection Hsome as <-. split; [exact Hi |].
  assert (Hnext : ((i + 1) mod segments < segments)%nat)
    by (apply Nat.mod_upper_bound; lia).
  cbn [Nat.add].
  rewrite (ovalPoints_at i) by exact Hi.
  rewrite (ovalPoints_at ((i + 1) mod segments)) by exact Hnext.
  now destruct (TrackLoader.ovalPoint _ _ _ _ _ i),
    (TrackLoader.ovalPoint _ _ _ _ _ ((i + 1) mod segments)).
Qed.

(** [createOvalBoundary] returns a closed chain of [segments] segments on
    the ellipse: every segment starts on the ellipse with the given centre
    and radii, and ends where the next segment starts, the last one where
    the first one starts; with 0 segments the boundary is empty. *)
Theorem createOvalBoundary_closed :
  let boundary :=
    TrackLoader.createOvalBoundary centerX centerY radiusX radiusY segments in
  List.length boundary = segments
  /\ forall (i : nat) (segment : LineSegment),
       boundary !! i = Some segment ->
       (Vec.x (Track.start segment) - centerX)
       * (Vec.x (Track.start segment) - centerX) * (radiusY * radiusY)
       + (Vec.y (Track.start segment) - centerY)
         * (Vec.y (Track.start segment) - centerY) * (radiusX * radiusX)
       = radiusX * radiusX * (radiusY * radiusY)
       /\ exists next : LineSegment,
            boundary !! ((i + 1) mod segments) = Some next
            /\ Track.end_ segment = Track.start next.
Proof.
  cbv zeta. split.
  - unfold TrackLoader.createOvalBoundary. cbv zeta.
    now rewrite length_map, length_seq.
  - intros i segment Hsome.
    destruct (createOvalBoundary_lookup i segment Hsome) as [Hi ->].
    split.
    + unfold TrackLoader.ovalPoint; cbv zeta; proj_simpl.
      pose proof (unit_heading (INR i / INR segments * PI * 2)) as Hunit.
      generalize dependent (cos (INR i / INR segments * PI * 2)).
      generalize dependent (sin (INR i / INR segments * PI * 2)).
      intros s c Hunit.
      replace ((centerX + c * radiusX - centerX)
               * (centerX + c * radiusX - centerX) * (radiusY * radiusY)
               + (centerY + s * radiusY - centerY)
                 * (centerY + s * radiusY - centerY) * (radiusX * radiusX))
        with (radiusX * radiusX * (radiusY * radiusY) * (c * c + s * s))
        by ring.
      rewrite Hunit. ring.
    + assert (Hnext : ((i + 1) mod segments < segments)%nat)
        by (apply Nat.mod_upper_bound; lia).
      destruct (TrackLoader.createOvalBoundary centerX centerY radiusX
                  radiusY segments !! ((i + 1) mod segments))
        as [next |] eqn:Hlookup.
      * exists next. split; [reflexivity |].
        destruct (createOvalBoundary_lookup _ next Hlookup) as [_ ->].
        reflexivity.
      * exfalso. apply lookup_ge_None in Hlookup.
        unfold TrackLoader.createOvalBoundary in Hlookup. cbv zeta in Hlookup.
        rewrite length_map, length_seq in Hlookup. lia.
Qed.

End OvalBoundary.

Section OvalRuns.

Lemma createOvalBoundary_closed_witness :
  List.length (TrackLoader.createOvalBoundary 600 400 500 300 32) = 32%nat.
Proof.
  apply (createOvalBoundary_closed 600 400 500 300 32).
Defined.

End OvalRuns.

(** * Starting, stopping and restarting the loop *)
Section Lifecycle.

(** The game a stopped loop starts: the same game, racing, with the race
    and the lap starting at the second and third clock readings. *)
Lemma start_of_stopped_loop (this : Scheduler.Scheduled)
  (env : Scheduler.Env) :
  let tick := GameLoop.tickDuration (Scheduler.loop this) in
  let s := GameLoop.state (Scheduler.loop this) in
  let started :=
    {| Game.status := Game.racing;
       Game.car := Game.car s;
       Game.track := Game.track s;
       Game.lapProgress := Game.lapProgress s;
       Game.timing :=
         {| Game.raceStartTime := Clock.later env 1;
            Game.lapStartTime := Clock.later env 2;
            Game.lapTimes := Game.lapTimes (Game.timing s);
            Game.currentLap := Game.currentLap (Game.timing s) |};
       Game.totalLaps := Game.totalLaps s;
       Game.tick := Game.tick s |} in
  GameLoop.running (Scheduler.loop this) = false ->
  0 < tick ->
  Clock.later env 0 <= Clock.later env 3 ->
  exists n : nat,
    INR n * tick <= 0.25
    /\ ((Clock.later env 3 - Clock.later env 0) / 1000 < tick -> n = 0%nat)
    /\ forall fuel : nat,
         (n <= fuel)%nat ->
         exists (this' : Scheduler.Scheduled) (env' : Scheduler.Env),
           Scheduler.start fuel this env = Some (this', env')
           /\ GameLoop.running (Scheduler.loop this') = true
           /\ Scheduler.listening env' = true
           /\ GameLoop.lastTime (Scheduler.loop this') = Clock.later env 3
           /\ 0 <= GameLoop.accumulator (Scheduler.loop this') < tick
           /\ Scheduler.rendered env'
              = Scheduler.rendered env
                ++ [(GameLoop.state (Scheduler.loop this'),
                     GameLoop.accumulator (Scheduler.loop this') / tick)]
           /\ Scheduler.animationFrameId this'
              = Some (S (Scheduler.requested env))
           /\ Scheduler.requested env' = S (Scheduler.requested env)
           /\ Scheduler.cancelled env' = Scheduler.cancelled env
           /\ Scheduler.sampled env' = (Scheduler.sampled env + n)%nat
           /\ ((Clock.later env 3 - Clock.later env 0) / 1000 < tick ->
               GameLoop.state (Scheduler.loop this') = started)
           /\ forall P : GameState -> Prop,
                (forall l i w, P (GameLoop.state l) ->
                   P (GameLoop.state (snd (fst (GameLoop.step l i w))))) ->
                P started -> P (GameLoop.state (Scheduler.loop this')).
Proof.
  intros tick s started Hstopped Htick Hclock.
  set (w := Scheduler.world env).
  set (env1 :=
         Scheduler.set_world (Scheduler.set_listening env true)
           (Host.after_reading (Host.after_reading (Host.after_reading w)))).
  set (this1 :=
         {| Scheduler.loop :=
              GameLoop.set_state
                (Scheduler.set_schedule (Scheduler.loop this) true 0
                   (Clock.later env 0))
                started;
            Scheduler.animationFrameId := Scheduler.animationFrameId this |}).
  assert (Hstart : forall fuel,
            Scheduler.start fuel this env = Scheduler.loopFrame fuel this1 env1).
  { intros fuel. unfold Scheduler.start. rewrite Hstopped. reflexivity. }
  destruct (frame_of_running_loop this1 env1) as (n & Hcap & Hnone & Hframe);
    [reflexivity | exact Htick | apply Rle_refl | exact Hclock |].
  change (INR n * tick <= 0 + 0.25) in Hcap.
  change (0 + (Clock.later env 3 - Clock.later env 0) / 1000 < tick
          -> n = 0%nat) in Hnone.
  exists n. split; [lra |]. split; [intros Hwithin; apply Hnone; lra |].
  intros fuel Hfuel.
  destruct (Hframe fuel Hfuel)
    as (this' & env' & Hsome & Hleft & _ & Hrendered & Hsampled & Hid & Hlast
        & Hrunning & Hlistening & Hcancelled & Hrequested & Hshort & Hkept).
  exists this', env'. rewrite Hstart.
  split; [exact Hsome |]. split; [exact Hrunning |].
  split; [exact Hlistening |]. split; [exact Hlast |].
  split; [exact Hleft |]. split; [exact Hrendered |].
  split; [exact Hid |]. split; [exact Hrequested |].
  split; [exact Hcancelled |]. split; [exact Hsampled |].
  split; [| exact Hkept].
  intros Hwithin. apply Hshort.
  change (0 + (Clock.later env 3 - Clock.later env 0) / 1000 < tick). lra.
Qed.

(** [start] on a stopped loop, with a positive tick and a clock that does
    not go back: it ends (given fuel for the [n] ticks of its first frame,
    at most 0.25 s worth), with the loop running, the input source
    listening, one frame rendered and one requested.  The game has left
    the countdown for good, on the same track with the same number of
    laps, and its lap progress is still well formed.  When the first frame
    begins less than a tick after the start, no tick has run: the game is
    the old one set to racing, its race and lap starting at the second and
    third readings of the clock, with laps, progress and tick count kept.
    A second [start] then does nothing. *)
Theorem start_begins_race (this : Scheduler.Scheduled)
  (env : Scheduler.Env) :
  let tick := GameLoop.tickDuration (Scheduler.loop this) in
  let s := GameLoop.state (Scheduler.loop this) in
  GameLoop.running (Scheduler.loop this) = false ->
  0 < tick ->
  Clock.later env 0 <= Clock.later env 3 ->
  exists n : nat,
    INR n * tick <= 0.25
    /\ forall fuel : nat,
         (n <= fuel)%nat ->
         exists (this' : Scheduler.Scheduled) (env' : Scheduler.Env),
           let s' := GameLoop.state (Scheduler.loop this') in
           Scheduler.start fuel this env = Some (this', env')
           /\ GameLoop.running (Scheduler.loop this') = true
           /\ Scheduler.listening env' = true
           /\ Scheduler.rendered env'
              = Scheduler.rendered env
                ++ [(s', GameLoop.accumulator (Scheduler.loop this') / tick)]
           /\ Scheduler.animationFrameId this'
              = Some (S (Scheduler.requested env))
           /\ Scheduler.sampled env' = (Scheduler.sampled env + n)%nat
           /\ Game.status s' <> Game.countdown
           /\ Game.track s' = Game.track s
           /\ Game.totalLaps s' = Game.totalLaps s
           /\ (LapInvariant.well_formed (Game.lapProgress s) ->
               LapInvariant.well_formed (Game.lapProgress s'))
           /\ ((Clock.later env 3 - Clock.later env 0) / 1000 < tick ->
               s' = {| Game.status := Game.racing;
                       Game.car := Game.car s;
                       Game.track := Game.track s;
                       Game.lapProgress := Game.lapProgress s;
                       Game.timing :=
                         {| Game.raceStartTime := Clock.later env 1;
                            Game.lapStartTime := Clock.later env 2;
                            Game.lapTimes := Game.lapTimes (Game.timing s);
                            Game.currentLap :=
                              Game.currentLap (Game.timing s) |};
                       Game.totalLaps := Game.totalLaps s;
                       Game.tick := Game.tick s |})
           /\ forall fuel' : nat,
                Scheduler.start fuel' this' env' = Some (this', env').
Proof.
  intros tick s Hstopped Htick Hclock.
  destruct (start_of_stopped_loop this env Hstopped Htick Hclock)
    as (n & Hcap & _ & Hstart).
  exists n. split; [exact Hcap |]. intros fuel Hfuel.
  destruct (Hstart fuel Hfuel)
    as (this' & env' & Hsome & Hrunning & Hlistening & _ & _ & Hrendered
        & Hid & _ & _ & Hsampled & Hshort & Hkept).
  exists this', env'. cbv zeta.
  split; [exact Hsome |]. split; [exact Hrunning |].
  split; [exact Hlistening |]. split; [exact Hrendered |].
  split; [exact Hid |]. split; [exact Hsampled |].
  split.
  { apply (Hkept (fun g => Game.status g <> Game.countdown));
      [| discriminate].
    intros l i w. apply (step_invariants l i w). }
  split.
  { apply (Hkept (fun g => Game.track g = Game.track s)); [| reflexivity].
    intros l i w <-. apply (step_invariants l i w). }
  split.
  { apply (Hkept (fun g => Game.totalLaps g = Game.totalLaps s));
      [| reflexivity].
    intros l i w <-. apply (step_invariants l i w). }
  split.
  { intros Hwf.
    apply (Hkept (fun g => LapInvariant.well_formed (Game.lapProgress g)));
      [| exact Hwf].
    intros l i w. apply (step_invariants l i w). }
  split; [exact Hshort |].
  intros fuel'. unfold Scheduler.start. now rewrite Hrunning.
Qed.

(** [stop] leaves a loop that is not running, with no frame pending and an
    input source that no longer listens; it cancels the pending frame, if
    there is one, and touches neither the game, the clock nor the screen.
    A frame that fires after [stop] does nothing, whatever the
    environment, and a second [stop] changes nothing. *)
Theorem stop_halts (this : Scheduler.Scheduled) (env : Scheduler.Env) :
  let this' := fst (Scheduler.stop this env) in
  let env' := snd (Scheduler.stop this env) in
  GameLoop.running (Scheduler.loop this') = false
  /\ Scheduler.animationFrameId this' = None
  /\ Scheduler.listening env' = false
  /\ Scheduler.cancelled env' = Scheduler.cancelled env ++ Clock.pending this
  /\ GameLoop.state (Scheduler.loop this') = GameLoop.state (Scheduler.loop this)
  /\ Scheduler.world env' = Scheduler.world env
  /\ Scheduler.rendered env' = Scheduler.rendered env
  /\ Scheduler.requested env' = Scheduler.requested env
  /\ Scheduler.sampled env' = Scheduler.sampled env
  /\ (forall (fuel : nat) (later : Scheduler.Env),
        Scheduler.loopFrame fuel this' later = Some (this', later))
  /\ Scheduler.stop this' env' = (this', env').
Proof.
  cbv zeta. unfold Scheduler.stop, Clock.pending.
  destruct (Scheduler.animationFrameId this) as [id |]; cbn [fst snd];
    cbn [Scheduler.loop Scheduler.animationFrameId Scheduler.set_schedule
         Scheduler.set_listening Scheduler.cancelAnimationFrame
         GameLoop.running GameLoop.state GameLoop.accumulator
         GameLoop.lastTime Scheduler.listening Scheduler.cancelled
         Scheduler.world Scheduler.rendered Scheduler.requested
         Scheduler.sampled Scheduler.inputs];
    (split; [reflexivity |]); (split; [reflexivity |]);
    (split; [reflexivity |]);
    (split; [first [reflexivity | now rewrite app_nil_r] |]);
    (split; [reflexivity |]); (split; [reflexivity |]);
    (split; [reflexivity |]); (split; [reflexivity |]);
    (split; [reflexivity |]);
    (split; [intros fuel later; reflexivity | reflexivity]).
Qed.

(** [restart], with a positive tick and a first frame that begins less
    than a tick after the loop was started again: it ends with any fuel,
    with the loop running, the old pending frame cancelled and a new one
    requested, no input sampled and one frame rendered, and the game reset
    on the same track: the car at the start with no velocity, only
    checkpoint 0 passed, lap 1, no lap times, tick 0.  The race and the lap
    start at the readings [start] takes, not at the reading [restart]
    itself took before. *)
Theorem restart_resets (this : Scheduler.Scheduled)
  (env : Scheduler.Env) :
  let tick := GameLoop.tickDuration (Scheduler.loop this) in
  let s := GameLoop.state (Scheduler.loop this) in
  0 < tick ->
  Clock.later env 1 <= Clock.later env 4 ->
  (Clock.later env 4 - Clock.later env 1) / 1000 < tick ->
  forall fuel : nat,
    exists (this' : Scheduler.Scheduled) (env' : Scheduler.Env),
      Scheduler.restart fuel this env = Some (this', env')
      /\ GameLoop.state (Scheduler.loop this')
         = {| Game.status := Game.racing;
              Game.car :=
                {| Car.position := Track.startPosition (Game.track s);
                   Car.rotation := Track.startRotation (Game.track s);
                   Car.velocity := vec2 0 0;
                   Car.angularVelocity := 0 |};
              Game.track := Game.track s;
              Game.lapProgress :=
                {| Game.lastCheckpointIndex := 0;
                   Game.checkpointsPassed := {[ 0%Z ]} |};
              Game.timing :=
                {| Game.raceStartTime := Clock.later env 2;
                   Game.lapStartTime := Clock.later env 3;
                   Game.lapTimes := [];
                   Game.currentLap := 1 |};
              Game.totalLaps := Game.totalLaps s;
              Game.tick := 0 |}
      /\ GameLoop.running (Scheduler.loop this') = true
      /\ Scheduler.listening env' = true
      /\ Scheduler.cancelled env'
         = Scheduler.cancelled env ++ Clock.pending this
      /\ Scheduler.animationFrameId this' = Some (S (Scheduler.requested env))
      /\ Scheduler.sampled env' = Scheduler.sampled env
      /\ List.length (Scheduler.rendered env')
         = S (List.length (Scheduler.rendered env)).
Proof.
  intros tick s Htick Hclock Hwithin fuel.
  set (state :=
         Game.updateGameState s
           {| Game.status_opt := Some Game.racing;
              Game.car_opt :=
                Some {| Car.position := Track.startPosition (Game.track s);
                        Car.rotation := Track.startRotation (Game.track s);
                        Car.velocity := vec2 0 0;
                        Car.angularVelocity := 0 |};
              Game.track_opt := None;
              Game.lapProgress_opt :=
                Some {| Game.lastCheckpointIndex := 0;
                        Game.checkpointsPassed := {[ 0%Z ]} |};
              Game.timing_opt :=
                Some {| Game.raceStartTime := Clock.later env 0;
                        Game.lapStartTime := Clock.later env 0;
                        Game.lapTimes := [];
                        Game.currentLap := 1 |};
              Game.totalLaps_opt := None;
              Game.tick_opt := Some 0%Z |}).
  set (this1 :=
         {| Scheduler.loop :=
              GameLoop.set_state
                (Scheduler.set_schedule (Scheduler.loop this) false
                   (GameLoop.accumulator (Scheduler.loop this))
                   (GameLoop.lastTime (Scheduler.loop this)))
                state;
            Scheduler.animationFrameId := None |}).
  set (env1 :=
         {| Scheduler.world := Host.after_reading (Scheduler.world env);
            Scheduler.inputs := Scheduler.inputs env;
            Scheduler.sampled := Scheduler.sampled env;
            Scheduler.listening := false;
            Scheduler.rendered := Scheduler.rendered env;
            Scheduler.requested := Scheduler.requested env;
            Scheduler.cancelled :=
              Scheduler.cancelled env ++ Clock.pending this |}).
  assert (Hrestart : Scheduler.restart fuel this env
                     = Scheduler.start fuel this1 env1).
  { unfold Scheduler.restart, Scheduler.stop.
    subst this1 env1 state s. unfold Clock.pending.
    destruct (Scheduler.animationFrameId this) as [id |];
      [reflexivity |].
    unfold Scheduler.now, Host.performance_now, Scheduler.set_listening,
      Scheduler.set_world.
    cbn [Scheduler.world Scheduler.inputs Scheduler.sampled
         Scheduler.listening Scheduler.rendered Scheduler.requested
         Scheduler.cancelled Scheduler.loop Scheduler.animationFrameId].
    now rewrite app_nil_r. }
  destruct (start_of_stopped_loop this1 env1) as (n & _ & Hnone & Hstart);
    [reflexivity | exact Htick | exact Hclock |].
  specialize (Hnone Hwithin). subst n.
  destruct (Hstart fuel (Nat.le_0_l fuel))
    as (this' & env' & Hsome & Hrunning & Hlistening & _ & _ & Hrendered
        & Hid & _ & Hcancelled & Hsampled & Hshort & _).
  specialize (Hshort Hwithin).
  exists this', env'. rewrite Hrestart.
  split; [exact Hsome |]. split; [rewrite Hshort; reflexivity |].
  split; [exact Hrunning |]. split; [exact Hlistening |].
  split; [exact Hcancelled |]. split; [exact Hid |].
  split; [rewrite Hsampled; cbn [env1 Scheduler.sampled]; lia |].
  rewrite Hrendered, length_app. cbn [env1 Scheduler.rendered List.length].
  lia.
Qed.

End Lifecycle.

Section LifecycleRuns.

Lemma start_begins_race_witness :
  exists n : nat, INR n * Config.TICK_DURATION <= 0.25.
Proof.
  destruct (start_begins_race
              (Scheduler.create Fixtures.finishedState None)
              FrameFixtures.env)
    as (n & Hn & _).
  - reflexivity.
  - cbn [Scheduler.create Scheduler.loop GameLoop.tickDuration].
    unfold Config.TICK_DURATION. lra.
  - apply Rle_refl.
  - exists n. exact Hn.
Defined.

Lemma restart_resets_witness :
  exists (this' : Scheduler.Scheduled) (env' : Scheduler.Env),
    Scheduler.restart 0 FrameFixtures.scheduled FrameFixtures.env
    = Some (this', env')
    /\ Game.tick (GameLoop.state (Scheduler.loop this')) = 0%Z.
Proof.
  destruct (restart_resets FrameFixtures.scheduled FrameFixtures.env)
    with (fuel := 0%nat)
    as (this' & env' & Hsome & Hstate & _).
  - cbn [FrameFixtures.scheduled Scheduler.loop Fixtures.finishedLoop
         GameLoop.tickDuration].
    unfold Config.TICK_DURATION. lra.
  - apply Rle_refl.
  - unfold Clock.later.
    cbn [FrameFixtures.env Scheduler.world Fixtures.mockWorld Host.readings
         FrameFixtures.scheduled Scheduler.loop Fixtures.finishedLoop
         GameLoop.tickDuration].
    unfold Config.TICK_DURATION. lra.
  - exists this', env'. split; [exact Hsome |]. now rewrite Hstate.
Defined.

End LifecycleRuns.

(** * Lap times add up *)
Section LapTimes.

Lemma lapsTotal_lapCompleted (timing : TimingState) (now : R) :
  LapInvariant.lapsTotal (Outcome.lapCompleted timing now)
  = LapInvariant.lapsTotal timing + (now - Game.lapStartTime timing).
Proof.
  unfold LapInvariant.lapsTotal, Outcome.lapCompleted. cbn [Game.lapTimes].
  rewrite map_app. cbn [map Game.timeMs].
  induction (map Game.timeMs (Game.lapTimes timing)) as [| t ts IH];
    cbn [app fold_right]; [lra | rewrite IH; lra].
Qed.

Lemma consistent_lapCompleted (timing : TimingState) (now : R) :
  LapInvariant.consistent timing ->
  LapInvariant.consistent (Outcome.lapCompleted timing now).
Proof.
  intros [Hsum Hlap]. split.
  - rewrite lapsTotal_lapCompleted.
    unfold Outcome.lapCompleted; cbn [Game.raceStartTime Game.lapStartTime].
    lra.
  - unfold Outcome.lapCompleted; cbn [Game.currentLap Game.lapTimes].
    rewrite length_app. cbn [List.length]. lia.
Qed.

Lemma step_consistent (loop : GameLoop.GameLoop) (input : InputCommand)
  (w : World) :
  LapInvariant.consistent (Game.timing (GameLoop.state loop)) ->
  LapInvariant.consistent
    (Game.timing (GameLoop.state (snd (fst (GameLoop.step loop input w))))).
Proof.
  intros Hconsistent.
  destruct (decide (Game.status (GameLoop.state loop) = Game.racing))
    as [Hracing | Hidle].
  - rewrite (step_racing_unfold loop input w Hracing). cbn [fst snd].
    cbn [GameLoop.set_state GameLoop.state Game.timing].
    unfold LapTracker.updateLapProgress.
    destruct (loop_at_most_one_lap
                (Track.checkpoints (Game.track (GameLoop.state loop)))
                (Car.position (Game.car (GameLoop.state loop)))
                (Car.position
                   (PhysicsEngine.update (GameLoop.physics loop)
                      (Game.car (GameLoop.state loop)) input
                      (GameLoop.tickDuration loop)))
                (Game.totalLaps (GameLoop.state loop))
                (Game.timing (GameLoop.state loop)) w
                (Track.checkpoints (Game.track (GameLoop.state loop)))
                (Game.lapProgress (GameLoop.state loop)) false
                (Nat.le_refl _))
      as [[-> _] | [-> _]];
      [exact Hconsistent | now apply consistent_lapCompleted].
  - rewrite step_idle by exact Hidle. exact Hconsistent.
Qed.

(** The lap times add up.  A fresh timing state is consistent: the
    recorded laps fill the time between the start of the race and the
    start of the current lap, and the current lap is numbered one more
    than the laps recorded.  [updateLapProgress] keeps a consistent timing
    consistent, and so does every scripted run of the loop.  For a
    consistent timing the total race time is the time of the recorded laps
    plus the current lap time, both read at the same clock value. *)
Theorem lap_times_add_up :
  (forall startTime : R,
     LapInvariant.consistent (Game.createTimingState startTime))
  /\ (forall (progress : LapProgress) (timing : TimingState)
             (checkpoints : list Checkpoint) (oldPos newPos : Vec2)
             (totalLaps : Z) (w : World),
        LapInvariant.consistent timing ->
        LapInvariant.consistent
          (LapTracker.timing
             (fst (LapTracker.updateLapProgress progress timing checkpoints
                     oldPos newPos totalLaps w))))
  /\ (forall (inputs : list InputCommand) (loop : GameLoop.GameLoop)
             (w : World),
        LapInvariant.consistent (Game.timing (GameLoop.state loop)) ->
        LapInvariant.consistent
          (Game.timing
             (GameLoop.state (snd (fst (Script.stepAll loop inputs w))))))
  /\ (forall (timing : TimingState) (w : World),
        LapInvariant.consistent timing ->
        fst (LapQueries.getTotalRaceTime timing w)
        = LapInvariant.lapsTotal timing
          + fst (LapQueries.getCurrentLapTime timing w)).
Proof.
  split; [| split; [| split]].
  - intros startTime. split.
    + unfold LapInvariant.lapsTotal, Game.createTimingState.
      cbn [Game.lapTimes Game.raceStartTime Game.lapStartTime map fold_right].
      lra.
    + reflexivity.
  - intros progress timing checkpoints oldPos newPos totalLaps w Hconsistent.
    unfold LapTracker.updateLapProgress.
    destruct (loop_at_most_one_lap checkpoints oldPos newPos totalLaps timing
                w checkpoints progress false (Nat.le_refl _))
      as [[-> _] | [-> _]];
      [exact Hconsistent | now apply consistent_lapCompleted].
  - induction inputs as [| input inputs IH]; intros loop w Hconsistent;
      [exact Hconsistent |].
    cbn [Script.stepAll]. unfold Host.bind.
    pose proof (step_consistent loop input w Hconsistent) as Hstep.
    destruct (GameLoop.step loop input w) as [[s1 loop1] w1].
    cbn [fst snd] in *.
    specialize (IH loop1 w1 Hstep).
    destruct (Script.stepAll loop1 inputs w1) as [[states loop2] w2].
    exact IH.
  - intros timing w [Hsum _].
    unfold LapQueries.getTotalRaceTime, LapQueries.getCurrentLapTime,
      Host.bind, Host.performance_now, Host.ret.
    cbn [fst]. lra.
Qed.

End LapTimes.

Section LapTimesRuns.

Lemma lap_times_add_up_witness :
  fst (LapQueries.getTotalRaceTime Fixtures.timingLastLap
         (Fixtures.mockWorld 5000))
  = LapInvariant.lapsTotal Fixtures.timingLastLap
    + fst (LapQueries.getCurrentLapTime Fixtures.timingLastLap
             (Fixtures.mockWorld 5000)).
Proof.
  apply (proj2 (proj2 (proj2 lap_times_add_up))).
  split; [| reflexivity].
  unfold LapInvariant.lapsTotal, Fixtures.timingLastLap.
  cbn [Game.lapTimes Game.raceStartTime Game.lapStartTime Game.timeMs map
       fold_right].
  lra.
Defined.

End LapTimesRuns.

(** * The game-state factory *)
Section Factory.

(** [resetGameState] gives the state [createInitialGameState] gives for
    the same track, except that it keeps the number of laps; it reads the
    clock once; the game it gives is in the countdown, with a well-formed
    lap progress and a consistent timing, so that the loop holding it
    returns it unchanged for every input of a scripted run until it is
    started; and resetting twice at the same reading is resetting once. *)
Theorem resetGameState_fresh (state : GameState) (w : World) :
  let reset := GameStateFactory.resetGameState state w in
  let initial :=
    GameStateFactory.createInitialGameState (Game.track state) w in
  fst reset
  = Game.updateGameState (fst initial)
      {| Game.status_opt := None; Game.car_opt := None;
         Game.track_opt := None; Game.lapProgress_opt := None;
         Game.timing_opt := None;
         Game.totalLaps_opt := Some (Game.totalLaps state);
         Game.tick_opt := None |}
  /\ snd reset = Host.after_reading w
  /\ snd initial = Host.after_reading w
  /\ Game.status (fst reset) = Game.countdown
  /\ LapInvariant.well_formed (Game.lapProgress (fst reset))
  /\ LapInvariant.consistent (Game.timing (fst reset))
  /\ fst (GameStateFactory.resetGameState (fst reset) w) = fst reset
  /\ forall (loop : GameLoop.GameLoop) (inputs : list InputCommand)
            (w' : World),
       GameLoop.state loop = fst reset ->
       Script.stepAll loop inputs w'
       = ((replicate (List.length inputs) (fst reset), loop), w').
Proof.
  cbv zeta.
  unfold GameStateFactory.resetGameState,
    GameStateFactory.createInitialGameState, Host.bind, Host.performance_now,
    Host.ret.
  cbn [fst snd].
  split; [reflexivity |]. split; [reflexivity |]. split; [reflexivity |].
  split; [reflexivity |].
  split.
  { split; cbn [Game.lapProgress Game.createLapProgress
                Game.checkpointsPassed Game.lastCheckpointIndex];
      now apply elem_of_singleton. }
  split.
  { split; [| reflexivity].
    unfold LapInvariant.lapsTotal, Game.createTimingState.
    cbn [Game.timing Game.lapTimes Game.raceStartTime Game.lapStartTime map
         fold_right].
    lra. }
  split; [reflexivity |].
  intros loop inputs w' Hstate.
  rewrite <- Hstate. apply stepAll_idle. now rewrite Hstate.
Qed.

End Factory.

(** * Replays *)
Section Replays.

(** A crossing decides by the progress, the checkpoint and the lap
    number; the clock only dates the lap. *)
Lemma processCheckpointCross_clock (progress : LapProgress)
  (timing1 timing2 : TimingState) (checkpoint : Checkpoint)
  (totalCheckpoints totalLaps : Z) (w1 w2 : World) :
  Replay.lapNumbers timing1 = Replay.lapNumbers timing2 ->
  let r1 :=
    fst (LapTracker.processCheckpointCross progress timing1 checkpoint
           totalCheckpoints totalLaps w1) in
  let r2 :=
    fst (LapTracker.processCheckpointCross progress timing2 checkpoint
           totalCheckpoints totalLaps w2) in
  LapTracker.Cross.progress r1 = LapTracker.Cross.progress r2
  /\ LapTracker.Cross.raceFinished r1 = LapTracker.Cross.raceFinished r2
  /\ Replay.lapNumbers (LapTracker.Cross.timing r1)
     = Replay.lapNumbers (LapTracker.Cross.timing r2).
Proof.
  intros Hsame. pose proof Hsame as Hboth.
  unfold Replay.lapNumbers in Hboth. injection Hboth as Hnumbers Hlap.
  cbv zeta. unfold LapTracker.processCheckpointCross. cbv zeta.
  destruct (decide (Track.index checkpoint = 0)%Z) as [Hstart | Hother].
  - destruct (forallb _ _).
    + unfold Host.bind, Host.performance_now, Host.ret.
      cbn [fst LapTracker.Cross.progress LapTracker.Cross.raceFinished
           LapTracker.Cross.timing].
      rewrite Hlap. split; [reflexivity |]. split; [reflexivity |].
      unfold Replay.lapNumbers. cbn [Game.lapTimes Game.currentLap].
      rewrite !map_app, Hnumbers. reflexivity.
    + unfold Host.ret. cbn [fst LapTracker.Cross.progress
        LapTracker.Cross.raceFinished LapTracker.Cross.timing]. tauto.
  - destruct (bool_decide _);
      [| destruct (decide _)];
      unfold Host.ret;
      cbn [fst LapTracker.Cross.progress LapTracker.Cross.raceFinished
           LapTracker.Cross.timing]; tauto.
Qed.

Lemma updateLapProgress_loop_clock (checkpoints : list Checkpoint)
  (oldPos newPos : Vec2) (totalLaps : Z) :
  forall (toVisit : list Checkpoint) (progress : LapProgress)
         (timing1 timing2 : TimingState) (raceFinished : bool)
         (w1 w2 : World),
    Replay.lapNumbers timing1 = Replay.lapNumbers timing2 ->
    let r1 :=
      fst (LapTracker.updateLapProgress_loop toVisit checkpoints oldPos
             newPos totalLaps progress timing1 raceFinished w1) in
    let r2 :=
      fst (LapTracker.updateLapProgress_loop toVisit checkpoints oldPos
             newPos totalLaps progress timing2 raceFinished w2) in
    LapTracker.lapProgress r1 = LapTracker.lapProgress r2
    /\ LapTracker.raceFinished r1 = LapTracker.raceFinished r2
    /\ Replay.lapNumbers (LapTracker.timing r1)
       = Replay.lapNumbers (LapTracker.timing r2).
Proof.
  induction toVisit as [| checkpoint toVisit IH];
    intros progress timing1 timing2 raceFinished w1 w2 Hsame; cbv zeta.
  - cbn [LapTracker.updateLapProgress_loop]. unfold Host.ret.
    cbn [fst LapTracker.lapProgress LapTracker.raceFinished
         LapTracker.timing]. tauto.
  - cbn [LapTracker.updateLapProgress_loop].
    destruct (LapTracker.crossesCheckpoint oldPos newPos checkpoint);
      [| now apply IH].
    unfold Host.bind.
    pose proof (processCheckpointCross_clock progress timing1 timing2
                  checkpoint (Z.of_nat (List.length checkpoints)) totalLaps
                  w1 w2 Hsame) as Hcross.
    cbv zeta in Hcross.
    destruct (LapTracker.processCheckpointCross progress timing1 _ _ _ w1)
      as [r1 w1'].
    destruct (LapTracker.processCheckpointCross progress timing2 _ _ _ w2)
      as [r2 w2'].
    cbn [fst] in Hcross. destruct Hcross as (Hprogress & Hfinished & Hnumbers).
    rewrite Hprogress, Hfinished. now apply IH.
Qed.

(** One step of two loops that agree but for the clock. *)
Lemma step_clock (loop1 loop2 : GameLoop.GameLoop) (input : InputCommand)
  (w1 w2 : World) :
  Replay.gameplay (GameLoop.state loop1)
  = Replay.gameplay (GameLoop.state loop2) ->
  GameLoop.physics loop1 = GameLoop.physics loop2 ->
  GameLoop.tickDuration loop1 = GameLoop.tickDuration loop2 ->
  let r1 := fst (GameLoop.step loop1 input w1) in
  let r2 := fst (GameLoop.step loop2 input w2) in
  Replay.gameplay (fst r1) = Replay.gameplay (fst r2)
  /\ Replay.gameplay (GameLoop.state (snd r1))
     = Replay.gameplay (GameLoop.state (snd r2))
  /\ GameLoop.physics (snd r1) = GameLoop.physics (snd r2)
  /\ GameLoop.tickDuration (snd r1) = GameLoop.tickDuration (snd r2).
Proof.
  intros Hsame Hphysics Htick. pose proof Hsame as Hparts.
  unfold Replay.gameplay in Hparts.
  remember (Replay.lapNumbers (Game.timing (GameLoop.state loop1)))
    as numbers1 eqn:Hnumbers1.
  remember (Replay.lapNumbers (Game.timing (GameLoop.state loop2)))
    as numbers2 eqn:Hnumbers2.
  injection Hparts as Hstatus Hcar Htrack Hprogress Hnumbers Hlaps Hticks.
  subst numbers1 numbers2.
  cbv zeta.
  destruct (decide (Game.status (GameLoop.state loop1) = Game.racing))
    as [Hracing | Hidle].
  - rewrite (step_racing_unfold loop1 input w1 Hracing).
    rewrite (step_racing_unfold loop2 input w2)
      by (now rewrite <- Hstatus).
    cbn [fst snd GameLoop.set_state GameLoop.state GameLoop.physics
         GameLoop.tickDuration].
    rewrite <- Hcar, <- Htrack, <- Hprogress, <- Hlaps, <- Hticks,
      <- Hphysics, <- Htick.
    unfold LapTracker.updateLapProgress.
    pose proof (updateLapProgress_loop_clock
                  (Track.checkpoints (Game.track (GameLoop.state loop1)))
                  (Car.position (Game.car (GameLoop.state loop1)))
                  (Car.position
                     (PhysicsEngine.update (GameLoop.physics loop1)
                        (Game.car (GameLoop.state loop1)) input
                        (GameLoop.tickDuration loop1)))
                  (Game.totalLaps (GameLoop.state loop1))
                  (Track.checkpoints (Game.track (GameLoop.state loop1)))
                  (Game.lapProgress (GameLoop.state loop1))
                  (Game.timing (GameLoop.state loop1))
                  (Game.timing (GameLoop.state loop2)) false w1 w2 Hnumbers)
      as Hlap.
    cbv zeta in Hlap. destruct Hlap as (Hprogress' & Hfinished & Hnumbers').
    unfold Replay.gameplay.
    cbn [Game.status Game.car Game.track Game.lapProgress Game.timing
         Game.totalLaps Game.tick].
    rewrite Hprogress', Hfinished, Hnumbers'. tauto.
  - rewrite step_idle by exact Hidle.
    rewrite step_idle by (now rewrite <- Hstatus).
    cbn [fst snd]. tauto.
Qed.

(** Replay: two scripted runs of the loop over the same inputs, from loops
    with the same engine and tick duration whose games agree but for the
    clock readings they hold, return at every tick games that agree but
    for the clock readings: the same status, car, track, lap progress, lap
    numbers, current lap, number of laps and tick.  The clocks of the two
    runs may read anything and the observers may differ: the readings
    enter [raceStartTime], [lapStartTime] and the lap times only. *)
Theorem stepAll_ignores_clock (inputs : list InputCommand) :
  forall (loop1 loop2 : GameLoop.GameLoop) (w1 w2 : World),
    Replay.gameplay (GameLoop.state loop1)
    = Replay.gameplay (GameLoop.state loop2) ->
    GameLoop.physics loop1 = GameLoop.physics loop2 ->
    GameLoop.tickDuration loop1 = GameLoop.tickDuration loop2 ->
    let run1 := fst (Script.stepAll loop1 inputs w1) in
    let run2 := fst (Script.stepAll loop2 inputs w2) in
    map Replay.gameplay (fst run1) = map Replay.gameplay (fst run2)
    /\ Replay.gameplay (GameLoop.state (snd run1))
       = Replay.gameplay (GameLoop.state (snd run2)).
Proof.
  induction inputs as [| input inputs IH];
    intros loop1 loop2 w1 w2 Hsame Hphysics Htick; cbv zeta.
  - cbn [Script.stepAll Host.ret fst snd map]. tauto.
  - cbn [Script.stepAll]. unfold Host.bind.
    pose proof (step_clock loop1 loop2 input w1 w2 Hsame Hphysics Htick)
      as Hstep.
    cbv zeta in Hstep.
    destruct (GameLoop.step loop1 input w1) as [[s1 next1] w1'].
    destruct (GameLoop.step loop2 input w2) as [[s2 next2] w2'].
    cbn [fst snd] in *.
    destruct Hstep as (Hfirst & Hnext & Hphysics' & Htick').
    specialize (IH next1 next2 w1' w2' Hnext Hphysics' Htick').
    cbv zeta in IH.
    destruct (Script.stepAll next1 inputs w1') as [[states1 last1] w1''].
    destruct (Script.stepAll next2 inputs w2') as [[states2 last2] w2''].
    cbn [fst snd Host.ret map] in *.
    destruct IH as [Hrest Hlast].
    split; [now rewrite Hfirst, Hrest | exact Hlast].
Qed.

End Replays.

Section ReplayRuns.

Lemma stepAll_ignores_clock_witness :
  let racing timing :=
    GameLoop.set_state Fixtures.finishedLoop
      (Game.updateGameState Fixtures.finishedState
         {| Game.status_opt := Some Game.racing; Game.car_opt := None;
            Game.track_opt := None; Game.lapProgress_opt := None;
            Game.timing_opt := Some timing;
            Game.totalLaps_opt := None; Game.tick_opt := None |}) in
  map Replay.gameplay
    (fst (fst (Script.stepAll (racing Fixtures.timingLastLap)
                 [Fixtures.fullThrottle; Input.INPUT_NONE]
                 (Fixtures.mockWorld 0))))
  = map Replay.gameplay
      (fst (fst (Script.stepAll
                   (racing
                      {| Game.raceStartTime := 100;
                         Game.lapStartTime := 4100;
                         Game.lapTimes :=
                           [ {| Game.lapNumber := 1; Game.timeMs := 1900 |};
                             {| Game.lapNumber := 2; Game.timeMs := 2100 |} ];
                         Game.currentLap := 3 |})
                   [Fixtures.fullThrottle; Input.INPUT_NONE]
                   (Fixtures.mockWorld 5000)))).
Proof.
  apply (stepAll_ignores_clock [Fixtures.fullThrottle; Input.INPUT_NONE]);
    reflexivity.
Defined.

End ReplayRuns.
